(** * Verification of the LEGO EV3 protocol engine of scratch-vm

    Shallow embedding of [src/extensions/scratch3_ev3/ev3.js] (the classes
    [EV3Motor] and [EV3] with their enum tables) and the properties of its
    frame builder, poll cycle, reply dispatcher, motor commands and send
    entry point.

    Conventions of the embedding:
    - a JS integer is a [Z]; the bitwise operators go through [ToInt32],
      written out in [JS.to_int32];
    - a JS number holding a sensor reading is a binary64 [float];
    - a JS array of [A] is a [list (option A)], where [None] stands for
      [undefined], [null] or a hole; writing past the end extends the array;
    - the enum objects are finite maps;
    - objects that are shared by reference (the motors, captured by their
      coast timers) live in a heap and are named by their index in it;
    - durations, powers and positions are integers; the Base64 coding of
      messages belongs to the transport and is left out: [_onMessage] takes
      the decoded bytes and [send] hands over the frame itself;
    - [setTimeout] callbacks wait in a queue kept in firing order, and a
      poll tick is a call of [_pollValues]. *)

From Stdlib Require Import ZArith Lia.
From Stdlib Require Import Floats.
From stdpp Require Import base option list strings gmap.

Local Open Scope Z_scope.

(** ** JavaScript primitives used by the source *)

Module JS.

(** [ToInt32]: the operand conversion of the bitwise operators. *)
Definition to_int32 (z : Z) : Z := (z + 2 ^ 31) mod 2 ^ 32 - 2 ^ 31.

(** [a & b] *)
Definition band (a b : Z) : Z := Z.land (to_int32 a) (to_int32 b).

(** [a >> n], the sign-propagating shift; the count is taken modulo 32. *)
Definition shr (a n : Z) : Z := Z.shiftr (to_int32 a) (n mod 32).

(** [a && b] on numbers: [a] when it is falsy (zero), [b] otherwise. *)
Definition and_and (a b : Z) : Z := if a =? 0 then a else b.

(** Arrays. *)
Abbreviation array A := (list (option A)) (only parsing).

(** [a[i]]: [undefined] out of range. *)
Definition get {A} (a : array A) (i : nat) : option A := mjoin (a !! i).

(** [a[i] = v]: in place inside the array, extending it (with holes)
    otherwise. *)
Definition set {A} (i : nat) (v : option A) (a : array A) : array A :=
  if decide (i < length a)%nat then <[i := v]> a
  else a ++ replicate (i - length a)%nat None ++ [v].

(** Truthiness of a cell that holds an object: only [undefined] and
    [null] are falsy. *)
Definition defined {A} (c : option A) : bool :=
  match c with Some _ => true | None => false end.

(** [a.includes(undefined)]: holes count as [undefined]. *)
Definition includes_undefined {A} (a : array A) : bool :=
  existsb (fun c => match c with None => true | Some _ => false end) a.

(** A [Uint8Array] read as a JS array of numbers. *)
Definition of_bytes (data : list Z) : array Z := Some <$> data.

(** [Math.abs], [Math.floor(n / 2)] and [Math.pow(2, p)] on integers. *)
Definition abs (n : Z) : Z := Z.abs n.
Definition floor_half (n : Z) : Z := n / 2.
Definition pow2 (p : nat) : Z := 2 ^ Z.of_nat p.

(** Truthiness of a number: zero, negative zero and NaN are falsy. *)
Definition truthy (v : float) : bool := negb (is_zero v || is_nan v).

(** [Math.round]: the integral number closest to [x], ties towards
    +infinity; non-finite and already integral arguments are returned
    as they are, and a result of zero keeps the sign of [x]. *)
Definition round (x : float) : float :=
  match Prim2SF x with
  | S754_finite s m e =>
      if 0 <=? e then x
      else
        let k := 2 ^ (- e) in
        let num := if s then - Z.pos m else Z.pos m in
        let n := (2 * num + k) / (2 * k) in
        if n =? 0 then (if s then neg_zero else zero)
        else if n <? 0 then SF2Prim (S754_finite true (Z.to_pos (- n)) 0)
        else SF2Prim (S754_finite false (Z.to_pos n) 0)
  | _ => x
  end.

(** [new DataView(new Uint8Array([b0, b1, b2, b3]).buffer).getFloat32(0, true)]:
    the four cells are first stored as bytes ([undefined] becomes 0, a
    number is reduced modulo 256), then read as a little-endian binary32
    and widened to a number. *)
Definition to_uint8 (c : option Z) : Z :=
  match c with Some z => z mod 256 | None => 0 end.

Definition float32_of_bits (bits : Z) : float :=
  let s := Z.testbit bits 31 in
  let e := Z.land (Z.shiftr bits 23) 255 in
  let m := Z.land bits (2 ^ 23 - 1) in
  if e =? 255 then
    if m =? 0 then SF2Prim (S754_infinity s) else nan
  else if e =? 0 then
    if m =? 0 then SF2Prim (S754_zero s)
    else SF2Prim (S754_finite s (Z.to_pos m) (- 149))
  else SF2Prim (S754_finite s (Z.to_pos (2 ^ 23 + m)) (e - 150)).

Definition getFloat32 (b0 b1 b2 b3 : option Z) : float :=
  float32_of_bits
    (to_uint8 b0 + to_uint8 b1 * 2 ^ 8 + to_uint8 b2 * 2 ^ 16 + to_uint8 b3 * 2 ^ 24).

End JS.

(** ** The enum tables of ev3.js *)

Module Ev3Encoding.
Definition ONE_BYTE : Z := 0x81.
Definition TWO_BYTES : Z := 0x82.
Definition FOUR_BYTES : Z := 0x83.
Definition GLOBAL_VARIABLE_ONE_BYTE : Z := 0xE1.
Definition GLOBAL_CONSTANT_INDEX_0 : Z := 0x20.
Definition GLOBAL_VARIABLE_INDEX_0 : Z := 0x60.
End Ev3Encoding.

Module Ev3Command.
Definition DIRECT_COMMAND_REPLY : Z := 0x00.
Definition DIRECT_COMMAND_NO_REPLY : Z := 0x80.
Definition DIRECT_REPLY : Z := 0x02.
End Ev3Command.

Module Ev3Opcode.
Definition OPOUTPUT_STEP_SPEED : Z := 0xAE.
Definition OPOUTPUT_TIME_SPEED : Z := 0xAF.
Definition OPOUTPUT_STOP : Z := 0xA3.
Definition OPOUTPUT_RESET : Z := 0xA2.
Definition OPOUTPUT_STEP_SYNC : Z := 0xB0.
Definition OPOUTPUT_TIME_SYNC : Z := 0xB1.
Definition OPOUTPUT_GET_COUNT : Z := 0xB3.
Definition OPSOUND : Z := 0x94.
Definition OPSOUND_CMD_TONE : Z := 1.
Definition OPSOUND_CMD_STOP : Z := 0.
Definition OPINPUT_DEVICE_LIST : Z := 0x98.
Definition OPINPUT_READSI : Z := 0x9D.
End Ev3Opcode.

Module Ev3Args.
Definition LAYER : Z := 0.
Definition COAST : Z := 0.
Definition BRAKE : Z := 1.
Definition RAMP : Z := 50.
Definition DO_NOT_CHANGE_TYPE : Z := 0.
Definition MAX_DEVICES : Z := 32.
End Ev3Args.

(** Device type numbers to device names. *)
Definition Ev3Device : gmap Z string :=
  list_to_map
    [ (29, "color"); (30, "ultrasonic"); (32, "gyro"); (16, "touch");
      (8, "mediumMotor"); (7, "largeMotor"); (126, "none"); (125, "none") ]%string.

(** Device names to the mode they are read in. *)
Definition Ev3Mode : gmap string Z :=
  list_to_map [ ("touch", 0); ("color", 1); ("ultrasonic", 1); ("none", 0) ]%string.

(** Device names to the label of the reading they feed. *)
Definition Ev3Label : gmap string string :=
  list_to_map
    [ ("touch", "button"); ("color", "brightness"); ("ultrasonic", "distance") ]%string.

(** A maximum number of sends per second, handed to the rate limiter. *)
Definition BTSendRateMax : Z := 40.

(** ** The command frame builder: [EV3.generateCommand] *)

Definition generateCommand (type : Z) (byteCommands : JS.array Z) (allocation : Z)
  : JS.array Z :=
  (* Header (Bytes 0 - 6) *)
  let command := [] in
  let command := JS.set 2 (Some 0) command in
  let command := JS.set 3 (Some 0) command in
  let command := JS.set 4 (Some type) command in
  let command := JS.set 5 (Some (JS.band allocation 0xFF)) command in
  let command := JS.set 6 (Some (JS.and_and (JS.shr allocation 8) 0xFF)) command in
  (* Bytecodes (Bytes 7 - n) *)
  let command := command ++ byteCommands in
  (* Command length minus the first two header bytes *)
  let len := Z.of_nat (length command) - 2 in
  let command := JS.set 0 (Some (JS.band len 0xFF)) command in
  let command := JS.set 1 (Some (JS.and_and (JS.shr len 8) 0xFF)) command in
  command.

(** The length field of a frame: bytes 0 and 1 read little-endian. *)
Definition lenField (frame : JS.array Z) : option Z :=
  lo ← JS.get frame 0; hi ← JS.get frame 1; Some (lo + 256 * hi).

(** ** The motor's byte encoders: [EV3Motor._runValues], [EV3Motor._portMask] *)

Definition _runValues (run : Z) : JS.array Z :=
  if run <? 0x7fff then
    [ Some Ev3Encoding.TWO_BYTES;
      Some (JS.band run 0xff);
      Some (JS.band (JS.shr run 8) 0xff) ]
  else
    [ Some Ev3Encoding.FOUR_BYTES;
      Some (JS.band run 0xff);
      Some (JS.band (JS.shr run 8) 0xff);
      Some (JS.band (JS.shr run 16) 0xff);
      Some (JS.band (JS.shr run 24) 0xff) ].

Definition _portMask (port : nat) : Z := JS.pow2 port.

(** ** Collaborators that are not part of ev3.js *)

(** The rate limiter ([util/rateLimiter.js]) is taken as an interface:
    [okayToSend now l] tells whether a send is allowed at time [now] and
    gives the limiter's next state. *)
Class RateLimiter (L : Type) := okayToSend : Z -> L -> bool * L.

(** Modelled from the spec: the rate limiter of section 4.2
    ([util/rateLimiter.js], outside ev3.js), as one instance of the
    interface to evaluate sends on. A counter bounded by a
    maximum per second over a window that is reset once it has elapsed;
    the send is refused once the count reaches the maximum. *)
Record WindowLimiter := mkWindowLimiter {
  wl_max : Z;
  wl_count : Z;
  wl_start : Z }.

Definition tryAcquire (now : Z) (l : WindowLimiter) : bool * WindowLimiter :=
  let l :=
    if wl_start l + 1000 <=? now
    then {| wl_max := wl_max l; wl_count := 0; wl_start := now |}
    else l in
  if wl_count l <? wl_max l
  then (true, {| wl_max := wl_max l; wl_count := wl_count l + 1; wl_start := wl_start l |})
  else (false, l).

#[export] Instance WindowLimiter_RateLimiter : RateLimiter WindowLimiter := tryAcquire.

(** Modelled from the spec: the Bluetooth transport ([io/bt.js], an external
    collaborator): a connectivity flag and the messages handed to
    [sendMessage], oldest first. *)
Record BT := mkBT {
  bt_connected : bool;
  bt_sent : list (JS.array Z) }.

(** What [send] returns: a promise resolved on the spot, or the promise of
    the transport's [sendMessage]. *)
Inductive Promise := Resolved | TransportPromise.

(** ** The objects *)

(** One [EV3Motor]. [_position] is [None] when it holds NaN. *)
Record EV3Motor := mkEV3Motor {
  _index : nat;
  _type : option string;
  _direction : Z;
  _power : Z;
  _position : option Z;
  _commandID : option nat;
  _coastDelay : Z }.

(** [new EV3Motor(parent, index, type)] *)
Definition new_EV3Motor (index : nat) (type : option string) : EV3Motor :=
  {| _index := index; _type := type; _direction := 1; _power := 50;
     _position := Some 0; _commandID := None; _coastDelay := 1000 |}.

(** [this._sensors] *)
Record Sensors := mkSensors {
  s_distance : float;
  s_brightness : float;
  s_buttons : JS.array float }.

Definition initial_sensors : Sensors :=
  {| s_distance := 0; s_brightness := 0;
     s_buttons := [Some 0; Some 0; Some 0; Some 0]%float |}.

(** The fields of the [EV3] peripheral. [_motors] holds references into the
    heap of motor objects; [_updateDevices] is falsy until the first
    device-list request. *)
Record EV3 (L : Type) := mkEV3 {
  _sensorPorts : JS.array string;
  _motorPorts : JS.array string;
  _sensors : Sensors;
  _motors : JS.array nat;
  _pollingInterval : Z;
  _pollingIntervalID : option nat;
  _pollingCounter : Z;
  _updateDevices : bool;
  _bt : option BT;
  _rateLimiter : L }.

Arguments mkEV3 {L}.
Arguments _sensorPorts {L}.
Arguments _motorPorts {L}.
Arguments _sensors {L}.
Arguments _motors {L}.
Arguments _pollingInterval {L}.
Arguments _pollingIntervalID {L}.
Arguments _pollingCounter {L}.
Arguments _updateDevices {L}.
Arguments _bt {L}.
Arguments _rateLimiter {L}.

(** A pending [setTimeout] callback of [coastAfter]: the motor object and
    the command id it captured, with the time it is due. *)
Record Timer := mkTimer {
  due : Z;
  t_motor : nat;
  t_commandId : nat }.

(** The peripheral with what surrounds it: the heap of motor objects, the
    timer queue (kept in firing order), the clock in milliseconds, the
    interval ids that are live and the counters that numbers come from. *)
Record Runtime (L : Type) := mkRuntime {
  ev3 : EV3 L;
  heap : list EV3Motor;
  timers : list Timer;
  clock : Z;
  uid_next : nat;
  intervals : gset nat;
  interval_next : nat }.

Arguments mkRuntime {L}.
Arguments ev3 {L}.
Arguments heap {L}.
Arguments timers {L}.
Arguments clock {L}.
Arguments uid_next {L}.
Arguments intervals {L}.
Arguments interval_next {L}.

(** ** Field updates *)

Section Updates.
Context {L : Type}.

Definition with_sensorPorts (v : JS.array string) (e : EV3 L) : EV3 L :=
  mkEV3 v (_motorPorts e) (_sensors e) (_motors e) (_pollingInterval e)
    (_pollingIntervalID e) (_pollingCounter e) (_updateDevices e) (_bt e) (_rateLimiter e).

Definition with_motorPorts (v : JS.array string) (e : EV3 L) : EV3 L :=
  mkEV3 (_sensorPorts e) v (_sensors e) (_motors e) (_pollingInterval e)
    (_pollingIntervalID e) (_pollingCounter e) (_updateDevices e) (_bt e) (_rateLimiter e).

Definition with_sensors (v : Sensors) (e : EV3 L) : EV3 L :=
  mkEV3 (_sensorPorts e) (_motorPorts e) v (_motors e) (_pollingInterval e)
    (_pollingIntervalID e) (_pollingCounter e) (_updateDevices e) (_bt e) (_rateLimiter e).

Definition with_motors (v : JS.array nat) (e : EV3 L) : EV3 L :=
  mkEV3 (_sensorPorts e) (_motorPorts e) (_sensors e) v (_pollingInterval e)
    (_pollingIntervalID e) (_pollingCounter e) (_updateDevices e) (_bt e) (_rateLimiter e).

Definition with_pollingIntervalID (v : option nat) (e : EV3 L) : EV3 L :=
  mkEV3 (_sensorPorts e) (_motorPorts e) (_sensors e) (_motors e) (_pollingInterval e)
    v (_pollingCounter e) (_updateDevices e) (_bt e) (_rateLimiter e).

Definition with_pollingCounter (v : Z) (e : EV3 L) : EV3 L :=
  mkEV3 (_sensorPorts e) (_motorPorts e) (_sensors e) (_motors e) (_pollingInterval e)
    (_pollingIntervalID e) v (_updateDevices e) (_bt e) (_rateLimiter e).

Definition with_updateDevices (v : bool) (e : EV3 L) : EV3 L :=
  mkEV3 (_sensorPorts e) (_motorPorts e) (_sensors e) (_motors e) (_pollingInterval e)
    (_pollingIntervalID e) (_pollingCounter e) v (_bt e) (_rateLimiter e).

Definition with_bt (v : option BT) (e : EV3 L) : EV3 L :=
  mkEV3 (_sensorPorts e) (_motorPorts e) (_sensors e) (_motors e) (_pollingInterval e)
    (_pollingIntervalID e) (_pollingCounter e) (_updateDevices e) v (_rateLimiter e).

Definition with_rateLimiter (v : L) (e : EV3 L) : EV3 L :=
  mkEV3 (_sensorPorts e) (_motorPorts e) (_sensors e) (_motors e) (_pollingInterval e)
    (_pollingIntervalID e) (_pollingCounter e) (_updateDevices e) (_bt e) v.

Definition with_ev3 (v : EV3 L) (w : Runtime L) : Runtime L :=
  mkRuntime v (heap w) (timers w) (clock w) (uid_next w) (intervals w) (interval_next w).

Definition with_heap (v : list EV3Motor) (w : Runtime L) : Runtime L :=
  mkRuntime (ev3 w) v (timers w) (clock w) (uid_next w) (intervals w) (interval_next w).

Definition with_timers (v : list Timer) (w : Runtime L) : Runtime L :=
  mkRuntime (ev3 w) (heap w) v (clock w) (uid_next w) (intervals w) (interval_next w).

Definition with_clock (v : Z) (w : Runtime L) : Runtime L :=
  mkRuntime (ev3 w) (heap w) (timers w) v (uid_next w) (intervals w) (interval_next w).

Definition with_uid_next (v : nat) (w : Runtime L) : Runtime L :=
  mkRuntime (ev3 w) (heap w) (timers w) (clock w) v (intervals w) (interval_next w).

Definition with_intervals (v : gset nat) (n : nat) (w : Runtime L) : Runtime L :=
  mkRuntime (ev3 w) (heap w) (timers w) (clock w) (uid_next w) v n.

End Updates.

Definition with_direction (v : Z) (m : EV3Motor) : EV3Motor :=
  mkEV3Motor (_index m) (_type m) v (_power m) (_position m) (_commandID m) (_coastDelay m).

Definition with_power (v : Z) (m : EV3Motor) : EV3Motor :=
  mkEV3Motor (_index m) (_type m) (_direction m) v (_position m) (_commandID m) (_coastDelay m).

Definition with_position (v : option Z) (m : EV3Motor) : EV3Motor :=
  mkEV3Motor (_index m) (_type m) (_direction m) (_power m) v (_commandID m) (_coastDelay m).

Definition with_commandID (v : option nat) (m : EV3Motor) : EV3Motor :=
  mkEV3Motor (_index m) (_type m) (_direction m) (_power m) (_position m) v (_coastDelay m).

Definition with_s_distance (v : float) (s : Sensors) : Sensors :=
  mkSensors v (s_brightness s) (s_buttons s).

Definition with_s_brightness (v : float) (s : Sensors) : Sensors :=
  mkSensors (s_distance s) v (s_buttons s).

Definition with_s_buttons (v : JS.array float) (s : Sensors) : Sensors :=
  mkSensors (s_distance s) (s_brightness s) v.

(** ** Window services: unique ids, timers, intervals *)

Section Window.
Context {L : Type}.

(** Modelled from the spec: [uid()] ([util/uid.js], outside ev3.js), any
    generator of tokens that never repeats; here a counter. *)
Definition uid (w : Runtime L) : nat * Runtime L :=
  (uid_next w, with_uid_next (S (uid_next w)) w).

(** The timer queue is kept in firing order: by due time, and by
    registration among timers due at the same time. *)
Fixpoint enqueue (t : Timer) (q : list Timer) : list Timer :=
  match q with
  | [] => [t]
  | u :: q' => if due t <? due u then t :: q else u :: enqueue t q'
  end.

(** [setTimeout(callback, delay)]: a negative delay counts as 0. *)
Definition setTimeout (r commandId : nat) (delay : Z) (w : Runtime L) : Runtime L :=
  with_timers
    (enqueue {| due := clock w + Z.max 0 delay; t_motor := r; t_commandId := commandId |}
             (timers w)) w.

(** [window.setInterval(this._pollValues, ...)] gives a fresh non-zero id. *)
Definition setInterval (w : Runtime L) : nat * Runtime L :=
  let id := S (interval_next w) in
  (id, with_intervals ({[ id ]} ∪ intervals w) id w).

(** [window.clearInterval(id)] *)
Definition clearInterval (id : option nat) (w : Runtime L) : Runtime L :=
  match id with
  | Some i => with_intervals (intervals w ∖ {[ i ]}) (interval_next w) w
  | None => w
  end.

End Window.

(** ** The send entry point and the motor class *)

Section Device.
Context {L : Type} `{!RateLimiter L}.

(** [EV3.isConnected] *)
Definition isConnected (w : Runtime L) : bool :=
  let connected := false in
  match _bt (ev3 w) with
  | Some bt => bt_connected bt
  | None => connected
  end.

(** [this._bt.sendMessage(...)]: the transport takes the message. *)
Definition sendMessage (message : JS.array Z) (w : Runtime L) : Promise * Runtime L :=
  match _bt (ev3 w) with
  | Some bt =>
      (TransportPromise,
       with_ev3 (with_bt (Some {| bt_connected := bt_connected bt;
                                  bt_sent := bt_sent bt ++ [message] |}) (ev3 w)) w)
  | None => (TransportPromise, w)
  end.

(** [EV3.send] *)
Definition send (message : JS.array Z) (useLimiter : bool) (w : Runtime L)
  : Promise * Runtime L :=
  if negb (isConnected w) then (Resolved, w)
  else if useLimiter then
    let '(okay, l) := okayToSend (clock w) (_rateLimiter (ev3 w)) in
    let w := with_ev3 (with_rateLimiter l (ev3 w)) w in
    if negb okay then (Resolved, w)
    else sendMessage message w
  else sendMessage message w.

(** [EV3Motor.direction] and [EV3Motor.power] setters *)
Definition set_direction (value : Z) (this : EV3Motor) : EV3Motor :=
  if value <? 0 then with_direction (-1) this else with_direction 1 this.

Definition set_power (value : Z) (this : EV3Motor) : EV3Motor :=
  with_power value this.

(** The value computed by the [EV3Motor.position] setter from the four
    cells of its argument; an [undefined] cell makes the sum NaN, which
    no comparison changes. *)
Definition position_value (array : JS.array Z) : option Z :=
  a0 ← JS.get array 0;
  a1 ← JS.get array 1;
  a2 ← JS.get array 2;
  a3 ← JS.get array 3;
  let value := a0 + (a1 * 256) + (a2 * 256 * 256) + (a3 * 256 * 256 * 256) in
  let value := if value >? 0x7fffffff then value - 0x100000000 else value in
  Some value.

(** [EV3Motor.position] setter *)
Definition set_position (array : JS.array Z) (this : EV3Motor) : EV3Motor :=
  with_position (position_value array) this.

(** The direction byte and the three phase lengths of [EV3Motor.turnOnFor]:
    [(dir, rampup, run, rampdown)]. *)
Definition turnOnFor_phases (power direction milliseconds : Z) : Z * Z * Z * Z :=
  let n := milliseconds in
  let speed := power * direction in
  let ramp := Ev3Args.RAMP in
  let '(speed, n) := if speed <? 0 then (-1 * speed, -1 * n) else (speed, n) in
  let dir := if n <? 0 then 0x100 - speed else speed in
  let n := JS.abs n in
  let rampup := ramp in
  let rampdown := ramp in
  let run := n - (ramp * 2) in
  if run <? 0 then
    let rampup := JS.floor_half n in
    let run := 0 in
    let rampdown := n - rampup in
    (dir, rampup, run, rampdown)
  else (dir, rampup, run, rampdown).

(** The byte command of [EV3Motor.turnOnFor]. *)
Definition turnOnFor_bytes (this : EV3Motor) (milliseconds : Z) : JS.array Z :=
  let port := _portMask (_index this) in
  let byteCommand := [Some Ev3Opcode.OPOUTPUT_TIME_SPEED] in
  let '(dir, rampup, run, rampdown) :=
    turnOnFor_phases (_power this) (_direction this) milliseconds in
  let runcmd := _runValues run in
  (byteCommand ++
     [ Some Ev3Args.LAYER;
       Some port;
       Some Ev3Encoding.ONE_BYTE;
       Some (JS.band dir 0xff);
       Some Ev3Encoding.ONE_BYTE;
       Some rampup ]) ++
  (runcmd ++
     [ Some Ev3Encoding.ONE_BYTE;
       Some rampdown;
       Some Ev3Args.BRAKE ]).

(** [EV3Motor.coastAfter], on the motor object at reference [r]. *)
Definition coastAfter (r : nat) (time : Z) (w : Runtime L) : Runtime L :=
  match heap w !! r with
  | None => w
  | Some this =>
      if _power this =? 0 then w
      else
        let '(commandId, w) := uid w in
        let w := with_heap (<[r := with_commandID (Some commandId) this]> (heap w)) w in
        setTimeout r commandId (time + _coastDelay this) w
  end.

(** The frame sent by [EV3Motor.coast]. *)
Definition coast_frame (this : EV3Motor) : JS.array Z :=
  generateCommand Ev3Command.DIRECT_COMMAND_NO_REPLY
    [ Some Ev3Opcode.OPOUTPUT_STOP;
      Some Ev3Args.LAYER;
      Some (_portMask (_index this));
      Some Ev3Args.COAST ] 0.

(** [EV3Motor.coast] *)
Definition coast (r : nat) (w : Runtime L) : Runtime L :=
  match heap w !! r with
  | None => w
  | Some this =>
      if _power this =? 0 then w
      else (send (coast_frame this) false w).2
  end.

(** [EV3Motor.turnOnFor] *)
Definition turnOnFor (r : nat) (milliseconds : Z) (w : Runtime L) : Runtime L :=
  match heap w !! r with
  | None => w
  | Some this =>
      if _power this =? 0 then w
      else
        let cmd :=
          generateCommand Ev3Command.DIRECT_COMMAND_NO_REPLY
            (turnOnFor_bytes this milliseconds) 0 in
        let w := (send cmd true w).2 in
        coastAfter r milliseconds w
  end.

(** The callback that [coastAfter] hands to [setTimeout]. *)
Definition coast_callback (r commandId : nat) (w : Runtime L) : Runtime L :=
  match heap w !! r with
  | None => w
  | Some this =>
      if bool_decide (_commandID this = Some commandId) then
        let w := coast r w in
        with_heap (alter (with_commandID None) r (heap w)) w
      else w
  end.

(** The next timer fires: the clock reaches its due time and its callback
    runs. *)
Definition fire_next (w : Runtime L) : Runtime L :=
  match timers w with
  | [] => w
  | t :: q =>
      coast_callback (t_motor t) (t_commandId t)
        (with_clock (Z.max (clock w) (due t)) (with_timers q w))
  end.

(** [n] timers fire one after the other. *)
Fixpoint run_timers (n : nat) (w : Runtime L) : Runtime L :=
  match n with
  | O => w
  | S n => run_timers n (fire_next w)
  end.

End Device.

(** ** The peripheral class *)

Section Session.
Context {L : Type} `{!RateLimiter L}.

(** [new EV3(...)]; [l] is [new RateLimiter(BTSendRateMax)]. *)
Definition new_EV3 (l : L) : EV3 L :=
  {| _sensorPorts := [];
     _motorPorts := [];
     _sensors := initial_sensors;
     _motors := [None; None; None; None];
     _pollingInterval := 150;
     _pollingIntervalID := None;
     _pollingCounter := 0;
     _updateDevices := false;
     _bt := None;
     _rateLimiter := l |}.

Definition initial (l : L) : Runtime L :=
  {| ev3 := new_EV3 l; heap := []; timers := []; clock := 0; uid_next := 0;
     intervals := ∅; interval_next := 0 |}.

(** [get distance ()] *)
Definition distance (e : EV3 L) : float :=
  let value :=
    if (100 <? s_distance (_sensors e))%float then 100%float
    else s_distance (_sensors e) in
  let value := if (value <? 0)%float then 0%float else value in
  let value := (JS.round (100 * value) / 100)%float in
  value.

(** [get brightness ()] *)
Definition brightness (e : EV3 L) : float := s_brightness (_sensors e).

(** [EV3.motor] *)
Definition motor (e : EV3 L) (index : nat) : option nat := JS.get (_motors e) index.

(** [EV3.isButtonPressed] *)
Definition isButtonPressed (e : EV3 L) (port : nat) : bool :=
  match JS.get (s_buttons (_sensors e)) port with
  | Some v => (v =? 1)%float
  | None => false
  end.

(** [EV3.beep] *)
Definition beep (freq time : Z) (w : Runtime L) : Runtime L :=
  let cmd :=
    generateCommand Ev3Command.DIRECT_COMMAND_NO_REPLY
      [ Some Ev3Opcode.OPSOUND;
        Some Ev3Opcode.OPSOUND_CMD_TONE;
        Some Ev3Encoding.ONE_BYTE;
        Some 2;
        Some Ev3Encoding.TWO_BYTES;
        Some freq;
        Some (JS.shr freq 8);
        Some Ev3Encoding.TWO_BYTES;
        Some time;
        Some (JS.shr time 8) ] 0 in
  (send cmd true w).2.

(** [EV3.stopSound] *)
Definition stopSound (w : Runtime L) : Runtime L :=
  let cmd :=
    generateCommand Ev3Command.DIRECT_COMMAND_NO_REPLY
      [ Some Ev3Opcode.OPSOUND; Some Ev3Opcode.OPSOUND_CMD_STOP ] 0 in
  (send cmd false w).2.

(** [EV3.stopAllMotors] *)
Definition stopAllMotors (w : Runtime L) : Runtime L :=
  foldl (fun w motor => match motor with Some r => coast r w | None => w end)
        w (_motors (ev3 w)).

(** [EV3.stopAll] *)
Definition stopAll (w : Runtime L) : Runtime L := stopSound (stopAllMotors w).

(** [EV3.scan]: a new transport object, not connected yet. *)
Definition scan (w : Runtime L) : Runtime L :=
  with_ev3 (with_bt (Some {| bt_connected := false; bt_sent := [] |}) (ev3 w)) w.

(** [EV3.reset] *)
Definition reset (w : Runtime L) : Runtime L :=
  let e := ev3 w in
  let e := with_sensorPorts [] e in
  let e := with_motorPorts [] e in
  let e := with_sensors initial_sensors e in
  let e := with_motors [None; None; None; None] e in
  let w := with_ev3 e w in
  match _pollingIntervalID e with
  | Some (S i) =>
      let w := clearInterval (Some (S i)) w in
      with_ev3 (with_pollingIntervalID None (ev3 w)) w
  | _ => w
  end.

(** [EV3.disconnect]: the transport, if any, is told to disconnect. *)
Definition disconnect (w : Runtime L) : Runtime L :=
  let w :=
    match _bt (ev3 w) with
    | Some bt =>
        with_ev3 (with_bt (Some {| bt_connected := false; bt_sent := bt_sent bt |})
                          (ev3 w)) w
    | None => w
    end in
  reset w.

(** [EV3._onConnect] *)
Definition _onConnect (w : Runtime L) : Runtime L :=
  let '(id, w) := setInterval w in
  with_ev3 (with_pollingIntervalID (Some id) (ev3 w)) w.

(** One turn of the first loop of the value branch of [_pollValues]: the
    read request of sensor port [i], on [(cmds, index, sensorCount)]. *)
Definition poll_sensor_step (ports : JS.array string)
    (st : JS.array Z * nat * Z) (i : nat) : JS.array Z * nat * Z :=
  let '(cmds, index, sensorCount) := st in
  let '(cmds, index) :=
    if bool_decide (JS.get ports i ≠ Some "none"%string) then
      let cmds := JS.set (index + 0) (Some Ev3Opcode.OPINPUT_READSI) cmds in
      let cmds := JS.set (index + 1) (Some Ev3Args.LAYER) cmds in
      let cmds := JS.set (index + 2) (Some (Z.of_nat i)) cmds in
      let cmds := JS.set (index + 3) (Some Ev3Args.DO_NOT_CHANGE_TYPE) cmds in
      let cmds := JS.set (index + 4) (JS.get ports i ≫= (Ev3Mode !!.)) cmds in
      let cmds := JS.set (index + 5) (Some Ev3Encoding.GLOBAL_VARIABLE_ONE_BYTE) cmds in
      let cmds := JS.set (index + 6) (Some (sensorCount * 4)) cmds in
      (cmds, (index + 7)%nat)
    else (cmds, index) in
  (cmds, index, sensorCount + 1).

(** One turn of the second loop: the position request of motor port [i]. *)
Definition poll_motor_step (st : JS.array Z * nat * Z) (i : nat)
  : JS.array Z * nat * Z :=
  let '(cmds, index, sensorCount) := st in
  let cmds := JS.set (index + 0) (Some Ev3Opcode.OPOUTPUT_GET_COUNT) cmds in
  let cmds := JS.set (index + 1) (Some Ev3Args.LAYER) cmds in
  let cmds := JS.set (index + 2) (Some (Z.of_nat i)) cmds in
  let cmds := JS.set (index + 3) (Some Ev3Encoding.GLOBAL_VARIABLE_ONE_BYTE) cmds in
  let cmds := JS.set (index + 4) (Some (sensorCount * 4)) cmds in
  (cmds, (index + 5)%nat, sensorCount + 1).

(** The compound command and the allocation that [_pollValues] hands to
    [generateCommand], with the peripheral after the branch. *)
Definition poll_request (e : EV3 L) : JS.array Z * Z * EV3 L :=
  let cmds := [] in
  let allocation := 0 in
  let sensorCount := 0 in
  if Z.rem (_pollingCounter e) 20 =? 0 then
    let cmds := JS.set 0 (Some Ev3Opcode.OPINPUT_DEVICE_LIST) cmds in
    let cmds := JS.set 1 (Some Ev3Encoding.ONE_BYTE) cmds in
    let cmds := JS.set 2 (Some Ev3Args.MAX_DEVICES) cmds in
    let cmds := JS.set 3 (Some Ev3Encoding.GLOBAL_VARIABLE_INDEX_0) cmds in
    let cmds := JS.set 4 (Some Ev3Encoding.GLOBAL_VARIABLE_ONE_BYTE) cmds in
    let cmds := JS.set 5 (Some Ev3Encoding.GLOBAL_CONSTANT_INDEX_0) cmds in
    let allocation := 33 in
    (cmds, allocation, with_updateDevices true e)
  else
    let index := 0%nat in
    let '(cmds, index, sensorCount) :=
      foldl (poll_sensor_step (_sensorPorts e)) (cmds, index, sensorCount) (seq 0 4) in
    let '(cmds, index, sensorCount) :=
      foldl poll_motor_step (cmds, index, sensorCount) (seq 0 4) in
    let allocation := sensorCount * 4 in
    (cmds, allocation, e).

(** [EV3._pollValues] *)
Definition _pollValues (w : Runtime L) : Runtime L :=
  if negb (isConnected w) then clearInterval (_pollingIntervalID (ev3 w)) w
  else
    let '(cmds, allocation, e) := poll_request (ev3 w) in
    let w := with_ev3 e w in
    let cmd := generateCommand Ev3Command.DIRECT_COMMAND_REPLY cmds allocation in
    let w := (send cmd true w).2 in
    with_ev3 (with_pollingCounter (_pollingCounter (ev3 w) + 1) (ev3 w)) w.

End Session.

(** ** The reply dispatcher: [EV3._onMessage] *)

Section Dispatch.
Context {L : Type}.

(** [deviceType ? deviceType : 'none'] for [deviceType = Ev3Device[code]] *)
Definition device_or_none (code : option Z) : string :=
  match code ≫= (Ev3Device !!.) with
  | Some deviceType => if String.eqb deviceType "" then "none" else deviceType
  | None => "none"
  end.

(** First loop of the device-list branch, port [i]. *)
Definition sensor_port_step (data : JS.array Z) (e : EV3 L) (i : nat) : EV3 L :=
  with_sensorPorts
    (JS.set i (Some (device_or_none (JS.get data (i + 5)))) (_sensorPorts e)) e.

(** Second loop of the device-list branch, port [i]. *)
Definition motor_port_step (data : JS.array Z) (e : EV3 L) (i : nat) : EV3 L :=
  with_motorPorts
    (JS.set i (Some (device_or_none (JS.get data (i + 21)))) (_motorPorts e)) e.

(** Third loop of the device-list branch, port [m]: a motor object is
    created and referenced, or the reference is cleared. *)
Definition motor_object_step (w : Runtime L) (m : nat) : Runtime L :=
  let type := JS.get (_motorPorts (ev3 w)) m in
  let w :=
    if bool_decide (type ≠ Some "none"%string)
       && negb (JS.defined (JS.get (_motors (ev3 w)) m))
    then
      let r := length (heap w) in
      let w := with_heap (heap w ++ [new_EV3Motor m type]) w in
      with_ev3 (with_motors (JS.set m (Some r) (_motors (ev3 w))) (ev3 w)) w
    else w in
  if bool_decide (type = Some "none"%string)
     && JS.defined (JS.get (_motors (ev3 w)) m)
  then with_ev3 (with_motors (JS.set m None (_motors (ev3 w))) (ev3 w)) w
  else w.

(** [this._sensors[label] = v] for the labels of [Ev3Label] other than
    the button's. *)
Definition set_reading (label : string) (v : float) (s : Sensors) : Sensors :=
  if String.eqb label "distance" then with_s_distance v s
  else if String.eqb label "brightness" then with_s_brightness v s
  else s.

(** First loop of the value branch, port [i], on the peripheral and the
    read offset. *)
Definition sensor_value_step (data : JS.array Z) (st : EV3 L * nat) (i : nat)
  : EV3 L * nat :=
  let '(e, offset) := st in
  let value :=
    JS.getFloat32 (JS.get data offset) (JS.get data (offset + 1))
                  (JS.get data (offset + 2)) (JS.get data (offset + 3)) in
  let label := JS.get (_sensorPorts e) i ≫= (Ev3Label !!.) in
  let v := if JS.truthy value then value else 0%float in
  let e :=
    if bool_decide (label = Some "button"%string) then
      with_sensors (with_s_buttons (JS.set i (Some v) (s_buttons (_sensors e)))
                                   (_sensors e)) e
    else
      match label with
      | Some l =>
          if String.eqb l "" then e
          else with_sensors (set_reading l v (_sensors e)) e
      | None => e
      end in
  (e, (offset + 4)%nat).

(** Second loop of the value branch, port [i]. *)
Definition motor_position_step (data : JS.array Z) (st : Runtime L * nat) (i : nat)
  : Runtime L * nat :=
  let '(w, offset) := st in
  let positionArray :=
    [ JS.get data offset; JS.get data (offset + 1);
      JS.get data (offset + 2); JS.get data (offset + 3) ] in
  let w :=
    match JS.get (_motors (ev3 w)) i with
    | Some r => with_heap (alter (set_position positionArray) r (heap w)) w
    | None => w
    end in
  (w, (offset + 4)%nat).

(** The device-list branch of [_onMessage]: PARSE DEVICE LIST. *)
Definition parse_device_list (data : JS.array Z) (w : Runtime L) : Runtime L :=
  let e := foldl (sensor_port_step data) (ev3 w) (seq 0 4) in
  let e := foldl (motor_port_step data) e (seq 0 4) in
  let w := foldl motor_object_step (with_ev3 e w) (seq 0 4) in
  with_ev3 (with_updateDevices false (ev3 w)) w.

(** The value branch of [_onMessage]: PARSE SENSOR VALUES, then PARSE
    MOTOR POSITION VALUES, EVEN IF NO MOTOR PRESENT. *)
Definition parse_values (data : JS.array Z) (w : Runtime L) : Runtime L :=
  let offset := 5%nat in
  let '(e, offset) := foldl (sensor_value_step data) (ev3 w, offset) (seq 0 4) in
  let '(w, offset) := foldl (motor_position_step data) (with_ev3 e w, offset) (seq 0 4) in
  w.

(** [EV3._onMessage], on the bytes decoded from [params.message]. *)
Definition _onMessage (bytes : list Z) (w : Runtime L) : Runtime L :=
  let data := JS.of_bytes bytes in
  if bool_decide (JS.get data 4 ≠ Some Ev3Command.DIRECT_REPLY) then w
  else if _updateDevices (ev3 w) then parse_device_list data w
  else if negb (JS.includes_undefined (_sensorPorts (ev3 w)))
          && negb (JS.includes_undefined (_motorPorts (ev3 w)))
  then parse_values data w
  else w.

(** The device type that a device-list reply reports for motor port [m]. *)
Definition reported_motor_type (bytes : list Z) (m : nat) : string :=
  device_or_none (JS.get (JS.of_bytes bytes) (m + 21)).

End Dispatch.

(** ** Executions *)

Section Executions.
Context {L : Type} `{!RateLimiter L}.

(** What can happen to the peripheral: the host calls a method, the
    transport connects, drops or delivers a reply, a timer fires, time
    passes (not beyond the next due timer). *)
Inductive step : Runtime L -> Runtime L -> Prop :=
| step_scan w : step w (scan w)
| step_link w bt b :
    _bt (ev3 w) = Some bt ->
    step w (with_ev3 (with_bt (Some {| bt_connected := b; bt_sent := bt_sent bt |})
                              (ev3 w)) w)
| step_onConnect w : step w (_onConnect w)
| step_poll w : step w (_pollValues w)
| step_message w bytes : step w (_onMessage bytes w)
| step_reset w : step w (reset w)
| step_disconnect w : step w (disconnect w)
| step_beep w freq time : step w (beep freq time w)
| step_stopAll w : step w (stopAll w)
| step_direction w r v : step w (with_heap (alter (set_direction v) r (heap w)) w)
| step_power w r v : step w (with_heap (alter (set_power v) r (heap w)) w)
| step_turnOnFor w r ms : step w (turnOnFor r ms w)
| step_coast w r : step w (coast r w)
| step_timer w : step w (fire_next w)
| step_elapse w t :
    clock w <= t -> (forall u, head (timers w) = Some u -> t <= due u) ->
    step w (with_clock t w).

(** The states of the executions that start from a new peripheral. *)
Definition reachable (w : Runtime L) : Prop :=
  exists l, rtc step (initial l) w.

End Executions.

(** * Vocabulary of the properties *)

(** ** Operands *)

Definition is_two_byte_operand (operand : JS.array Z) (run : Z) : Prop :=
  operand = [Some Ev3Encoding.TWO_BYTES; Some (run mod 256); Some (run / 256)]
  /\ run / 256 < 256.

Definition is_four_byte_operand (operand : JS.array Z) (run : Z) : Prop :=
  operand = [Some Ev3Encoding.FOUR_BYTES;
             Some (run mod 256);
             Some (run / 2 ^ 8 mod 256);
             Some (run / 2 ^ 16 mod 256);
             Some (run / 2 ^ 24 mod 256)].

(** ** Observations on states *)

Section Observations.
Context {L : Type}.
Implicit Types (w : Runtime L) (e : EV3 L).

(** The sensor ports that a value poll asks for: those whose entry is not
    ['none']. *)
Definition queried_sensors (e : EV3 L) : nat :=
  length (List.filter (fun i => bool_decide (JS.get (_sensorPorts e) i ≠ Some "none"%string))
                      (seq 0 4)).

(** The opcodes of a value poll: one per queried sensor and four position
    reads. *)
Definition opcodes_issued (e : EV3 L) : Z := Z.of_nat (queried_sensors e) + 4.

(** The messages that the transport has taken. *)
Definition sent_log w : list (JS.array Z) :=
  match _bt (ev3 w) with
  | Some bt => bt_sent bt
  | None => []
  end.

(** The peripheral with [raw] as its stored distance. *)
Definition with_raw_distance (raw : float) (e : EV3 L) : EV3 L :=
  with_sensors (with_s_distance raw (_sensors e)) e.

(** The stored distance after the clamping of the accessor. *)
Definition clamped_distance (raw : float) : float :=
  (if 100 <? raw then 100 else if raw <? 0 then 0 else raw)%float.

(** No motor is referenced while the motor port table is empty. *)
Definition no_motor_before_discovery w : Prop :=
  _motorPorts (ev3 w) = [] -> forall i, JS.get (_motors (ev3 w)) i = None.

(** The motor port table and the motor references are the same in both. *)
Definition same_motor_tables w w' : Prop :=
  _motorPorts (ev3 w') = _motorPorts (ev3 w) /\ _motors (ev3 w') = _motors (ev3 w).

(** What one turn of the motor loop keeps and what it decides. *)
Record motor_step_kept w w' : Prop := {
  kept_motorPorts : _motorPorts (ev3 w') = _motorPorts (ev3 w);
  kept_sensors : _sensors (ev3 w') = _sensors (ev3 w);
  kept_heap : heap w `prefix_of` heap w' }.

End Observations.

(** ** Sample states *)

(** A limiter and a peripheral to evaluate the definitions on. *)
Definition limiter40 : WindowLimiter :=
  {| wl_max := BTSendRateMax; wl_count := 0; wl_start := 0 |}.

Definition linked (connected : bool) (w : Runtime WindowLimiter) : Runtime WindowLimiter :=
  with_ev3 (with_bt (Some {| bt_connected := connected; bt_sent := [] |}) (ev3 w)) w.

(** A peripheral with a touch sensor on port 1 and nothing on the others,
    on the cycle after a device-list poll. *)
Definition touch_only : EV3 WindowLimiter :=
  with_pollingCounter 1
    (with_sensorPorts [Some "touch"; Some "none"; Some "none"; Some "none"]%string
       (new_EV3 limiter40)).

(** A device-list reply: the header with the success tag, the types of the
    four sensor ports in bytes 5 to 8, padding, and the types of the four
    motor ports in bytes 21 to 24. *)
Definition device_list_reply (sensors motors : list Z) : list Z :=
  [0; 0; 0; 0; Ev3Command.DIRECT_REPLY] ++ sensors ++ replicate 12 126 ++ motors.

(** A peripheral that has asked for the device list. *)
Definition awaiting_devices : Runtime WindowLimiter :=
  with_ev3 (with_updateDevices true (new_EV3 limiter40)) (initial limiter40).

(** A connected peripheral with a large motor on port A: the motor object
    is at reference 0, with the power 50 it is created with. *)
Definition one_motor : Runtime WindowLimiter :=
  linked true
    (_onMessage (device_list_reply [126; 126; 126; 126] [7; 126; 126; 126]) awaiting_devices).

(** * Vocabulary of the further properties *)

(** ** Frames *)

(** The allocation field of a frame: bytes 5 and 6 read little-endian. *)
Definition allocField (frame : JS.array Z) : option Z :=
  lo ← JS.get frame 5; hi ← JS.get frame 6; Some (lo + 256 * hi).

(** A frame whose length field is the frame length minus 2. *)
Definition length_field_ok (frame : JS.array Z) : Prop :=
  lenField frame = Some (Z.of_nat (length frame) - 2).

(** ** Operands read back *)

(** The value of a run length operand: the tag, then two or four
    little-endian bytes. *)
Definition operand_value (operand : JS.array Z) : option Z :=
  match operand with
  | [Some tag; Some b0; Some b1] =>
      if tag =? Ev3Encoding.TWO_BYTES then Some (b0 + 2 ^ 8 * b1) else None
  | [Some tag; Some b0; Some b1; Some b2; Some b3] =>
      if tag =? Ev3Encoding.FOUR_BYTES
      then Some (b0 + 2 ^ 8 * b1 + 2 ^ 16 * b2 + 2 ^ 24 * b3) else None
  | _ => None
  end.

(** The frame that [turnOnFor] builds for a motor. *)
Definition turnOnFor_frame (this : EV3Motor) (milliseconds : Z) : JS.array Z :=
  generateCommand Ev3Command.DIRECT_COMMAND_NO_REPLY (turnOnFor_bytes this milliseconds) 0.

(** ** Frames of the stop commands *)

(** The frame sent by [stopSound]. *)
Definition stopSound_frame : JS.array Z :=
  generateCommand Ev3Command.DIRECT_COMMAND_NO_REPLY
    [ Some Ev3Opcode.OPSOUND; Some Ev3Opcode.OPSOUND_CMD_STOP ] 0.

(** The coast frames that [stopAllMotors] sends for a list of motor cells:
    one for each motor object with power, in the order of the cells. *)
Definition coast_frames (heap : list EV3Motor) (cells : JS.array nat) : list (JS.array Z) :=
  flat_map
    (fun cell =>
       match cell with
       | Some r =>
           match heap !! r with
           | Some this => if _power this =? 0 then [] else [coast_frame this]
           | None => []
           end
       | None => []
       end) cells.

(** A motor with the power set to 0, and a peripheral that holds it. *)
Definition powerless : Runtime WindowLimiter :=
  with_heap (alter (set_power 0) 0%nat (heap one_motor)) one_motor.

(** ** Poll requests, declaratively *)

(** The request for the reading of sensor port [i]: the reading goes to
    the global variable at index [4 * i]. *)
Definition sensor_group (ports : JS.array string) (i : nat) : JS.array Z :=
  [ Some Ev3Opcode.OPINPUT_READSI; Some Ev3Args.LAYER; Some (Z.of_nat i);
    Some Ev3Args.DO_NOT_CHANGE_TYPE; JS.get ports i ≫= (Ev3Mode !!.);
    Some Ev3Encoding.GLOBAL_VARIABLE_ONE_BYTE; Some (4 * Z.of_nat i) ].

(** The request for the position of motor port [i]: the position goes to
    the global variable at index [16 + 4 * i]. *)
Definition motor_group (i : nat) : JS.array Z :=
  [ Some Ev3Opcode.OPOUTPUT_GET_COUNT; Some Ev3Args.LAYER; Some (Z.of_nat i);
    Some Ev3Encoding.GLOBAL_VARIABLE_ONE_BYTE; Some (16 + 4 * Z.of_nat i) ].

(** The sensor ports whose entry is not ['none'], in order. *)
Definition queried_ports (ports : JS.array string) : list nat :=
  List.filter (fun i => bool_decide (JS.get ports i ≠ Some "none"%string)) (seq 0 4).

(** The request for the device list. *)
Definition device_list_cmds : JS.array Z :=
  [ Some Ev3Opcode.OPINPUT_DEVICE_LIST; Some Ev3Encoding.ONE_BYTE;
    Some Ev3Args.MAX_DEVICES; Some Ev3Encoding.GLOBAL_VARIABLE_INDEX_0;
    Some Ev3Encoding.GLOBAL_VARIABLE_ONE_BYTE; Some Ev3Encoding.GLOBAL_CONSTANT_INDEX_0 ].

(** The frame that a poll tick builds. *)
Definition poll_frame {L} (e : EV3 L) : JS.array Z :=
  generateCommand Ev3Command.DIRECT_COMMAND_REPLY (poll_request e).1.1 (poll_request e).1.2.

(** ** Replies, declaratively *)

(** The number that the value branch stores for the four reply bytes at
    [offset]: their binary32 reading, or 0 when that is falsy. *)
Definition reading_at (data : JS.array Z) (offset : nat) : float :=
  let value :=
    JS.getFloat32 (JS.get data offset) (JS.get data (offset + 1))
                  (JS.get data (offset + 2)) (JS.get data (offset + 3)) in
  if JS.truthy value then value else 0%float.

(** The four reply cells at [offset], as the position setter gets them. *)
Definition cells_at (data : JS.array Z) (offset : nat) : JS.array Z :=
  [ JS.get data offset; JS.get data (offset + 1);
    JS.get data (offset + 2); JS.get data (offset + 3) ].

(** The slot of sensor port [i] in a value reply starts at byte [5 + 4 i],
    the slot of motor port [i] at byte [21 + 4 i]. *)
Definition reply_reading (bytes : list Z) (i : nat) : float :=
  reading_at (JS.of_bytes bytes) (5 + 4 * i).

Definition reply_position (bytes : list Z) (i : nat) : option Z :=
  position_value (cells_at (JS.of_bytes bytes) (21 + 4 * i)).

(** [Ev3Label[this._sensorPorts[i]]] *)
Definition port_label {L} (e : EV3 L) (i : nat) : option string :=
  JS.get (_sensorPorts e) i ≫= (Ev3Label !!.).

(** The aggregate reading stored under a label. *)
Definition stored_reading (label : string) (s : Sensors) : float :=
  if String.eqb label "distance" then s_distance s else s_brightness s.

(** A success-tagged reply that [_onMessage] takes as a value reply and
    reads: no device list is awaited and no port entry is undefined. *)
Definition read_as_values {L} (w : Runtime L) (bytes : list Z) : Prop :=
  bytes !! 4%nat = Some Ev3Command.DIRECT_REPLY
  /\ _updateDevices (ev3 w) = false
  /\ JS.includes_undefined (_sensorPorts (ev3 w)) = false
  /\ JS.includes_undefined (_motorPorts (ev3 w)) = false.

(** A peripheral after discovery: a touch sensor on port 1, an ultrasonic
    sensor on ports 2 and 4, a colour sensor on port 3 and a large motor on
    port A. *)
Definition discovered : Runtime WindowLimiter :=
  _onMessage (device_list_reply [16; 30; 29; 30] [7; 126; 126; 126]) awaiting_devices.

(** A value reply: the header, then the readings 1, 10, 20 and 30 and the
    positions -2, 0, 0 and 0. *)
Definition value_reply : list Z :=
  [0; 0; 0; 0; Ev3Command.DIRECT_REPLY]
  ++ [0; 0; 0x80; 0x3f] ++ [0; 0; 0x20; 0x41] ++ [0; 0; 0xa0; 0x41] ++ [0; 0; 0xf0; 0x41]
  ++ [0xfe; 0xff; 0xff; 0xff] ++ replicate 12 0.

(** ** Motor references *)

(** The port tables, the motor references and the port of every motor
    object are the same in both. *)
Definition devices_kept {L} (w w' : Runtime L) : Prop :=
  _sensorPorts (ev3 w') = _sensorPorts (ev3 w)
  /\ _motorPorts (ev3 w') = _motorPorts (ev3 w)
  /\ _motors (ev3 w') = _motors (ev3 w)
  /\ _index <$> heap w' = _index <$> heap w.

(** Each port table has at most four entries, there are four motor
    references, and the reference of port [i] is to a motor object that
    was created for port [i]. *)
Definition motors_on_their_ports {L} (w : Runtime L) : Prop :=
  (length (_sensorPorts (ev3 w)) <= 4)%nat
  /\ (length (_motorPorts (ev3 w)) <= 4)%nat
  /\ length (_motors (ev3 w)) = 4%nat
  /\ forall i r, motor (ev3 w) i = Some r -> _index <$> heap w !! r = Some i.

(** A session up to discovery: scan, connect, the first poll tick (which
    asks for the device list) and its reply. *)
Definition first_discovery : Runtime WindowLimiter :=
  _onMessage (device_list_reply [16; 30; 29; 30] [7; 126; 126; 126])
    (_pollValues (linked true (scan (initial limiter40)))).

(** ** The tone frame *)

(** The frame that [beep] builds. *)
Definition beep_frame (freq time : Z) : JS.array Z :=
  generateCommand Ev3Command.DIRECT_COMMAND_NO_REPLY
    [ Some Ev3Opcode.OPSOUND;
      Some Ev3Opcode.OPSOUND_CMD_TONE;
      Some Ev3Encoding.ONE_BYTE;
      Some 2;
      Some Ev3Encoding.TWO_BYTES;
      Some freq;
      Some (JS.shr freq 8);
      Some Ev3Encoding.TWO_BYTES;
      Some time;
      Some (JS.shr time 8) ] 0.

(** A cell that holds a number from 0 to 255. *)
Definition is_byte_cell (c : option Z) : bool :=
  match c with
  | Some b => (0 <=? b) && (b <? 256)
  | None => false
  end.

(** * Properties *)

(** ** Integers and arrays *)

Lemma to_int32_mod (z k : Z) :
  0 <= k <= 32 -> JS.to_int32 z mod 2 ^ k = z mod 2 ^ k.
Proof.
  intros Hk. unfold JS.to_int32.
  assert (H32 : 2 ^ 32 = 2 ^ k * 2 ^ (32 - k))
    by (rewrite <- Z.pow_add_r by lia; f_equal; lia).
  assert (H31 : 2 ^ 31 * 2 = 2 ^ 32) by reflexivity.
  assert (Hpos : 0 < 2 ^ k) by (apply Z.pow_pos_nonneg; lia).
  assert (Hq : 0 < 2 ^ (32 - k)) by (apply Z.pow_pos_nonneg; lia).
  pose proof (Z.div_mod (z + 2 ^ 31) (2 ^ 32) ltac:(lia)) as Hdm.
  set (q := (z + 2 ^ 31) / 2 ^ 32) in *.
  assert (Hm : (z + 2 ^ 31) mod 2 ^ 32 = z + 2 ^ 31 - 2 ^ 32 * q) by lia.
  rewrite Hm.
  replace (z + 2 ^ 31 - 2 ^ 32 * q - 2 ^ 31) with (z + (- q * 2 ^ (32 - k)) * 2 ^ k)
    by (rewrite H32; ring).
  apply Z.mod_add. lia.
Qed.

Lemma to_int32_small (z : Z) : - 2 ^ 31 <= z < 2 ^ 31 -> JS.to_int32 z = z.
Proof.
  intros H. unfold JS.to_int32. rewrite Z.mod_small; lia.
Qed.

Lemma band_255 (z : Z) : JS.band z 0xff = z mod 256.
Proof.
  unfold JS.band. rewrite (to_int32_small 255) by (cbn; lia).
  change 255 with (Z.ones 8). rewrite Z.land_ones by lia.
  apply (to_int32_mod z 8). lia.
Qed.

Lemma shr_div (z k : Z) : 0 <= k < 32 -> JS.shr z k = JS.to_int32 z / 2 ^ k.
Proof.
  intros Hk. unfold JS.shr. rewrite Z.mod_small by lia.
  apply Z.shiftr_div_pow2. lia.
Qed.

Lemma band_shr_255 (z k : Z) :
  0 <= k <= 24 -> JS.band (JS.shr z k) 0xff = (z mod 2 ^ 32 / 2 ^ k) mod 256.
Proof.
  intros Hk. rewrite band_255, shr_div by lia.
  assert (Hpos : 0 < 2 ^ k) by (apply Z.pow_pos_nonneg; lia).
  change 256 with (2 ^ 8).
  rewrite <- !Z.shiftr_div_pow2 by lia.
  rewrite <- !Z.land_ones by lia.
  apply Z.bits_inj'. intros n Hn.
  rewrite !Z.land_spec, !Z.shiftr_spec by lia.
  destruct (Z.ltb_spec n 8) as [Hlt | Hge].
  - f_equal.
    rewrite <- (Z.mod_pow2_bits_low (JS.to_int32 z) 32 (n + k)) by lia.
    rewrite (to_int32_mod z 32) by lia.
    rewrite Z.mod_pow2_bits_low by lia.
    rewrite Z.land_spec, Z.ones_spec_low by lia.
    now rewrite andb_true_r.
  - rewrite Z.ones_spec_high by lia. now rewrite !andb_false_r.
Qed.

Lemma js_get_set_eq {A} (a : JS.array A) (i : nat) (v : option A) :
  JS.get (JS.set i v a) i = v.
Proof.
  unfold JS.get, JS.set. case_decide as Hi.
  - now rewrite list_lookup_insert_eq.
  - rewrite lookup_app_r by lia.
    rewrite lookup_app_r by (rewrite length_replicate; lia).
    rewrite length_replicate.
    now replace (i - length a - (i - length a))%nat with 0%nat by lia.
Qed.

Lemma js_get_set_ne {A} (a : JS.array A) (i j : nat) (v : option A) :
  i ≠ j -> JS.get (JS.set i v a) j = JS.get a j.
Proof.
  intros Hne. unfold JS.get, JS.set. case_decide as Hi.
  - now rewrite list_lookup_insert_ne.
  - destruct (decide (j < length a)%nat) as [Hj | Hj].
    + now rewrite lookup_app_l.
    + rewrite (lookup_ge_None_2 a j) by lia.
      rewrite lookup_app_r by lia.
      destruct (decide (j < i)%nat) as [Hji | Hji].
      * rewrite lookup_app_l by (rewrite length_replicate; lia).
        rewrite lookup_replicate_2 by lia. reflexivity.
      * rewrite lookup_ge_None_2; [reflexivity |].
        rewrite length_app, length_replicate. simpl. lia.
Qed.

Lemma js_set_length {A} (a : JS.array A) (i : nat) (v : option A) :
  length (JS.set i v a) = Nat.max (length a) (S i).
Proof.
  unfold JS.set. case_decide.
  - rewrite length_insert. lia.
  - rewrite !length_app, length_replicate. simpl. lia.
Qed.

Lemma js_get_of_bytes (bytes : list Z) (i : nat) :
  JS.get (JS.of_bytes bytes) i = bytes !! i.
Proof.
  unfold JS.get, JS.of_bytes. rewrite list_lookup_fmap.
  now destruct (bytes !! i).
Qed.

(** ** The command frame *)

Lemma generateCommand_length (type : Z) (byteCommands : JS.array Z) (allocation : Z) :
  length (generateCommand type byteCommands allocation) = (7 + length byteCommands)%nat.
Proof.
  unfold generateCommand. rewrite !js_set_length, length_app, !js_set_length.
  simpl. lia.
Qed.

Lemma generateCommand_lenField (type : Z) (byteCommands : JS.array Z) (allocation : Z) :
  let len := Z.of_nat (length byteCommands) + 5 in
  lenField (generateCommand type byteCommands allocation)
  = Some (JS.band len 0xFF + 256 * JS.and_and (JS.shr len 8) 0xFF).
Proof.
  unfold generateCommand, lenField.
  set (body := _ ++ byteCommands).
  assert (Hlen : Z.of_nat (length body) - 2 = Z.of_nat (length byteCommands) + 5).
  { subst body. rewrite length_app, !js_set_length. simpl. lia. }
  rewrite Hlen. clearbody body.
  rewrite (js_get_set_ne _ 1 0) by discriminate.
  rewrite !js_get_set_eq. reflexivity.
Qed.

(** Frames whose payload is shorter than 251 bytes carry their length. *)
Lemma generateCommand_lenField_short (type : Z) (byteCommands : JS.array Z) (allocation : Z) :
  (length byteCommands < 251)%nat ->
  lenField (generateCommand type byteCommands allocation)
  = Some (Z.of_nat (length (generateCommand type byteCommands allocation)) - 2).
Proof.
  intros Hlen. rewrite generateCommand_lenField, generateCommand_length. cbv zeta.
  set (len := Z.of_nat (length byteCommands) + 5).
  assert (Hl : 0 <= len < 256) by lia.
  rewrite band_255, shr_div, to_int32_small by lia.
  rewrite Z.mod_small, Z.div_small by lia.
  unfold JS.and_and. simpl. f_equal. lia.
Qed.

(** From 251 payload bytes on, the high byte of the length field is 0xFF
    whatever the length, for as long as the length fits 31 bits. *)
Lemma generateCommand_lenField_long (type : Z) (byteCommands : JS.array Z) (allocation : Z) :
  (251 <= length byteCommands)%nat ->
  Z.of_nat (length byteCommands) + 5 < 2 ^ 31 ->
  lenField (generateCommand type byteCommands allocation)
  = Some ((Z.of_nat (length byteCommands) + 5) mod 256 + 256 * 0xFF).
Proof.
  intros Hlen Hmax. rewrite generateCommand_lenField. cbv zeta.
  set (len := Z.of_nat (length byteCommands) + 5) in *.
  rewrite band_255, shr_div, to_int32_small by lia.
  unfold JS.and_and.
  destruct (Z.eqb_spec (len / 2 ^ 8) 0) as [H0 | H0]; [| reflexivity].
  apply Z.div_small_iff in H0; lia.
Qed.

(** C1: the length field of a generated frame is meant to be the frame
    length minus 2, little-endian in bytes 0 and 1. With a payload of 251
    zero bytes the frame has 258 bytes, so that the field should read 256;
    the frame built by [generateCommand] starts with the bytes 0x00 0xFF,
    which read 65280. *)
Theorem generateCommand_lenField_251 :
  let frame := generateCommand Ev3Command.DIRECT_COMMAND_NO_REPLY (replicate 251 (Some 0)) 0 in
  Z.of_nat (length frame) - 2 = 256 /\
  JS.get frame 0 = Some 0x00 /\
  JS.get frame 1 = Some 0xFF /\
  lenField frame = Some 65280.
Proof. vm_compute. repeat split; congruence. Qed.

(** ** The run length operand *)

Lemma turnOnFor_run_nonneg (power direction milliseconds : Z) :
  0 <= (turnOnFor_phases power direction milliseconds).1.2.
Proof.
  unfold turnOnFor_phases.
  destruct (power * direction <? 0);
    match goal with |- context [?x - Ev3Args.RAMP * 2 <? 0] =>
      destruct (Z.ltb_spec (x - Ev3Args.RAMP * 2) 0) end; simpl; lia.
Qed.

Lemma runValues_two_bytes (run : Z) :
  0 <= run < 0x7fff -> is_two_byte_operand (_runValues run) run.
Proof.
  intros H. unfold _runValues, is_two_byte_operand.
  destruct (Z.ltb_spec run 0x7fff) as [_ | ?]; [| lia].
  rewrite band_255, band_shr_255 by lia.
  rewrite (Z.mod_small run (2 ^ 32)) by lia.
  change (2 ^ 8) with 256.
  assert (run / 256 < 128) by (apply Z.div_lt_upper_bound; lia).
  assert (0 <= run / 256) by (apply Z.div_pos; lia).
  rewrite (Z.mod_small (run / 256)) by lia.
  split; [reflexivity | lia].
Qed.

Lemma runValues_four_bytes (run : Z) :
  0x7fff <= run -> is_four_byte_operand (_runValues run) (run mod 2 ^ 32).
Proof.
  intros H. unfold _runValues, is_four_byte_operand.
  destruct (Z.ltb_spec run 0x7fff) as [? | _]; [lia |].
  rewrite band_255, !band_shr_255 by lia.
  rewrite (Z.mod_mod_divide run (2 ^ 32) 256) by (exists (2 ^ 24); reflexivity).
  reflexivity.
Qed.

(** The operand sits between the ramp-up and the ramp-down operands of the
    byte command of [turnOnFor]. *)
Lemma turnOnFor_bytes_run (this : EV3Motor) (milliseconds : Z) :
  exists dir rampup rampdown,
    turnOnFor_bytes this milliseconds
    = [ Some Ev3Opcode.OPOUTPUT_TIME_SPEED; Some Ev3Args.LAYER;
        Some (_portMask (_index this));
        Some Ev3Encoding.ONE_BYTE; Some dir;
        Some Ev3Encoding.ONE_BYTE; Some rampup ]
      ++ _runValues (turnOnFor_phases (_power this) (_direction this) milliseconds).1.2
      ++ [ Some Ev3Encoding.ONE_BYTE; Some rampdown; Some Ev3Args.BRAKE ].
Proof.
  unfold turnOnFor_bytes.
  destruct (turnOnFor_phases _ _ _) as [[[dir rampup] run] rampdown].
  now exists (JS.band dir 0xff), rampup, rampdown.
Qed.

(** C3, as the code has it: a non-negative steady-run length is written as
    the tag 0x82 and its two little-endian bytes exactly when it is below
    0x7FFF, and as the tag 0x83 and the four little-endian bytes of its low
    32 bits exactly when it is 0x7FFF or more. *)
Theorem runValues_operand (run : Z) :
  0 <= run ->
  (is_two_byte_operand (_runValues run) run <-> run < 0x7fff) /\
  (is_four_byte_operand (_runValues run) (run mod 2 ^ 32) <-> 0x7fff <= run).
Proof.
  intros H. destruct (Z.lt_ge_cases run 0x7fff) as [Hlt | Hge].
  - pose proof (runValues_two_bytes run ltac:(lia)) as H2.
    split; split; intros; try lia; try assumption.
    destruct H2 as [H2 _]. unfold is_four_byte_operand in *. congruence.
  - pose proof (runValues_four_bytes run ltac:(lia)) as H4.
    split; split; intros; try lia; try assumption.
    match goal with Hx : is_two_byte_operand _ _ |- _ => destruct Hx as [Hx _] end.
    unfold is_four_byte_operand in *. congruence.
Qed.

Lemma runValues_operand_witness :
  (is_two_byte_operand (_runValues 900) 900 <-> 900 < 0x7fff) /\
  (is_four_byte_operand (_runValues 900) (900 mod 2 ^ 32) <-> 0x7fff <= 900).
Proof. apply (runValues_operand 900). lia. Defined.

(** C3, as the claim has it, fails at 0x7FFF: the value fits 15 bits and is
    written with the four-byte tag. *)
Lemma runValues_0x7fff_four_bytes :
  0x7fff <= 0x7fff /\
  _runValues 0x7fff = [Some 0x83; Some 0xff; Some 0x7f; Some 0; Some 0] /\
  ~ (is_two_byte_operand (_runValues 0x7fff) 0x7fff <-> 0x7fff <= 0x7fff).
Proof.
  split; [lia |]. split; [reflexivity |].
  intros [_ H]. destruct (H ltac:(lia)) as [H2 _]. vm_compute in H2. congruence.
Qed.

(** ** The position decode *)

Lemma position_value_bytes (b0 b1 b2 b3 : Z) :
  position_value [Some b0; Some b1; Some b2; Some b3]
  = Some (let u := b0 + 2 ^ 8 * b1 + 2 ^ 16 * b2 + 2 ^ 24 * b3 in
          if u >? 0x7fffffff then u - 0x100000000 else u).
Proof.
  unfold position_value. cbn [JS.get lookup list_lookup mjoin option_join mbind option_bind].
  replace (b0 + b1 * 256 + b2 * 256 * 256 + b3 * 256 * 256 * 256)
    with (b0 + 2 ^ 8 * b1 + 2 ^ 16 * b2 + 2 ^ 24 * b3) by lia.
  reflexivity.
Qed.

(** C4: the position setter reads its four bytes little-endian as an
    unsigned 32-bit value and subtracts 0x100000000 from any value above
    0x7FFFFFFF; the result is the two's-complement reading, in
    [-2^31, 2^31), congruent to the unsigned value modulo 2^32. The bytes
    of 0x7FFFFFFF give 2147483647, those of 0x80000000 give -2147483648,
    those of 0xFFFFFFFF give -1. *)
Theorem position_twos_complement (this : EV3Motor) (b0 b1 b2 b3 : Z) :
  0 <= b0 < 256 -> 0 <= b1 < 256 -> 0 <= b2 < 256 -> 0 <= b3 < 256 ->
  let u := b0 + 2 ^ 8 * b1 + 2 ^ 16 * b2 + 2 ^ 24 * b3 in
  let array := [Some b0; Some b1; Some b2; Some b3] in
  _position (set_position array this)
  = Some (if u >? 0x7fffffff then u - 0x100000000 else u)
  /\ (exists v, _position (set_position array this) = Some v
                /\ - 2 ^ 31 <= v < 2 ^ 31 /\ v mod 2 ^ 32 = u)
  /\ _position (set_position [Some 0xff; Some 0xff; Some 0xff; Some 0x7f] this)
     = Some 2147483647
  /\ _position (set_position [Some 0x00; Some 0x00; Some 0x00; Some 0x80] this)
     = Some (-2147483648)
  /\ _position (set_position [Some 0xff; Some 0xff; Some 0xff; Some 0xff] this)
     = Some (-1).
Proof.
  intros H0 H1 H2 H3 u array.
  assert (Hu : 0 <= u < 2 ^ 32) by (subst u; lia).
  assert (Hp : _position (set_position array this)
               = Some (if u >? 0x7fffffff then u - 0x100000000 else u))
    by (unfold set_position; simpl; apply position_value_bytes).
  split; [exact Hp |]. split; [| repeat split].
  rewrite Hp. eexists. split; [reflexivity |].
  destruct (Z.gtb_spec u 0x7fffffff) as [Hgt | Hle].
  - split; [lia |].
    replace (u - 0x100000000) with (u + (-1) * 2 ^ 32) by lia.
    rewrite Z.mod_add by lia. apply Z.mod_small. lia.
  - split; [lia |]. apply Z.mod_small. lia.
Qed.

Lemma position_twos_complement_witness :
  _position (set_position [Some 0x2e; Some 0xfb; Some 0xff; Some 0xff]
                          (new_EV3Motor 0 (Some "largeMotor"%string)))
  = Some (-1234).
Proof.
  destruct (position_twos_complement (new_EV3Motor 0 (Some "largeMotor"%string))
              0x2e 0xfb 0xff 0xff) as [H _]; [lia | lia | lia | lia |].
  exact H.
Defined.

(** ** Sending *)

Section Sending.
Context {L : Type} `{!RateLimiter L}.

(** C10: while the transport reports that it is not connected (or there
    is no transport), [send] gives a promise resolved on the spot and
    changes nothing, whatever [useLimiter] is: the state of the rate
    limiter and the messages taken by the transport are what they were. *)
Theorem send_disconnected (message : JS.array Z) (useLimiter : bool) (w : Runtime L) :
  isConnected w = false ->
  send message useLimiter w = (Resolved, w)
  /\ _rateLimiter (ev3 (send message useLimiter w).2) = _rateLimiter (ev3 w)
  /\ _bt (ev3 (send message useLimiter w).2) = _bt (ev3 w).
Proof.
  intros Hc. unfold send. rewrite Hc. simpl. auto.
Qed.

(** A connected send that bypasses the limiter hands the message to the
    transport and leaves the limiter alone. *)
Lemma send_unlimited (message : JS.array Z) (w : Runtime L) (bt : BT) :
  _bt (ev3 w) = Some bt -> bt_connected bt = true ->
  send message false w
  = (TransportPromise,
     with_ev3 (with_bt (Some {| bt_connected := true;
                                bt_sent := bt_sent bt ++ [message] |}) (ev3 w)) w).
Proof.
  intros Hbt Hc. unfold send, isConnected, sendMessage. rewrite Hbt, Hc. reflexivity.
Qed.

End Sending.

Lemma send_disconnected_witness :
  send [Some 1; Some 2] true (linked false (initial limiter40))
  = (Resolved, linked false (initial limiter40)).
Proof.
  apply (send_disconnected [Some 1; Some 2] true (linked false (initial limiter40))).
  reflexivity.
Defined.

(** ** The poll request *)

Section Polling.
Context {L : Type}.

(** C2, as the code has it: on a value poll the allocation is 32 whatever
    the sensor ports hold, four bytes for each of the eight reply slots
    (four sensor ports, queried or not, and four motor ports); the
    compound command has seven bytes per queried sensor and five per
    position read; the allocation is four times the number of opcodes
    only when all four sensor ports are queried. *)
Theorem poll_allocation (e : EV3 L) :
  Z.rem (_pollingCounter e) 20 ≠ 0 ->
  (poll_request e).1.2 = 32
  /\ length (poll_request e).1.1 = (7 * queried_sensors e + 5 * 4)%nat
  /\ (poll_request e).2 = e
  /\ ((poll_request e).1.2 = 4 * opcodes_issued e <-> queried_sensors e = 4%nat).
Proof.
  intros Hc. unfold poll_request, opcodes_issued, queried_sensors.
  destruct (Z.eqb_spec (Z.rem (_pollingCounter e) 20) 0) as [? | _]; [contradiction |].
  unfold poll_sensor_step. cbn [seq foldl List.filter].
  generalize (JS.get (_sensorPorts e) 0 ≫= (Ev3Mode !!.)),
             (JS.get (_sensorPorts e) 1 ≫= (Ev3Mode !!.)),
             (JS.get (_sensorPorts e) 2 ≫= (Ev3Mode !!.)),
             (JS.get (_sensorPorts e) 3 ≫= (Ev3Mode !!.)).
  generalize (bool_decide (JS.get (_sensorPorts e) 0 ≠ Some "none"%string)),
             (bool_decide (JS.get (_sensorPorts e) 1 ≠ Some "none"%string)),
             (bool_decide (JS.get (_sensorPorts e) 2 ≠ Some "none"%string)),
             (bool_decide (JS.get (_sensorPorts e) 3 ≠ Some "none"%string)).
  intros b0 b1 b2 b3 c0 c1 c2 c3.
  destruct b0, b1, b2, b3; vm_compute;
    (split; [reflexivity |]); (split; [reflexivity |]);
    (split; [reflexivity |]); split; intros; congruence.
Qed.

End Polling.

Lemma poll_allocation_witness :
  (poll_request touch_only).1.2 = 32.
Proof.
  destruct (poll_allocation touch_only) as [H _]; [vm_compute; discriminate | exact H].
Defined.

(** C2, as the claim has it, fails with a single sensor: five opcodes are
    issued, which would make 20 bytes, and the allocation is 32. *)
Lemma poll_allocation_not_opcodes :
  Z.rem (_pollingCounter touch_only) 20 ≠ 0
  /\ opcodes_issued touch_only = 5
  /\ (poll_request touch_only).1.2 = 32
  /\ (poll_request touch_only).1.2 ≠ 4 * opcodes_issued touch_only.
Proof. vm_compute. repeat split; discriminate. Qed.

(** ** The reply dispatcher *)

Lemma with_ev3_same {L} (w : Runtime L) : with_ev3 (ev3 w) w = w.
Proof. now destruct w. Qed.

Section Replies.
Context {L : Type}.
Implicit Types (w : Runtime L) (e : EV3 L) (bytes : list Z).

Lemma onMessage_other_tag w bytes :
  bytes !! 4%nat ≠ Some Ev3Command.DIRECT_REPLY ->
  _onMessage bytes w = w.
Proof.
  intros Htag. unfold _onMessage. rewrite js_get_of_bytes.
  now rewrite bool_decide_eq_true_2.
Qed.

(** C5: a reply buffer that is shorter than the 5-byte header, or whose
    byte 4 is not the success tag [DIRECT_REPLY], is dropped: [_onMessage]
    gives back the state it was given, so that the sensor ports, the motor
    ports, the readings and button flags, the motor references and the
    motor objects with their positions are as they were. *)
Theorem onMessage_not_direct_reply w bytes :
  (length bytes < 5)%nat \/ bytes !! 4%nat ≠ Some Ev3Command.DIRECT_REPLY ->
  let w' := _onMessage bytes w in
  w' = w
  /\ _sensorPorts (ev3 w') = _sensorPorts (ev3 w)
  /\ _motorPorts (ev3 w') = _motorPorts (ev3 w)
  /\ _sensors (ev3 w') = _sensors (ev3 w)
  /\ _motors (ev3 w') = _motors (ev3 w)
  /\ heap w' = heap w.
Proof.
  intros Hbad w'. subst w'.
  assert (Htag : bytes !! 4%nat ≠ Some Ev3Command.DIRECT_REPLY).
  { destruct Hbad as [Hshort | Htag]; [| exact Htag].
    rewrite lookup_ge_None_2 by lia. discriminate. }
  rewrite (onMessage_other_tag w bytes Htag). repeat split.
Qed.

(** *** The device-list branch *)

Lemma motor_port_fold data e (m : nat) :
  (m < 4)%nat ->
  JS.get (_motorPorts (foldl (motor_port_step data) e (seq 0 4))) m
  = Some (device_or_none (JS.get data (m + 21))).
Proof.
  intros Hm. cbn [seq foldl]. unfold motor_port_step. cbn [_motorPorts with_motorPorts].
  destruct m as [| [| [| [| m]]]]; [| | | | lia];
    rewrite ?js_get_set_ne by lia; now rewrite js_get_set_eq.
Qed.

Lemma motor_port_fold_others data e :
  let e' := foldl (motor_port_step data) e (seq 0 4) in
  _sensorPorts e' = _sensorPorts e /\ _sensors e' = _sensors e /\ _motors e' = _motors e.
Proof. cbn. auto. Qed.

Lemma sensor_port_fold_others data e :
  let e' := foldl (sensor_port_step data) e (seq 0 4) in
  _motorPorts e' = _motorPorts e /\ _sensors e' = _sensors e /\ _motors e' = _motors e.
Proof. cbn. auto. Qed.

Lemma motor_step_kept_refl w : motor_step_kept w w.
Proof. now split. Qed.

Lemma motor_step_kept_trans w1 w2 w3 :
  motor_step_kept w1 w2 -> motor_step_kept w2 w3 -> motor_step_kept w1 w3.
Proof.
  intros [? ? ?] [? ? ?]. split; try congruence. etransitivity; eassumption.
Qed.

Lemma motor_object_step_kept w (k : nat) : motor_step_kept w (motor_object_step w k).
Proof.
  unfold motor_object_step.
  repeat match goal with |- context [if ?b then _ else _] => destruct b end;
    split; cbn; try reflexivity; now apply prefix_app_r.
Qed.

Lemma motor_object_step_other w (k j : nat) :
  j ≠ k ->
  JS.get (_motors (ev3 (motor_object_step w k))) j = JS.get (_motors (ev3 w)) j.
Proof.
  intros Hne. unfold motor_object_step.
  repeat match goal with |- context [if ?b then _ else _] => destruct b end;
    cbn; rewrite ?js_get_set_ne by congruence; reflexivity.
Qed.

(** The turn of port [k], with [type] in the port table: a motor that is
    there stays, a missing one is created as a new object, and ['none']
    clears the reference. *)
Lemma motor_object_step_at w (k : nat) (type : string) :
  JS.get (_motorPorts (ev3 w)) k = Some type ->
  let w' := motor_object_step w k in
  (is_Some (JS.get (_motors (ev3 w')) k) <-> type ≠ "none"%string)
  /\ (type ≠ "none"%string -> is_Some (JS.get (_motors (ev3 w)) k) ->
      JS.get (_motors (ev3 w')) k = JS.get (_motors (ev3 w)) k)
  /\ (type ≠ "none"%string -> JS.get (_motors (ev3 w)) k = None ->
      JS.get (_motors (ev3 w')) k = Some (length (heap w))
      /\ heap w' !! length (heap w) = Some (new_EV3Motor k (Some type))).
Proof.
  intros Ht. unfold motor_object_step. rewrite Ht.
  destruct (bool_decide (Some type ≠ Some "none"%string)) eqn:E1;
    [apply bool_decide_eq_true in E1 | apply bool_decide_eq_false in E1];
    (destruct (bool_decide (Some type = Some "none"%string)) eqn:E2;
     [apply bool_decide_eq_true in E2 | apply bool_decide_eq_false in E2]);
    try contradiction.
  - assert (Hne : type ≠ "none"%string) by congruence.
    destruct (JS.get (_motors (ev3 w)) k) as [r |] eqn:Hm; cbn.
    + rewrite Hm. repeat split; eauto; try discriminate.
    + rewrite js_get_set_eq. repeat split; eauto; try discriminate.
      * intros _ []; discriminate.
      * now rewrite lookup_app_r, Nat.sub_diag by lia.
  - injection E2 as ->.
    destruct (JS.get (_motors (ev3 w)) k) as [r |] eqn:Hm; cbn; rewrite Hm; cbn.
    + rewrite js_get_set_eq. repeat split; try contradiction. intros []; discriminate.
    + rewrite Hm. repeat split; try contradiction. intros []; discriminate.
Qed.

Lemma motor_object_fold_kept w (ks : list nat) :
  motor_step_kept w (foldl motor_object_step w ks).
Proof.
  revert w. induction ks as [| k ks IH]; intros w; cbn [foldl].
  - apply motor_step_kept_refl.
  - eapply motor_step_kept_trans; [apply motor_object_step_kept | apply IH].
Qed.

Lemma motor_object_fold_other w (ks : list nat) (j : nat) :
  j ∉ ks ->
  JS.get (_motors (ev3 (foldl motor_object_step w ks))) j = JS.get (_motors (ev3 w)) j.
Proof.
  revert w. induction ks as [| k ks IH]; intros w Hj; cbn [foldl]; [reflexivity |].
  apply not_elem_of_cons in Hj as [Hjk Hj].
  rewrite IH by assumption. now apply motor_object_step_other.
Qed.

End Replies.

Section Discovery.
Context {L : Type}.
Implicit Types (w : Runtime L) (e : EV3 L) (bytes : list Z).

Lemma onMessage_device_list w bytes :
  _updateDevices (ev3 w) = true ->
  bytes !! 4%nat = Some Ev3Command.DIRECT_REPLY ->
  _onMessage bytes w = parse_device_list (JS.of_bytes bytes) w.
Proof.
  intros Hu Htag. unfold _onMessage. rewrite js_get_of_bytes, Htag.
  rewrite bool_decide_eq_false_2 by (intros H; now apply H).
  now rewrite Hu.
Qed.

Lemma onMessage_value w bytes :
  _updateDevices (ev3 w) = false ->
  bytes !! 4%nat = Some Ev3Command.DIRECT_REPLY ->
  _onMessage bytes w
  = if negb (JS.includes_undefined (_sensorPorts (ev3 w)))
       && negb (JS.includes_undefined (_motorPorts (ev3 w)))
    then parse_values (JS.of_bytes bytes) w else w.
Proof.
  intros Hu Htag. unfold _onMessage. rewrite js_get_of_bytes, Htag.
  rewrite bool_decide_eq_false_2 by (intros H; now apply H).
  now rewrite Hu.
Qed.

(** What the device-list branch keeps, and the motor port table it
    leaves. *)
Lemma parse_device_list_kept data w :
  let w' := parse_device_list data w in
  _sensors (ev3 w') = _sensors (ev3 w)
  /\ heap w `prefix_of` heap w'
  /\ (forall m, (m < 4)%nat ->
        JS.get (_motorPorts (ev3 w')) m = Some (device_or_none (JS.get data (m + 21)))).
Proof.
  unfold parse_device_list.
  set (e := foldl (motor_port_step data) _ _).
  assert (He : forall m, (m < 4)%nat ->
            JS.get (_motorPorts e) m = Some (device_or_none (JS.get data (m + 21))))
    by (intros m Hm; now apply motor_port_fold).
  assert (Hse : _sensors e = _sensors (ev3 w)).
  { subst e. destruct (motor_port_fold_others data
                         (foldl (sensor_port_step data) (ev3 w) (seq 0 4))) as (_ & -> & _).
    now destruct (sensor_port_fold_others data (ev3 w)) as (_ & -> & _). }
  clearbody e.
  pose proof (motor_object_fold_kept (with_ev3 e w) (seq 0 4)) as [Kp Ks Kh].
  revert Kp Ks Kh. generalize (foldl motor_object_step (with_ev3 e w) (seq 0 4)).
  intros w1 Kp Ks Kh. cbn [ev3 with_ev3 _sensors _motorPorts with_updateDevices heap] in *.
  split; [congruence |]. split; [assumption |]. intros m Hm. rewrite Kp. now apply He.
Qed.

(** The motor loop, seen from port [m]. *)
Lemma motor_object_fold_at w (m : nat) (type : string) :
  (m < 4)%nat ->
  JS.get (_motorPorts (ev3 w)) m = Some type ->
  let w' := foldl motor_object_step w (seq 0 4) in
  (is_Some (JS.get (_motors (ev3 w')) m) <-> type ≠ "none"%string)
  /\ (type ≠ "none"%string -> JS.get (_motors (ev3 w)) m = None ->
      exists r, JS.get (_motors (ev3 w')) m = Some r
                /\ heap w !! r = None
                /\ heap w' !! r = Some (new_EV3Motor m (Some type)))
  /\ (type ≠ "none"%string -> is_Some (JS.get (_motors (ev3 w)) m) ->
      JS.get (_motors (ev3 w')) m = JS.get (_motors (ev3 w)) m)
  /\ (type = "none"%string -> JS.get (_motors (ev3 w')) m = None).
Proof.
  intros Hm He w'. subst w'.
  replace (seq 0 4) with (seq 0 m ++ m :: seq (S m) (3 - m))
    by (destruct m as [| [| [| [| m]]]]; [reflexivity .. | lia]).
  rewrite foldl_app. cbn [foldl].
  pose proof (motor_object_fold_kept w (seq 0 m)) as [Kp _ Kh].
  pose proof (motor_object_fold_other w (seq 0 m) m) as Ha.
  rewrite elem_of_seq in Ha. specialize (Ha ltac:(lia)).
  revert Kp Kh Ha. generalize (foldl motor_object_step w (seq 0 m)). intros wa Kp Kh Ha.
  destruct (motor_object_step_at wa m type) as (Hiff & Hkeep & Hnew); [congruence |].
  pose proof (motor_object_fold_kept (motor_object_step wa m) (seq (S m) (3 - m)))
    as [_ _ Kh'].
  pose proof (motor_object_fold_other (motor_object_step wa m) (seq (S m) (3 - m)) m) as Hf.
  rewrite elem_of_seq in Hf. specialize (Hf ltac:(lia)).
  revert Hiff Hkeep Hnew Kh' Hf. generalize (motor_object_step wa m). intros wb.
  generalize (foldl motor_object_step wb (seq (S m) (3 - m))).
  intros wf Hiff Hkeep Hnew Kh' Hf. rewrite Hf, <- Ha.
  split; [exact Hiff |]. split; [| split].
  - intros Hne Hnone. destruct (Hnew Hne Hnone) as [Hr Hh].
    exists (length (heap wa)). split; [exact Hr |]. split.
    + apply lookup_ge_None_2. apply prefix_length in Kh. lia.
    + eapply prefix_lookup_Some; eassumption.
  - intros Hne Hsome. now apply Hkeep.
  - intros Hnone. destruct (JS.get (_motors (ev3 wb)) m) eqn:E; [| reflexivity].
    exfalso. destruct Hiff as [Hi _]. exact (Hi (mk_is_Some _ _ eq_refl) Hnone).
Qed.

(** The motor loop of the device-list branch, through [_onMessage] and
    in terms of the type that the branch decodes for port [m]. *)
Lemma onMessage_motor_lifecycle w bytes (m : nat) :
  _updateDevices (ev3 w) = true ->
  bytes !! 4%nat = Some Ev3Command.DIRECT_REPLY ->
  (m < 4)%nat ->
  let w' := _onMessage bytes w in
  let type := reported_motor_type bytes m in
  (is_Some (motor (ev3 w') m) <-> type ≠ "none"%string)
  /\ (type ≠ "none"%string -> motor (ev3 w) m = None ->
      exists r, motor (ev3 w') m = Some r
                /\ heap w !! r = None
                /\ heap w' !! r = Some (new_EV3Motor m (Some type)))
  /\ (type ≠ "none"%string -> is_Some (motor (ev3 w) m) ->
      motor (ev3 w') m = motor (ev3 w) m)
  /\ (type = "none"%string -> motor (ev3 w') m = None).
Proof.
  intros Hu Htag Hm w' type. subst w'. rewrite onMessage_device_list by assumption.
  unfold parse_device_list.
  set (e := foldl (motor_port_step (JS.of_bytes bytes)) _ _).
  assert (He : JS.get (_motorPorts e) m = Some type) by (apply motor_port_fold; lia).
  assert (Hmot : _motors e = _motors (ev3 w)).
  { subst e. destruct (motor_port_fold_others (JS.of_bytes bytes)
                         (foldl (sensor_port_step (JS.of_bytes bytes)) (ev3 w) (seq 0 4)))
      as (_ & _ & ->).
    now destruct (sensor_port_fold_others (JS.of_bytes bytes) (ev3 w)) as (_ & _ & ->). }
  clearbody e.
  pose proof (motor_object_fold_at (with_ev3 e w) m type Hm He) as H.
  revert H. cbv zeta. generalize (foldl motor_object_step (with_ev3 e w) (seq 0 4)).
  intros w1. unfold motor.
  cbn [ev3 with_ev3 _motors with_updateDevices heap]. now rewrite Hmot.
Qed.

End Discovery.

Lemma onMessage_not_direct_reply_witness :
  _onMessage [3; 0; 0; 0] (scan (initial limiter40)) = scan (initial limiter40).
Proof.
  destruct (onMessage_not_direct_reply (scan (initial limiter40)) [3; 0; 0; 0])
    as [H _]; [left; simpl; lia | exact H].
Defined.

(** An error-tagged reply (reply type 0x04) is dropped as well, also while
    a device list is awaited. *)
Example error_reply_dropped :
  _onMessage [3; 0; 0; 0; 4; 7; 7; 7; 7] (with_ev3 (with_updateDevices true
                (ev3 (scan (initial limiter40)))) (scan (initial limiter40)))
  = with_ev3 (with_updateDevices true (ev3 (scan (initial limiter40))))
             (scan (initial limiter40)).
Proof. vm_compute. reflexivity. Qed.

(** A large motor reported on port 2 (the third port), then nothing: the
    motor object is there after the first reply and gone after the second. *)
Example large_motor_then_none :
  let w1 := _onMessage (device_list_reply [126; 126; 126; 126] [126; 126; 7; 126])
                       awaiting_devices in
  let w2 := _onMessage (device_list_reply [126; 126; 126; 126] [126; 126; 126; 126])
                       (with_ev3 (with_updateDevices true (ev3 w1)) w1) in
  motor (ev3 w1) 2 = Some 0%nat
  /\ heap w1 !! 0%nat = Some (new_EV3Motor 2 (Some "largeMotor"%string))
  /\ motor (ev3 w2) 2 = None.
Proof. vm_compute. auto. Qed.

(** ** Replies before discovery *)

Section Gating.
Context {L : Type} `{!RateLimiter L}.
Implicit Types (w : Runtime L) (e : EV3 L) (bytes : list Z).

Lemma same_motor_tables_refl w : same_motor_tables w w.
Proof. now split. Qed.

Lemma same_motor_tables_trans w1 w2 w3 :
  same_motor_tables w1 w2 -> same_motor_tables w2 w3 -> same_motor_tables w1 w3.
Proof. intros [? ?] [? ?]. split; congruence. Qed.

Lemma same_motor_tables_inv w w' :
  same_motor_tables w w' -> no_motor_before_discovery w -> no_motor_before_discovery w'.
Proof. intros [Hp Hm] Hinv Hnil i. rewrite Hm. apply Hinv. congruence. Qed.

Lemma send_same message useLimiter w :
  same_motor_tables w (send message useLimiter w).2.
Proof.
  unfold send, sendMessage. destruct (negb (isConnected w)); [apply same_motor_tables_refl |].
  destruct useLimiter.
  - destruct (okayToSend _ _) as [[|] l]; cbn;
      destruct (_bt (ev3 w)); split; reflexivity.
  - destruct (_bt (ev3 w)); split; reflexivity.
Qed.

Lemma coast_same r w : same_motor_tables w (coast r w).
Proof.
  unfold coast. destruct (heap w !! r) as [this |]; [| apply same_motor_tables_refl].
  destruct (_power this =? 0); [apply same_motor_tables_refl | apply send_same].
Qed.

Lemma coastAfter_same r time w : same_motor_tables w (coastAfter r time w).
Proof.
  unfold coastAfter. destruct (heap w !! r) as [this |]; [| apply same_motor_tables_refl].
  destruct (_power this =? 0); [apply same_motor_tables_refl | split; reflexivity].
Qed.

Lemma turnOnFor_same r ms w : same_motor_tables w (turnOnFor r ms w).
Proof.
  unfold turnOnFor. destruct (heap w !! r) as [this |]; [| apply same_motor_tables_refl].
  destruct (_power this =? 0); [apply same_motor_tables_refl |].
  eapply same_motor_tables_trans; [apply send_same | apply coastAfter_same].
Qed.

Lemma coast_callback_same r commandId w : same_motor_tables w (coast_callback r commandId w).
Proof.
  unfold coast_callback. destruct (heap w !! r) as [this |]; [| apply same_motor_tables_refl].
  case_bool_decide; [| apply same_motor_tables_refl].
  eapply same_motor_tables_trans; [apply coast_same | split; reflexivity].
Qed.

Lemma fire_next_same w : same_motor_tables w (fire_next w).
Proof.
  unfold fire_next. destruct (timers w) as [| t q]; [apply same_motor_tables_refl |].
  eapply same_motor_tables_trans; [| apply coast_callback_same]. split; reflexivity.
Qed.

Lemma stopAllMotors_same w : same_motor_tables w (stopAllMotors w).
Proof.
  unfold stopAllMotors. generalize (_motors (ev3 w)) as refs. intros refs. revert w.
  induction refs as [| [r |] refs IH]; intros w; cbn [foldl].
  - apply same_motor_tables_refl.
  - eapply same_motor_tables_trans; [apply coast_same | apply IH].
  - apply IH.
Qed.

Lemma pollValues_same w : same_motor_tables w (_pollValues w).
Proof.
  unfold _pollValues. destruct (negb (isConnected w)).
  - destruct (_pollingIntervalID (ev3 w)); split; reflexivity.
  - destruct (poll_request (ev3 w)) as [[cmds allocation] e] eqn:Hreq.
    assert (He : _motorPorts e = _motorPorts (ev3 w) /\ _motors e = _motors (ev3 w)).
    { unfold poll_request in Hreq.
      destruct (Z.rem (_pollingCounter (ev3 w)) 20 =? 0).
      - injection Hreq as _ _ <-. split; reflexivity.
      - destruct (foldl (poll_sensor_step _) _ _) as [[c1 i1] n1].
        destruct (foldl poll_motor_step _ _) as [[c2 i2] n2].
        injection Hreq as _ _ <-. split; reflexivity. }
    eapply same_motor_tables_trans; [| split; reflexivity].
    eapply same_motor_tables_trans; [| apply send_same]. exact He.
Qed.

(** *** The value branch *)

Lemma sensor_value_step_tables data e (offset i : nat) :
  let e' := (sensor_value_step data (e, offset) i).1 in
  _sensorPorts e' = _sensorPorts e /\ _motorPorts e' = _motorPorts e
  /\ _motors e' = _motors e.
Proof.
  unfold sensor_value_step. case_bool_decide; [now cbn |].
  destruct (_ ≫= _) as [l |]; [| now cbn].
  destruct (String.eqb l ""); now cbn.
Qed.

Lemma sensor_value_fold_tables data e (offset : nat) (ports : list nat) :
  let e' := (foldl (sensor_value_step data) (e, offset) ports).1 in
  _sensorPorts e' = _sensorPorts e /\ _motorPorts e' = _motorPorts e
  /\ _motors e' = _motors e.
Proof.
  revert e offset. induction ports as [| i ports IH]; intros e offset; cbn [foldl].
  - cbn. auto.
  - pose proof (sensor_value_step_tables data e offset i) as (H1 & H2 & H3).
    destruct (sensor_value_step data (e, offset) i) as [e1 o1]. cbn [fst] in *.
    destruct (IH e1 o1) as (K1 & K2 & K3). cbv zeta. repeat split; congruence.
Qed.

Lemma motor_position_fold_ev3 data w (offset : nat) (ports : list nat) :
  ev3 (foldl (motor_position_step data) (w, offset) ports).1 = ev3 w.
Proof.
  revert w offset. induction ports as [| i ports IH]; intros w offset; cbn [foldl].
  - reflexivity.
  - unfold motor_position_step at 2. rewrite IH.
    now destruct (JS.get (_motors (ev3 w)) i).
Qed.

(** With an empty sensor port table no reading is written. *)
Lemma sensor_value_fold_unset data e (offset : nat) (ports : list nat) :
  _sensorPorts e = [] ->
  (foldl (sensor_value_step data) (e, offset) ports).1 = e.
Proof.
  intros Hs. revert offset. induction ports as [| i ports IH]; intros offset; cbn [foldl].
  - reflexivity.
  - unfold sensor_value_step at 2. rewrite Hs.
    replace (JS.get [] i) with (@None string) by now destruct i.
    cbn [mbind option_bind]. rewrite bool_decide_eq_false_2 by discriminate. apply IH.
Qed.

(** Without motor references no position is written. *)
Lemma motor_position_fold_unset data w (offset : nat) (ports : list nat) :
  (forall i, JS.get (_motors (ev3 w)) i = None) ->
  (foldl (motor_position_step data) (w, offset) ports).1 = w.
Proof.
  intros Hm. revert offset. induction ports as [| i ports IH]; intros offset; cbn [foldl].
  - reflexivity.
  - unfold motor_position_step at 2. rewrite Hm. apply IH.
Qed.

Lemma parse_values_tables data w :
  same_motor_tables w (parse_values data w).
Proof.
  unfold parse_values.
  pose proof (sensor_value_fold_tables data (ev3 w) 5 (seq 0 4)) as Ht.
  revert Ht. cbv zeta.
  generalize (foldl (sensor_value_step data) (ev3 w, 5%nat) (seq 0 4)).
  intros [e o] (_ & Hmp & Hmo). cbn [fst] in Hmp, Hmo.
  pose proof (motor_position_fold_ev3 data (with_ev3 e w) o (seq 0 4)) as He.
  revert He. generalize (foldl (motor_position_step data) (with_ev3 e w, o) (seq 0 4)).
  intros [w' o'] He. cbn [fst ev3 with_ev3] in He.
  unfold same_motor_tables. now rewrite He.
Qed.

Lemma parse_values_unset data w :
  _sensorPorts (ev3 w) = [] ->
  (forall i, JS.get (_motors (ev3 w)) i = None) ->
  parse_values data w = w.
Proof.
  intros Hs Hm. unfold parse_values.
  pose proof (sensor_value_fold_unset data (ev3 w) 5 (seq 0 4) Hs) as He.
  revert He. generalize (foldl (sensor_value_step data) (ev3 w, 5%nat) (seq 0 4)).
  intros [e o] He. cbn [fst] in He. subst e. rewrite with_ev3_same.
  pose proof (motor_position_fold_unset data w o (seq 0 4) Hm) as Hw.
  revert Hw. generalize (foldl (motor_position_step data) (w, o) (seq 0 4)).
  now intros [w1 o1] Hw.
Qed.

Lemma onMessage_same_or_discovered bytes w :
  same_motor_tables w (_onMessage bytes w) \/ _motorPorts (ev3 (_onMessage bytes w)) ≠ [].
Proof.
  destruct (decide (bytes !! 4%nat = Some Ev3Command.DIRECT_REPLY)) as [Htag | Htag].
  2: { rewrite onMessage_other_tag by assumption. left. apply same_motor_tables_refl. }
  destruct (_updateDevices (ev3 w)) eqn:Hu.
  - right. rewrite onMessage_device_list by assumption.
    destruct (parse_device_list_kept (JS.of_bytes bytes) w) as (_ & _ & Hp).
    intros Hnil. specialize (Hp 0%nat ltac:(lia)). rewrite Hnil in Hp. clear Hnil.
    discriminate Hp.
  - left. rewrite onMessage_value by assumption.
    destruct (negb _ && negb _); [apply parse_values_tables | apply same_motor_tables_refl].
Qed.

Lemma reset_no_motor w : forall i, JS.get (_motors (ev3 (reset w))) i = None.
Proof.
  intros i. unfold reset. cbn [_pollingIntervalID with_motors with_sensors
    with_motorPorts with_sensorPorts].
  assert (H : JS.get ([None; None; None; None] : JS.array nat) i = None)
    by (destruct i as [| [| [| [| [| i]]]]]; reflexivity).
  destruct (_pollingIntervalID (ev3 w)) as [[| n] |]; cbn; exact H.
Qed.

Lemma step_invariant w w' :
  step w w' -> no_motor_before_discovery w -> no_motor_before_discovery w'.
Proof.
  intros Hstep. destruct Hstep;
    try (apply same_motor_tables_inv;
         first [ apply turnOnFor_same | apply coast_same | apply fire_next_same
               | apply pollValues_same | apply send_same
               | split; reflexivity ]).
  - (* _onMessage *)
    destruct (onMessage_same_or_discovered bytes w) as [Hs | Hd].
    + now apply same_motor_tables_inv.
    + intros _ Hnil. contradiction.
  - (* reset *) intros _ _. apply reset_no_motor.
  - (* disconnect *) intros _ _. unfold disconnect. apply reset_no_motor.
  - (* stopAll *)
    apply same_motor_tables_inv. unfold stopAll, stopSound.
    eapply same_motor_tables_trans; [apply stopAllMotors_same | apply send_same].
Qed.

Lemma reachable_invariant w : reachable w -> no_motor_before_discovery w.
Proof.
  intros [l Hr]. revert w Hr. apply rtc_ind_r.
  - intros _ i. now destruct i as [| [| [| [| [| i]]]]].
  - intros w1 w2 _ Hstep IH. eapply step_invariant; eassumption.
Qed.

(** C6: while the sensor and motor port tables are still empty, a
    success-tagged reply changes no sensor reading, no button flag and no
    motor object (so no motor position). When the reply is taken as a
    value-poll reply ([_updateDevices] is not set) the whole state is as
    it was: the test on [includes(undefined)] lets the empty tables
    through, but no port has a label and no motor is referenced. *)
Theorem onMessage_before_discovery w bytes :
  reachable w ->
  _sensorPorts (ev3 w) = [] -> _motorPorts (ev3 w) = [] ->
  bytes !! 4%nat = Some Ev3Command.DIRECT_REPLY ->
  let w' := _onMessage bytes w in
  _sensors (ev3 w') = _sensors (ev3 w)
  /\ (forall r this, heap w !! r = Some this -> heap w' !! r = Some this)
  /\ (_updateDevices (ev3 w) = false -> w' = w).
Proof.
  intros Hreach Hs Hm Htag w'. subst w'.
  destruct (_updateDevices (ev3 w)) eqn:Hu.
  - rewrite onMessage_device_list by assumption.
    destruct (parse_device_list_kept (JS.of_bytes bytes) w) as (Hse & Hh & _).
    split; [exact Hse |]. split; [| discriminate].
    intros r this Hr. eapply prefix_lookup_Some; eassumption.
  - rewrite onMessage_value by assumption. rewrite Hs, Hm.
    cbn [JS.includes_undefined existsb negb andb].
    rewrite parse_values_unset; auto.
    now apply reachable_invariant.
Qed.

End Gating.

Lemma onMessage_before_discovery_witness :
  _onMessage [0; 0; 0; 0; 2; 0; 0; 128; 63] (scan (initial limiter40))
  = scan (initial limiter40).
Proof.
  destruct (onMessage_before_discovery (scan (initial limiter40))
              [0; 0; 0; 0; 2; 0; 0; 128; 63]) as (_ & _ & H).
  - exists limiter40. apply rtc_once. apply step_scan.
  - reflexivity.
  - reflexivity.
  - reflexivity.
  - apply H. reflexivity.
Defined.

(** ** The lifetime of motor objects *)

Section MotorLifetime.
Context {L : Type} `{!RateLimiter L}.
Implicit Types (w : Runtime L) (bytes : list Z).

(** Only a device-list reply, [reset] and [disconnect] change a motor
    reference. *)
Lemma step_motors_changed w1 w2 :
  step w1 w2 -> _motors (ev3 w2) ≠ _motors (ev3 w1) ->
  (exists reply, w2 = _onMessage reply w1 /\ _updateDevices (ev3 w1) = true
                 /\ reply !! 4%nat = Some Ev3Command.DIRECT_REPLY)
  \/ w2 = reset w1 \/ w2 = disconnect w1.
Proof.
  intros Hstep Hne. destruct Hstep.
  - (* scan *) exfalso. now apply Hne.
  - (* link *) exfalso. now apply Hne.
  - (* _onConnect *) exfalso. now apply Hne.
  - (* _pollValues *) exfalso. apply Hne. apply pollValues_same.
  - (* _onMessage *)
    destruct (decide (bytes !! 4%nat = Some Ev3Command.DIRECT_REPLY)) as [Htag | Htag].
    2: { exfalso. apply Hne. now rewrite onMessage_other_tag. }
    destruct (_updateDevices (ev3 w)) eqn:Hu.
    + left. exists bytes. auto.
    + exfalso. apply Hne. rewrite onMessage_value by assumption.
      destruct (negb _ && negb _); [apply parse_values_tables | reflexivity].
  - (* reset *) right. now left.
  - (* disconnect *) right. now right.
  - (* beep *) exfalso. apply Hne. apply send_same.
  - (* stopAll *)
    exfalso. apply Hne. unfold stopAll, stopSound.
    apply (same_motor_tables_trans w (stopAllMotors w));
      [apply stopAllMotors_same | apply send_same].
  - (* direction *) exfalso. now apply Hne.
  - (* power *) exfalso. now apply Hne.
  - (* turnOnFor *) exfalso. apply Hne. apply turnOnFor_same.
  - (* coast *) exfalso. apply Hne. apply coast_same.
  - (* timer *) exfalso. apply Hne. apply fire_next_same.
  - (* time passes *) exfalso. now apply Hne.
Qed.

(** C8: when a device-list reply is processed, the type reported for
    motor port [m] is the device name that [Ev3Device] has for byte
    [21 + m] of the reply (['none'] for a byte that names no device); it
    is entered in the motor port table, and the port ends with a motor
    instance exactly when that type is not ['none']: a missing instance
    is created as a new motor object of the reported type on port [m],
    an instance that was there is kept, and a report of ['none'] removes
    the instance. Discovery is not the only authority over the
    instances: [reset], also through [disconnect], removes them all; no
    other step of a session changes a motor reference. *)
Theorem device_list_motor_lifecycle w bytes (m : nat) :
  _updateDevices (ev3 w) = true ->
  bytes !! 4%nat = Some Ev3Command.DIRECT_REPLY ->
  (m < 4)%nat ->
  let w' := _onMessage bytes w in
  let reported := default "none"%string (bytes !! (m + 21)%nat ≫= (Ev3Device !!.)) in
  JS.get (_motorPorts (ev3 w')) m = Some reported
  /\ (is_Some (motor (ev3 w') m) <-> reported ≠ "none"%string)
  /\ (reported ≠ "none"%string -> motor (ev3 w) m = None ->
      exists r, motor (ev3 w') m = Some r
                /\ heap w !! r = None
                /\ heap w' !! r = Some (new_EV3Motor m (Some reported)))
  /\ (reported ≠ "none"%string -> is_Some (motor (ev3 w) m) ->
      motor (ev3 w') m = motor (ev3 w) m)
  /\ (reported = "none"%string -> motor (ev3 w') m = None)
  /\ (forall i, motor (ev3 (reset w')) i = None)
  /\ (forall i, motor (ev3 (disconnect w')) i = None)
  /\ (forall w1 w2 : Runtime L, step w1 w2 -> _motors (ev3 w2) ≠ _motors (ev3 w1) ->
        (exists reply, w2 = _onMessage reply w1 /\ _updateDevices (ev3 w1) = true
                       /\ reply !! 4%nat = Some Ev3Command.DIRECT_REPLY)
        \/ w2 = reset w1 \/ w2 = disconnect w1).
Proof.
  intros Hu Htag Hm. cbv zeta.
  pose proof (onMessage_motor_lifecycle w bytes m Hu Htag Hm) as H.
  assert (Hp : JS.get (_motorPorts (ev3 (_onMessage bytes w))) m
               = Some (reported_motor_type bytes m)).
  { rewrite onMessage_device_list by assumption.
    destruct (parse_device_list_kept (JS.of_bytes bytes) w) as (_ & _ & Hp).
    now apply Hp. }
  assert (Hdecode : reported_motor_type bytes m
                    = default "none"%string (bytes !! (m + 21)%nat ≫= (Ev3Device !!.))).
  { (* no device name of the table is falsy *)
    unfold reported_motor_type, device_or_none. rewrite js_get_of_bytes.
    destruct (bytes !! (m + 21)%nat ≫= (Ev3Device !!.)) as [name |] eqn:E; [| reflexivity].
    destruct (bytes !! (m + 21)%nat) as [c |]; [| discriminate E].
    change (Ev3Device !! c = Some name) in E. unfold Ev3Device in E.
    apply elem_of_list_to_map_2 in E.
    repeat (apply elem_of_cons in E as [E | E]; [injection E as _ ->; reflexivity |]).
    now apply elem_of_nil in E. }
  revert H Hp. cbv zeta. rewrite Hdecode.
  generalize (_onMessage bytes w). intros w' (Hiff & Hnew & Hkeep & Hnone) Hp.
  split; [exact Hp |]. split; [exact Hiff |]. split; [exact Hnew |].
  split; [exact Hkeep |]. split; [exact Hnone |].
  split; [apply reset_no_motor |].
  split; [intros i; unfold disconnect; apply reset_no_motor |].
  apply step_motors_changed.
Qed.

End MotorLifetime.

Lemma device_list_motor_lifecycle_witness :
  motor (ev3 (_onMessage (device_list_reply [126; 126; 126; 126] [126; 126; 7; 126])
                         awaiting_devices)) 2 = Some 0%nat
  /\ heap awaiting_devices !! 0%nat = None
  /\ heap (_onMessage (device_list_reply [126; 126; 126; 126] [126; 126; 7; 126])
                      awaiting_devices) !! 0%nat
     = Some (new_EV3Motor 2 (Some "largeMotor"%string)).
Proof.
  destruct (device_list_motor_lifecycle awaiting_devices
              (device_list_reply [126; 126; 126; 126] [126; 126; 7; 126]) 2)
    as (_ & _ & Hnew & _); [reflexivity | reflexivity | lia |].
  destruct Hnew as (r & Hr & Hfresh & Hobject); [vm_compute; discriminate | reflexivity |].
  assert (Hr0 : r = 0%nat) by (vm_compute in Hr; now injection Hr).
  rewrite Hr0 in Hr, Hfresh, Hobject. auto.
Defined.

(** C8, as the claim has it, fails on [reset]: in a session whose only
    device-list reply reports a large motor on port A (type byte 7), the
    motor instance is there after the reply and gone after a [reset],
    with no reply that reports ['none']. *)
Lemma reset_ends_motor_lifetime :
  reachable first_discovery
  /\ default "none"%string
       (device_list_reply [16; 30; 29; 30] [7; 126; 126; 126] !! 21%nat ≫= (Ev3Device !!.))
     = "largeMotor"%string
  /\ motor (ev3 first_discovery) 0 = Some 0%nat
  /\ step first_discovery (reset first_discovery)
  /\ motor (ev3 (reset first_discovery)) 0 = None.
Proof.
  split; [| split; [| split; [| split]]].
  - exists limiter40. unfold first_discovery.
    eapply rtc_r; [| apply step_message].
    eapply rtc_r; [| apply step_poll].
    eapply rtc_r; [apply rtc_once, step_scan |].
    apply (step_link _ {| bt_connected := false; bt_sent := [] |} true). reflexivity.
  - vm_compute. reflexivity.
  - vm_compute. reflexivity.
  - apply step_reset.
  - vm_compute. reflexivity.
Qed.

(** ** The coast race *)

Section CoastRace.
Context {L : Type} `{!RateLimiter L}.
Implicit Types (w : Runtime L) (this : EV3Motor).

(** What a send leaves alone. *)
Lemma send_frame message useLimiter w :
  let w' := (send message useLimiter w).2 in
  heap w' = heap w /\ timers w' = timers w /\ clock w' = clock w
  /\ uid_next w' = uid_next w /\ isConnected w' = isConnected w.
Proof.
  unfold send, sendMessage, isConnected.
  destruct (_bt (ev3 w)) as [bt |] eqn:Hbt; cbn [negb]; [| cbn; now rewrite Hbt].
  destruct (bt_connected bt) eqn:Hc; cbn [negb]; [| cbn; now rewrite Hbt, Hc].
  destruct useLimiter; [destruct (okayToSend _ _) as [[|] l] |];
    cbn; rewrite ?Hbt; cbn; auto.
Qed.

(** [turnOnFor] on a motor with power: the motor takes a new command id
    and a coast timer is queued for it. *)
Lemma turnOnFor_effect w (r : nat) this (ms : Z) :
  heap w !! r = Some this -> _power this ≠ 0 ->
  let w' := turnOnFor r ms w in
  heap w' = <[r := with_commandID (Some (uid_next w)) this]> (heap w)
  /\ timers w'
     = enqueue {| due := clock w + Z.max 0 (ms + _coastDelay this);
                  t_motor := r; t_commandId := uid_next w |} (timers w)
  /\ clock w' = clock w
  /\ uid_next w' = S (uid_next w)
  /\ isConnected w' = isConnected w.
Proof.
  intros Hr Hp. unfold turnOnFor. rewrite Hr.
  destruct (Z.eqb_spec (_power this) 0) as [? | _]; [contradiction |].
  pose proof (send_frame
                (generateCommand Ev3Command.DIRECT_COMMAND_NO_REPLY
                   (turnOnFor_bytes this ms) 0) true w) as H.
  revert H. cbv zeta. generalize (send
                (generateCommand Ev3Command.DIRECT_COMMAND_NO_REPLY
                   (turnOnFor_bytes this ms) 0) true w).2.
  intros w1 (Hh & Ht & Hc & Hu & Hi).
  unfold coastAfter. rewrite Hh, Hr.
  destruct (Z.eqb_spec (_power this) 0) as [? | _]; [contradiction |].
  unfold uid, setTimeout, isConnected in *. cbn. rewrite Hh, Ht, Hc, Hu. auto.
Qed.

(** A callback whose command id is no longer the motor's does nothing. *)
Lemma coast_callback_stale w (r : nat) this (commandId : nat) :
  heap w !! r = Some this -> _commandID this ≠ Some commandId ->
  coast_callback r commandId w = w.
Proof.
  intros Hr Hne. unfold coast_callback. rewrite Hr.
  now rewrite bool_decide_eq_false_2.
Qed.

(** A callback whose command id is still the motor's coasts: on a
    connected transport the coast frame is sent, and the motor's command
    id is cleared. *)
Lemma coast_callback_live w (r : nat) this (commandId : nat) :
  heap w !! r = Some this -> _commandID this = Some commandId ->
  _power this ≠ 0 -> isConnected w = true ->
  let w' := coast_callback r commandId w in
  sent_log w' = sent_log w ++ [coast_frame this]
  /\ heap w' = alter (with_commandID None) r (heap w)
  /\ timers w' = timers w
  /\ clock w' = clock w.
Proof.
  intros Hr Hid Hp Hc. unfold coast_callback. rewrite Hr.
  rewrite bool_decide_eq_true_2 by assumption.
  unfold coast. rewrite Hr.
  destruct (Z.eqb_spec (_power this) 0) as [? | _]; [contradiction |].
  unfold isConnected in Hc. destruct (_bt (ev3 w)) as [bt |] eqn:Hbt; [| discriminate].
  rewrite (send_unlimited _ w bt) by assumption.
  unfold sent_log, isConnected. cbn. rewrite Hbt. auto.
Qed.

Lemma fire_next_cons w (t : Timer) (q : list Timer) :
  timers w = t :: q ->
  fire_next w
  = coast_callback (t_motor t) (t_commandId t)
      (with_clock (Z.max (clock w) (due t)) (with_timers q w)).
Proof. intros Ht. unfold fire_next. now rewrite Ht. Qed.

(** Two pending coasts of one motor, of which the motor holds the later
    command id: whichever fires first, one coast frame is sent. *)
Lemma two_coasts_one_frame w (r : nat) this (first second : nat) (t1 t2 : Timer) :
  heap w !! r = Some this -> _commandID this = Some second -> first ≠ second ->
  _power this ≠ 0 -> isConnected w = true ->
  t_motor t1 = r -> t_commandId t1 = first ->
  t_motor t2 = r -> t_commandId t2 = second ->
  timers w = [t1; t2] \/ timers w = [t2; t1] ->
  sent_log (run_timers 2 w) = sent_log w ++ [coast_frame this]
  /\ timers (run_timers 2 w) = [].
Proof.
  intros Hr Hid Hne Hp Hc Hm1 Hc1 Hm2 Hc2 Horder.
  change (run_timers 2 w) with (fire_next (fire_next w)).
  assert (Hstale : _commandID this ≠ Some first) by congruence.
  destruct Horder as [Ht | Ht]; rewrite (fire_next_cons w _ _ Ht).
  - (* the stale callback first *)
    rewrite Hm1, Hc1.
    rewrite (coast_callback_stale _ r this first) by assumption.
    set (wa := with_clock _ _).
    rewrite (fire_next_cons wa t2 []) by reflexivity. rewrite Hm2, Hc2.
    destruct (coast_callback_live
                (with_clock (Z.max (clock wa) (due t2)) (with_timers [] wa))
                r this second Hr Hid Hp Hc) as (Hs & _ & Htm & _).
    split; [exact Hs | exact Htm].
  - (* the live callback first *)
    rewrite Hm2, Hc2.
    set (wa := with_clock _ _).
    destruct (coast_callback_live wa r this second Hr Hid Hp Hc) as (Hs & Hh & Htm & _).
    revert Hs Hh Htm. generalize (coast_callback r second wa).
    intros wb Hs Hh Htm. subst wa. cbn [heap timers with_clock with_timers] in Hh, Htm.
    rewrite (fire_next_cons wb t1 [] Htm), Hm1, Hc1.
    rewrite (coast_callback_stale _ r (with_commandID None this) first).
    + split; [exact Hs | reflexivity].
    + cbn [heap with_clock with_timers].
      rewrite Hh, list_lookup_alter, Hr. now rewrite decide_True.
    + discriminate.
Qed.

(** C7: on a motor with power, [turnOnFor(100)] followed at once by
    [turnOnFor(50)] queues two coast callbacks and leaves the motor with
    the command id of the second. The callback of the first finds another
    command id and does nothing; the callback of the second coasts. Once
    both have fired, exactly one coast frame has gone to the (connected)
    transport; with the second coast due first, as the coast delay of 1000
    makes it, the frame goes out when the second timer is due. *)
Theorem coast_race w (r : nat) this :
  heap w !! r = Some this -> _power this ≠ 0 ->
  timers w = [] -> isConnected w = true ->
  let first := uid_next w in
  let second := S (uid_next w) in
  let t1 := {| due := clock w + Z.max 0 (100 + _coastDelay this);
               t_motor := r; t_commandId := first |} in
  let t2 := {| due := clock w + Z.max 0 (50 + _coastDelay this);
               t_motor := r; t_commandId := second |} in
  let w2 := turnOnFor r 50 (turnOnFor r 100 w) in
  (exists m2, heap w2 !! r = Some m2 /\ _commandID m2 = Some second)
  /\ timers w2 = (if due t2 <? due t1 then [t2; t1] else [t1; t2])
  /\ coast_callback r first w2 = w2
  /\ sent_log (coast_callback r second w2) = sent_log w2 ++ [coast_frame this]
  /\ sent_log (run_timers 2 w2) = sent_log w2 ++ [coast_frame this]
  /\ timers (run_timers 2 w2) = []
  /\ (due t2 < due t1 ->
      sent_log (run_timers 1 w2) = sent_log w2 ++ [coast_frame this]
      /\ clock (run_timers 1 w2) = due t2).
Proof.
  intros Hr Hp Ht Hc first second t1 t2 w2.
  destruct (turnOnFor_effect w r this 100 Hr Hp) as (Hh1 & Ht1 & Hc1 & Hu1 & Hi1).
  revert Hh1 Ht1 Hc1 Hu1 Hi1. subst w2. generalize (turnOnFor r 100 w).
  intros w1 Hh1 Ht1 Hc1 Hu1 Hi1. rewrite Ht in Ht1. cbn [enqueue] in Ht1.
  set (this1 := with_commandID (Some first) this) in *.
  assert (Hr1 : heap w1 !! r = Some this1).
  { rewrite Hh1. apply list_lookup_insert_eq. eapply lookup_lt_Some; eassumption. }
  destruct (turnOnFor_effect w1 r this1 50 Hr1 Hp) as (Hh2 & Ht2 & Hk2 & _ & Hi2).
  revert Hh2 Ht2 Hk2 Hi2. generalize (turnOnFor r 50 w1).
  intros w2 Hh2 Ht2 Hk2 Hi2.
  rewrite Ht1, Hc1, Hu1 in Ht2. cbn [enqueue due _coastDelay this1 with_commandID] in Ht2.
  rewrite Hu1 in Hh2.
  set (m2 := with_commandID (Some second) this1) in *.
  assert (Hr2 : heap w2 !! r = Some m2).
  { rewrite Hh2. apply list_lookup_insert_eq. eapply lookup_lt_Some; eassumption. }
  assert (Hne : first ≠ second) by (subst first second; lia).
  assert (Hc2 : isConnected w2 = true) by congruence.
  split; [exists m2; split; [exact Hr2 | reflexivity] |].
  split; [exact Ht2 |].
  split; [apply (coast_callback_stale w2 r m2 first Hr2); cbn; congruence |].
  split.
  - now destruct (coast_callback_live w2 r m2 second Hr2 eq_refl Hp Hc2) as (Hs & _).
  - destruct (two_coasts_one_frame w2 r m2 first second t1 t2) as [Hs Hq];
      try assumption; try reflexivity.
    { rewrite Ht2. subst t1 t2. cbn [due]. destruct (_ <? _); auto. }
    split; [exact Hs |]. split; [exact Hq |].
    intros Hdue. change (run_timers 1 w2) with (fire_next w2).
    assert (Hq2 : timers w2 = [t2; t1]).
    { rewrite Ht2. unfold t1, t2 in Hdue |- *. cbn [due] in Hdue.
      match goal with |- context [?a <? ?b] => destruct (Z.ltb_spec a b) end;
        [reflexivity | lia]. }
    rewrite (fire_next_cons w2 t2 [t1] Hq2).
    destruct (coast_callback_live
                (with_clock (Z.max (clock w2) (due t2)) (with_timers [t1] w2))
                r m2 second Hr2 eq_refl Hp Hc2) as (Hs1 & _ & _ & Hk).
    split; [exact Hs1 |]. cbn [t_motor t_commandId t2] in *. rewrite Hk.
    cbn [clock with_clock]. rewrite Hk2, Hc1. subst t2. cbn [due]. lia.
Qed.

End CoastRace.

Lemma coast_race_witness :
  let w2 := turnOnFor 0 50 (turnOnFor 0 100 one_motor) in
  sent_log (run_timers 2 w2)
  = sent_log w2 ++ [coast_frame (new_EV3Motor 0 (Some "largeMotor"%string))].
Proof.
  destruct (coast_race one_motor 0 (new_EV3Motor 0 (Some "largeMotor"%string)))
    as (_ & _ & _ & _ & H & _).
  - reflexivity.
  - discriminate.
  - reflexivity.
  - reflexivity.
  - exact H.
Defined.

(** The same run, evaluated: the coast of the second command is due first
    (at 1050 ms, before the 1100 ms of the first), and the transport gets
    the two run frames and one coast frame. *)
Example coast_race_run :
  let w2 := turnOnFor 0 50 (turnOnFor 0 100 one_motor) in
  timers w2 = [ {| due := 1050; t_motor := 0; t_commandId := 1 |};
                {| due := 1100; t_motor := 0; t_commandId := 0 |} ]
  /\ length (sent_log w2) = 2%nat
  /\ sent_log (run_timers 2 w2)
     = sent_log w2 ++ [[Some 9; Some 0; Some 0; Some 0; Some 0x80; Some 0; Some 0;
                        Some 0xA3; Some 0; Some 1; Some 0]]
  /\ clock (run_timers 2 w2) = 1100.
Proof. vm_compute. auto. Qed.

(** ** The distance accessor *)

Section Distance.
Context {L : Type}.

Lemma Prim2SF_100 : Prim2SF 100 = S754_finite false 7036874417766400 (-46).
Proof. vm_compute. reflexivity. Qed.

Lemma Prim2SF_0 : Prim2SF 0 = S754_zero false.
Proof. vm_compute. reflexivity. Qed.

(** The order of binary64: what is neither above 100 nor below 0, and is a
    number, lies between 0 and 100. *)
Lemma SF_between_0_100 (x : spec_float) :
  SFeqb x x = true ->
  SFltb (S754_finite false 7036874417766400 (-46)) x = false ->
  SFltb x (S754_zero false) = false ->
  SFleb (S754_zero false) x = true
  /\ SFleb x (S754_finite false 7036874417766400 (-46)) = true.
Proof.
  unfold SFltb, SFleb, SFeqb, SFcompare.
  destruct x as [s | s | | s m e]; try destruct s; try discriminate; auto.
  rewrite (Z.compare_antisym e (-46)).
  destruct (e ?= -46)%Z; cbn [CompOpp]; try discriminate; auto.
  change (PosDef.Pos.compare_cont Eq 7036874417766400 m)
    with (Pos.compare_cont (CompOpp Eq) 7036874417766400 m).
  rewrite <- (Pos.compare_cont_antisym m 7036874417766400 Eq).
  destruct (Pos.compare_cont Eq m 7036874417766400); cbn [CompOpp]; try discriminate; auto.
Qed.

Lemma clamped_distance_range (raw : float) :
  is_nan raw = false ->
  (0 <=? clamped_distance raw)%float = true /\ (clamped_distance raw <=? 100)%float = true.
Proof.
  intros Hn. unfold is_nan in Hn. rewrite FloatAxioms.eqb_spec in Hn.
  apply Bool.negb_false_iff in Hn.
  unfold clamped_distance. rewrite !FloatAxioms.ltb_spec, Prim2SF_100, Prim2SF_0.
  destruct (SFltb (S754_finite _ _ _) (Prim2SF raw)) eqn:E1; [split; reflexivity |].
  destruct (SFltb (Prim2SF raw) (S754_zero false)) eqn:E2; [split; reflexivity |].
  rewrite !FloatAxioms.leb_spec, Prim2SF_100, Prim2SF_0. now apply SF_between_0_100.
Qed.

(** C9: the distance accessor is a function of the peripheral that gives
    a number and no new state, so that the stored value stays as it is.
    The number is the stored value clamped (100 when it is above 100, 0
    when it is below 0), multiplied by 100, rounded to the nearest integer
    and divided by 100; the clamped value of a stored number (not NaN) lies
    between 0 and 100. On binary64 numbers a stored 150 is exposed as 100,
    a stored -5 as 0 and a stored 42.345 as 42.35. *)
Theorem distance_clamps_and_rounds (e : EV3 L) :
  distance (with_raw_distance 150 e) = 100%float
  /\ distance (with_raw_distance (-5) e) = 0%float
  /\ distance (with_raw_distance 0x1.52c28f5c28f5cp+5 e) = 0x1.52ccccccccccdp+5%float
  /\ forall raw : float,
       distance (with_raw_distance raw e)
       = (JS.round (100 * clamped_distance raw) / 100)%float
       /\ (is_nan raw = false ->
           (0 <=? clamped_distance raw)%float = true
           /\ (clamped_distance raw <=? 100)%float = true).
Proof.
  split; [reflexivity |]. split; [reflexivity |]. split; [reflexivity |].
  intros raw. split; [| apply clamped_distance_range].
  unfold distance, with_raw_distance, clamped_distance.
  cbn [_sensors with_sensors s_distance with_s_distance].
  now destruct (100 <? raw)%float.
Qed.

(** The binary64 numbers written 42.345 and 42.35 in decimal. *)
Example decimal_42_345 :
  (0x1.52c28f5c28f5cp+5 =? 42345 / 1000)%float = true
  /\ (0x1.52ccccccccccdp+5 =? 4235 / 100)%float = true.
Proof. split; reflexivity. Qed.

End Distance.

Lemma distance_clamps_and_rounds_witness :
  (0 <=? clamped_distance 150)%float = true
  /\ (clamped_distance 150 <=? 100)%float = true.
Proof.
  destruct (distance_clamps_and_rounds (new_EV3 limiter40)) as (_ & _ & _ & H).
  destruct (H 150%float) as [_ Hrange]. apply Hrange. reflexivity.
Defined.

(** * Further properties *)

(** ** The layout of a frame *)

Lemma generateCommand_cells (type : Z) (byteCommands : JS.array Z) (allocation : Z) :
  let len := Z.of_nat (length byteCommands) + 5 in
  generateCommand type byteCommands allocation
  = [ Some (JS.band len 0xFF); Some (JS.and_and (JS.shr len 8) 0xFF);
      Some 0; Some 0; Some type;
      Some (JS.band allocation 0xFF); Some (JS.and_and (JS.shr allocation 8) 0xFF) ]
    ++ byteCommands.
Proof.
  unfold generateCommand.
  set (body := _ ++ byteCommands).
  assert (Hlen : Z.of_nat (length body) - 2 = Z.of_nat (length byteCommands) + 5).
  { subst body. rewrite length_app, !js_set_length. simpl. lia. }
  rewrite Hlen. subst body. reflexivity.
Qed.

(** X1: a frame is the seven header cells followed by the byte commands as
    they were given: the message counter (bytes 2 and 3) is 0, byte 4 is
    the command type, byte 5 the low byte of the allocation, and the
    payload can be read back from byte 7 on. No header cell is left
    undefined. *)
Theorem generateCommand_layout (type : Z) (byteCommands : JS.array Z) (allocation : Z) :
  let frame := generateCommand type byteCommands allocation in
  drop 7 frame = byteCommands
  /\ length frame = (7 + length byteCommands)%nat
  /\ JS.get frame 2 = Some 0 /\ JS.get frame 3 = Some 0
  /\ JS.get frame 4 = Some type
  /\ JS.get frame 5 = Some (allocation mod 256)
  /\ (forall i, (i < 7)%nat -> JS.defined (JS.get frame i) = true)
  /\ (forall i, JS.get frame (7 + i) = JS.get byteCommands i).
Proof.
  cbv zeta. rewrite generateCommand_cells. cbv zeta.
  repeat split; try reflexivity.
  - cbn. now rewrite band_255.
  - intros i Hi. destruct i as [| [| [| [| [| [| [| i]]]]]]]; try reflexivity. lia.
Qed.

(** X2: the length field of a frame with fewer than 251 payload bytes is
    the frame length minus 2, that is the payload length plus the 5 header
    bytes that follow the field. *)
Theorem generateCommand_length_field_short
    (type : Z) (byteCommands : JS.array Z) (allocation : Z) :
  (length byteCommands < 251)%nat ->
  let frame := generateCommand type byteCommands allocation in
  length_field_ok frame
  /\ lenField frame = Some (Z.of_nat (length byteCommands) + 5)
  /\ JS.get frame 1 = Some 0.
Proof.
  intros Hlen frame. subst frame. unfold length_field_ok.
  rewrite generateCommand_lenField_short by assumption.
  rewrite generateCommand_length. split; [reflexivity |]. split; [f_equal; lia |].
  rewrite generateCommand_cells. cbv zeta. cbn.
  rewrite shr_div, to_int32_small by lia.
  rewrite Z.div_small by lia. reflexivity.
Qed.

Lemma generateCommand_length_field_short_witness :
  length_field_ok (generateCommand 0x80 [Some 0x94; Some 0] 0).
Proof.
  destruct (generateCommand_length_field_short 0x80 [Some 0x94; Some 0] 0) as [H _];
    [simpl; lia | exact H].
Defined.

(** X3: with 251 payload bytes or more the high byte of the length field
    is 0xFF, and as long as the length stays below 65280 the field is not
    the frame length minus 2. *)
Theorem generateCommand_length_field_long
    (type : Z) (byteCommands : JS.array Z) (allocation : Z) :
  (251 <= length byteCommands)%nat ->
  Z.of_nat (length byteCommands) + 5 < 65280 ->
  let frame := generateCommand type byteCommands allocation in
  JS.get frame 1 = Some 0xFF
  /\ lenField frame = Some ((Z.of_nat (length byteCommands) + 5) mod 256 + 65280)
  /\ ~ length_field_ok frame.
Proof.
  intros Hlen Hmax frame. subst frame. unfold length_field_ok.
  rewrite generateCommand_lenField_long, generateCommand_length by lia.
  split; [| split; [reflexivity |]].
  - rewrite generateCommand_cells. cbv zeta. cbn.
    rewrite shr_div, to_int32_small by lia. unfold JS.and_and.
    destruct (Z.eqb_spec ((Z.of_nat (length byteCommands) + 5) / 2 ^ 8) 0) as [H0 | H0];
      [| reflexivity].
    apply Z.div_small_iff in H0; lia.
  - intros H. injection H as H.
    pose proof (Z.mod_pos_bound (Z.of_nat (length byteCommands) + 5) 256 ltac:(lia)). lia.
Qed.

Lemma generateCommand_length_field_long_witness :
  ~ length_field_ok (generateCommand 0x00 (replicate 300 (Some 1)) 4).
Proof.
  destruct (generateCommand_length_field_long 0x00 (replicate 300 (Some 1)) 4)
    as (_ & _ & H); [rewrite length_replicate; lia | rewrite length_replicate; lia | exact H].
Defined.

(** X4: the allocation field holds the allocation itself when it is below
    256; from 256 on (up to 2^31) its high byte is 0xFF whatever the
    allocation is. *)
Theorem generateCommand_allocation_field
    (type : Z) (byteCommands : JS.array Z) (allocation : Z) :
  0 <= allocation < 2 ^ 31 ->
  let frame := generateCommand type byteCommands allocation in
  (allocation < 256 -> allocField frame = Some allocation /\ JS.get frame 6 = Some 0)
  /\ (256 <= allocation ->
      JS.get frame 6 = Some 0xFF
      /\ allocField frame = Some (allocation mod 256 + 65280)).
Proof.
  intros Ha frame. subst frame. rewrite generateCommand_cells. cbv zeta.
  unfold allocField. cbn. rewrite band_255, shr_div, to_int32_small by lia.
  unfold JS.and_and. split; intros H.
  - rewrite Z.div_small, Z.mod_small by lia. cbn. split; [f_equal; lia | reflexivity].
  - destruct (Z.eqb_spec (allocation / 2 ^ 8) 0) as [H0 | H0].
    + apply Z.div_small_iff in H0; lia.
    + split; [reflexivity | f_equal; lia].
Qed.

Lemma generateCommand_allocation_field_witness :
  allocField (generateCommand 0x00 [] 33) = Some 33.
Proof.
  destruct (generateCommand_allocation_field 0x00 [] 33) as [H _]; [lia |].
  destruct H as [H _]; [lia | exact H].
Defined.

(** ** The run command of a motor *)

(** X5: [turnOnFor] splits the absolute duration into ramp up, steady run
    and ramp down without losing a millisecond: the three add up to it,
    none is negative and no ramp exceeds 50. From 100 ms on both ramps are
    50; below, the steady run is 0, the ramp up is half the duration
    rounded down and the ramp down takes the rest. *)
Theorem turnOnFor_phases_split (power direction milliseconds : Z) :
  let rampup := (turnOnFor_phases power direction milliseconds).1.1.2 in
  let run := (turnOnFor_phases power direction milliseconds).1.2 in
  let rampdown := (turnOnFor_phases power direction milliseconds).2 in
  rampup + run + rampdown = Z.abs milliseconds
  /\ 0 <= rampup <= 50 /\ 0 <= run /\ 0 <= rampdown <= 50
  /\ (if Z.abs milliseconds <? 100
      then rampup = Z.abs milliseconds / 2 /\ run = 0
           /\ rampdown = Z.abs milliseconds - Z.abs milliseconds / 2
      else rampup = 50 /\ run = Z.abs milliseconds - 100 /\ rampdown = 50).
Proof.
  cbv zeta. unfold turnOnFor_phases, JS.abs, JS.floor_half, Ev3Args.RAMP.
  assert (Habs : Z.abs (-1 * milliseconds) = Z.abs milliseconds)
    by (rewrite <- Z.abs_opp; f_equal; lia).
  destruct (power * direction <? 0); rewrite ?Habs;
    pose proof (Z.abs_nonneg milliseconds) as Hn;
    generalize dependent (Z.abs milliseconds); intros n _ Hn;
    destruct (Z.ltb_spec (n - 50 * 2) 0); destruct (Z.ltb_spec n 100); try lia;
    cbn [fst snd];
    pose proof (Z.div_mod n 2 ltac:(lia)); pose proof (Z.mod_pos_bound n 2 ltac:(lia));
    repeat split; lia.
Qed.

(** X6: the speed byte of the run command is the signed speed as one
    two's-complement byte, where the sign is the product of the signs of
    the duration and of the motor's speed (power times direction): forward
    it is the power, backward 256 minus the power. *)
Theorem turnOnFor_direction_byte (power direction milliseconds : Z) :
  milliseconds ≠ 0 ->
  let dir := (turnOnFor_phases power direction milliseconds).1.1.1 in
  JS.band dir 0xff = (Z.sgn milliseconds * (power * direction)) mod 256
  /\ (0 < power <= 100 -> Z.sgn milliseconds * direction = 1 -> JS.band dir 0xff = power)
  /\ (0 < power <= 100 -> Z.sgn milliseconds * direction = -1 ->
      JS.band dir 0xff = 256 - power).
Proof.
  intros Hms. cbv zeta.
  assert (Hdir : JS.band (turnOnFor_phases power direction milliseconds).1.1.1 0xff
                 = (Z.sgn milliseconds * (power * direction)) mod 256).
  { rewrite band_255. unfold turnOnFor_phases, JS.abs, Ev3Args.RAMP.
    generalize (power * direction). intros sp.
    destruct (Z.sgn_spec milliseconds) as [[Hm ->] | [[Hm ->] | [Hm ->]]]; [| lia |];
      repeat (match goal with |- context [if ?c then _ else _] =>
                let E := fresh "E" in destruct c eqn:E end; cbv beta iota zeta);
      cbn [fst snd];
      repeat match goal with
             | E : (_ <? _) = true |- _ => apply Z.ltb_lt in E
             | E : (_ <? _) = false |- _ => apply Z.ltb_ge in E
             end;
      try lia;
      match goal with |- ?a mod 256 = ?b mod 256 =>
        first [ f_equal; lia
              | transitivity ((b + 1 * 256) mod 256);
                [f_equal; lia | apply Z.mod_add; lia] ] end. }
  split; [exact Hdir |]. rewrite Hdir. split; intros Hp Hsd.
  - replace (Z.sgn milliseconds * (power * direction))
      with (power * (Z.sgn milliseconds * direction)) by lia.
    rewrite Hsd. replace (power * 1) with power by lia. apply Z.mod_small. lia.
  - replace (Z.sgn milliseconds * (power * direction))
      with (power * (Z.sgn milliseconds * direction)) by lia.
    rewrite Hsd. replace (power * -1) with ((256 - power) + (-1) * 256) by lia.
    rewrite Z.mod_add by lia. apply Z.mod_small. lia.
Qed.

Lemma turnOnFor_direction_byte_witness :
  JS.band (turnOnFor_phases 50 (-1) 1000).1.1.1 0xff = 256 - 50.
Proof.
  destruct (turnOnFor_direction_byte 50 (-1) 1000) as (_ & _ & H); [lia |].
  apply H; [lia | reflexivity].
Defined.

Lemma turnOnFor_bytes_length (this : EV3Motor) (milliseconds : Z) :
  length (turnOnFor_bytes this milliseconds)
  = if (turnOnFor_phases (_power this) (_direction this) milliseconds).1.2 <? 0x7fff
    then 13%nat else 15%nat.
Proof.
  unfold turnOnFor_bytes.
  destruct (turnOnFor_phases _ _ _) as [[[dir rampup] run] rampdown]. cbn [fst snd].
  unfold _runValues. now destruct (run <? 0x7fff).
Qed.

(** X7: the frames of the motor commands are well formed whatever the
    motor and the duration: a run frame has 20 bytes (22 with a four-byte
    run length), a coast frame 11; both carry their length, the type
    [DIRECT_COMMAND_NO_REPLY] and no allocation, and every cell of a run
    frame is a number. *)
Theorem motor_frames_well_formed (this : EV3Motor) (milliseconds : Z) :
  let run := (turnOnFor_phases (_power this) (_direction this) milliseconds).1.2 in
  length (turnOnFor_frame this milliseconds) = (if run <? 0x7fff then 20%nat else 22%nat)
  /\ length_field_ok (turnOnFor_frame this milliseconds)
  /\ JS.get (turnOnFor_frame this milliseconds) 4 = Some Ev3Command.DIRECT_COMMAND_NO_REPLY
  /\ allocField (turnOnFor_frame this milliseconds) = Some 0
  /\ JS.includes_undefined (turnOnFor_frame this milliseconds) = false
  /\ coast_frame this
     = [ Some 9; Some 0; Some 0; Some 0; Some Ev3Command.DIRECT_COMMAND_NO_REPLY;
         Some 0; Some 0;
         Some Ev3Opcode.OPOUTPUT_STOP; Some Ev3Args.LAYER;
         Some (_portMask (_index this)); Some Ev3Args.COAST ]
  /\ length_field_ok (coast_frame this).
Proof.
  cbv zeta. unfold turnOnFor_frame.
  pose proof (turnOnFor_bytes_length this milliseconds) as Hlen.
  assert (Hshort : (length (turnOnFor_bytes this milliseconds) < 251)%nat)
    by (rewrite Hlen; destruct (_ <? _); lia).
  split; [rewrite generateCommand_length, Hlen; now destruct (_ <? _) |].
  split; [unfold length_field_ok; now apply generateCommand_lenField_short |].
  rewrite generateCommand_cells. cbv zeta.
  split; [reflexivity |]. split; [reflexivity |]. split.
  - unfold turnOnFor_bytes.
    destruct (turnOnFor_phases _ _ _) as [[[dir rampup] run] rampdown].
    unfold _runValues. now destruct (run <? 0x7fff).
  - split; [reflexivity |]. unfold length_field_ok, coast_frame.
    apply generateCommand_lenField_short. simpl. lia.
Qed.

(** X8: a run length below 2^32 can be read back from its operand; a
    longer one leaves its low 32 bits. *)
Theorem runValues_read_back (run : Z) :
  0 <= run ->
  operand_value (_runValues run) = Some (run mod 2 ^ 32)
  /\ (run < 2 ^ 32 -> operand_value (_runValues run) = Some run).
Proof.
  intros Hrun.
  assert (H : operand_value (_runValues run) = Some (run mod 2 ^ 32)).
  { destruct (Z.lt_ge_cases run 0x7fff) as [Hlt | Hge].
    - destruct (runValues_two_bytes run ltac:(lia)) as [-> Hhi].
      cbn. rewrite (Z.mod_small run (2 ^ 32)) by lia. f_equal.
      pose proof (Z.div_mod run 256 ltac:(lia)). lia.
    - rewrite (runValues_four_bytes run Hge). cbn. f_equal.
      set (v := run mod 2 ^ 32).
      assert (Hv : 0 <= v < 2 ^ 32) by (apply Z.mod_pos_bound; lia).
      pose proof (Z.div_mod v 256 ltac:(lia)) as H0.
      pose proof (Z.div_mod (v / 256) 256 ltac:(lia)) as H1.
      pose proof (Z.div_mod (v / 256 / 256) 256 ltac:(lia)) as H2.
      assert (H3 : v / 256 / 256 / 256 < 256).
      { repeat (apply Z.div_lt_upper_bound; [lia |]). lia. }
      assert (H3' : 0 <= v / 256 / 256 / 256) by (repeat apply Z.div_pos; lia).
      change (2 ^ 8) with 256. change (2 ^ 16) with (256 * 256).
      change (2 ^ 24) with (256 * 256 * 256).
      rewrite <- !Z.div_div by lia.
      rewrite (Z.mod_small (v / 256 / 256 / 256)) by lia. lia. }
  split; [exact H |]. intros Hlt. rewrite H. f_equal. apply Z.mod_small. lia.
Qed.

Lemma runValues_read_back_witness :
  operand_value (_runValues 100000) = Some 100000.
Proof.
  destruct (runValues_read_back 100000) as [_ H]; [lia |]. apply H. lia.
Defined.

(** X9: the output bit field of port [p] is the number with the single
    bit [p] set: 1, 2, 4 and 8 for the four motor ports, and different
    ports share no bit. *)
Theorem portMask_bit (p q : nat) :
  Z.testbit (_portMask p) (Z.of_nat q) = bool_decide (p = q)
  /\ (p ≠ q -> Z.land (_portMask p) (_portMask q) = 0)
  /\ ((p < 4)%nat -> 1 <= _portMask p <= 8)
  /\ _portMask <$> [0; 1; 2; 3]%nat = [1; 2; 4; 8].
Proof.
  unfold _portMask, JS.pow2.
  assert (Hbit : forall a b : nat,
             Z.testbit (2 ^ Z.of_nat a) (Z.of_nat b) = bool_decide (a = b)).
  { intros a b. rewrite Z.pow2_bits_eqb by lia.
    destruct (Z.eqb_spec (Z.of_nat a) (Z.of_nat b)) as [H | H].
    - now rewrite bool_decide_eq_true_2 by lia.
    - now rewrite bool_decide_eq_false_2 by lia. }
  split; [apply Hbit |]. split; [| split; [| reflexivity]].
  - intros Hne. apply Z.bits_inj'. intros n Hn.
    rewrite Z.land_spec, Z.bits_0, <- (Z2Nat.id n) by lia. rewrite !Hbit.
    destruct (decide (p = Z.to_nat n)) as [-> | H1].
    + rewrite (bool_decide_eq_false_2 (q = _)) by congruence. apply andb_false_r.
    + now rewrite (bool_decide_eq_false_2 (p = _)) by congruence.
  - intros Hp. destruct p as [| [| [| [| p]]]]; [cbn; lia .. | lia].
Qed.

(** ** Motors at work *)

Section MotorsAtWork.
Context {L : Type} `{!RateLimiter L}.
Implicit Types (w : Runtime L) (this : EV3Motor).

(** X10: with the power at 0 a motor does nothing: [turnOnFor],
    [coastAfter] and [coast] leave everything as it is (no frame, no
    timer, no new command id), and [stopAllMotors] passes over it. *)
Theorem zero_power_no_op w (r : nat) this (milliseconds : Z) :
  heap w !! r = Some this -> _power this = 0 ->
  turnOnFor r milliseconds w = w
  /\ coastAfter r milliseconds w = w
  /\ coast r w = w
  /\ coast_frames (heap w) [Some r] = [].
Proof.
  intros Hr Hp. unfold turnOnFor, coastAfter, coast, coast_frames. cbn [flat_map].
  rewrite Hr, Hp. auto.
Qed.

Lemma send_connected message (useLimiter : bool) w :
  isConnected w = true ->
  let '(okay, l) :=
    if useLimiter then okayToSend (clock w) (_rateLimiter (ev3 w))
    else (true, _rateLimiter (ev3 w)) in
  (send message useLimiter w).1 = (if okay then TransportPromise else Resolved)
  /\ sent_log (send message useLimiter w).2
     = (if okay then sent_log w ++ [message] else sent_log w)
  /\ _rateLimiter (ev3 (send message useLimiter w).2) = l.
Proof.
  intros Hc. unfold send, sendMessage, sent_log. rewrite Hc. cbn [negb].
  unfold isConnected in Hc. destruct (_bt (ev3 w)) as [bt |] eqn:Hbt; [| discriminate].
  destruct useLimiter.
  - destruct (okayToSend _ _) as [[|] l]; cbn; rewrite ?Hbt; auto.
  - cbn. rewrite ?Hbt. auto.
Qed.

(** X11: on a connected transport [send] hands over exactly the given
    message, after the ones already taken, unless the limiter was asked
    and refused; the limiter is asked (and takes its next state) only when
    [useLimiter] is set. Motors, timers and the clock are not touched. *)
Theorem send_outcome message (useLimiter : bool) w :
  isConnected w = true ->
  let okay := if useLimiter then (okayToSend (clock w) (_rateLimiter (ev3 w))).1 else true in
  let w' := (send message useLimiter w).2 in
  (send message useLimiter w).1 = (if okay then TransportPromise else Resolved)
  /\ sent_log w' = (if okay then sent_log w ++ [message] else sent_log w)
  /\ _rateLimiter (ev3 w')
     = (if useLimiter then (okayToSend (clock w) (_rateLimiter (ev3 w))).2
        else _rateLimiter (ev3 w))
  /\ heap w' = heap w /\ timers w' = timers w /\ clock w' = clock w
  /\ isConnected w' = true.
Proof.
  intros Hc. cbv zeta.
  pose proof (send_connected message useLimiter w Hc) as H.
  destruct (send_frame message useLimiter w) as (Hh & Ht & Hk & _ & Hi).
  destruct useLimiter; [destruct (okayToSend _ _) as [okay l] |];
    cbn [fst snd] in *; destruct H as (H1 & H2 & H3); repeat split; congruence.
Qed.

(** [coast] on a connected transport. *)
Lemma coast_connected w (r : nat) :
  isConnected w = true ->
  sent_log (coast r w) = sent_log w ++ coast_frames (heap w) [Some r]
  /\ heap (coast r w) = heap w
  /\ _motors (ev3 (coast r w)) = _motors (ev3 w)
  /\ _rateLimiter (ev3 (coast r w)) = _rateLimiter (ev3 w)
  /\ isConnected (coast r w) = true.
Proof.
  intros Hc. unfold coast, coast_frames. cbn [flat_map].
  destruct (heap w !! r) as [this |]; [| rewrite !app_nil_r; auto].
  destruct (_power this =? 0); [rewrite !app_nil_r; auto |].
  pose proof (send_connected (coast_frame this) false w Hc) as (_ & H2 & H3).
  destruct (send_frame (coast_frame this) false w) as (Hh & _ & _ & _ & Hi).
  destruct (send_same (coast_frame this) false w) as [_ Hm].
  rewrite app_nil_r. repeat split; congruence.
Qed.

Lemma stopAllMotors_connected (cells : JS.array nat) w :
  isConnected w = true ->
  let w' := foldl (fun w motor => match motor with Some r => coast r w | None => w end)
                  w cells in
  sent_log w' = sent_log w ++ coast_frames (heap w) cells
  /\ _rateLimiter (ev3 w') = _rateLimiter (ev3 w)
  /\ isConnected w' = true.
Proof.
  revert w. induction cells as [| cell cells IH]; intros w Hc; cbn [foldl].
  - cbn. rewrite app_nil_r. auto.
  - destruct cell as [r |].
    + destruct (coast_connected w r Hc) as (Hs & Hh & _ & Hl & Hi).
      destruct (IH (coast r w) Hi) as (Hs' & Hl' & Hi').
      cbv zeta in *. rewrite Hs', Hl', Hs, Hh, <- app_assoc.
      assert (Hcons : coast_frames (heap w) (Some r :: cells)
                      = coast_frames (heap w) [Some r] ++ coast_frames (heap w) cells)
        by (unfold coast_frames; cbn [flat_map]; now rewrite app_nil_r).
      rewrite Hcons. auto.
    + destruct (IH w Hc) as (Hs' & Hl' & Hi'). auto.
Qed.

(** X12: [stopAll] never asks the rate limiter. On a connected transport
    it sends a coast frame for every referenced motor with power, in port
    order, and then the sound stop frame. *)
Theorem stopAll_frames w :
  isConnected w = true ->
  sent_log (stopAll w)
  = sent_log w ++ coast_frames (heap w) (_motors (ev3 w)) ++ [stopSound_frame]
  /\ _rateLimiter (ev3 (stopAll w)) = _rateLimiter (ev3 w).
Proof.
  intros Hc. unfold stopAll, stopSound, stopAllMotors.
  destruct (stopAllMotors_connected (_motors (ev3 w)) w Hc) as (Hs & Hl & Hi).
  revert Hs Hl Hi. cbv zeta.
  generalize (foldl (fun w motor => match motor with Some r => coast r w | None => w end)
                    w (_motors (ev3 w))).
  intros w1 Hs Hl Hi.
  pose proof (send_connected stopSound_frame false w1 Hi) as (_ & H2 & H3).
  unfold stopSound_frame in *. rewrite H2, H3, Hs, Hl, <- app_assoc. auto.
Qed.

(** X13: a coast that comes due while the transport is not connected is
    lost: nothing is sent and the command id is cleared all the same, so
    that no later callback makes up for it. *)
Theorem coast_callback_disconnected w (r : nat) this (commandId : nat) :
  heap w !! r = Some this -> _commandID this = Some commandId ->
  isConnected w = false ->
  coast_callback r commandId w = with_heap (alter (with_commandID None) r (heap w)) w
  /\ sent_log (coast_callback r commandId w) = sent_log w
  /\ (forall c, coast_callback r c (coast_callback r commandId w)
                = coast_callback r commandId w).
Proof.
  intros Hr Hid Hc.
  assert (H : coast_callback r commandId w
              = with_heap (alter (with_commandID None) r (heap w)) w).
  { unfold coast_callback. rewrite Hr, bool_decide_eq_true_2 by assumption.
    unfold coast. rewrite Hr.
    destruct (_power this =? 0); [reflexivity |].
    unfold send. now rewrite Hc. }
  rewrite H. split; [reflexivity |]. split; [reflexivity |].
  intros c. apply (coast_callback_stale _ r (with_commandID None this) c).
  - cbn. rewrite list_lookup_alter, Hr. now rewrite decide_True.
  - discriminate.
Qed.

(** X14: a new [turnOnFor] on a motor with power supersedes every coast
    still pending for it: the callbacks of the timers queued before, whose
    command ids are older than the next unique id, have nothing to do any
    more. *)
Theorem turnOnFor_supersedes w (r : nat) this (milliseconds : Z) (t : Timer) :
  heap w !! r = Some this -> _power this ≠ 0 ->
  t ∈ timers w -> t_motor t = r -> (t_commandId t < uid_next w)%nat ->
  let w' := turnOnFor r milliseconds w in
  coast_callback (t_motor t) (t_commandId t) w' = w'
  /\ (exists this', heap w' !! r = Some this' /\ _commandID this' = Some (uid_next w)).
Proof.
  intros Hr Hp _ Hm Hid w'. subst w'.
  destruct (turnOnFor_effect w r this milliseconds Hr Hp) as (Hh & _).
  revert Hh. generalize (turnOnFor r milliseconds w). intros w' Hh.
  assert (Hr' : heap w' !! r = Some (with_commandID (Some (uid_next w)) this)).
  { rewrite Hh. apply list_lookup_insert_eq. eapply lookup_lt_Some; eassumption. }
  split; [| eauto].
  rewrite Hm. apply (coast_callback_stale w' r _ (t_commandId t) Hr').
  cbn. intros H. injection H as H. lia.
Qed.

(** X15: [turnOnFor] on a motor with power queues its coast whether or
    not the run frame went out: also while disconnected, when nothing is
    sent. The coast is due the duration plus the coast delay from now, and
    at once when that sum is negative. *)
Theorem turnOnFor_arms_coast w (r : nat) this (milliseconds : Z) :
  heap w !! r = Some this -> _power this ≠ 0 ->
  let w' := turnOnFor r milliseconds w in
  let t := {| due := clock w + Z.max 0 (milliseconds + _coastDelay this);
              t_motor := r; t_commandId := uid_next w |} in
  t ∈ timers w'
  /\ length (timers w') = S (length (timers w))
  /\ (isConnected w = false -> sent_log w' = sent_log w)
  /\ (milliseconds + _coastDelay this <= 0 -> due t = clock w)
  /\ (0 <= milliseconds + _coastDelay this ->
      due t = clock w + milliseconds + _coastDelay this).
Proof.
  intros Hr Hp w' t.
  assert (Henq : forall u q, u ∈ enqueue u q /\ length (enqueue u q) = S (length q)).
  { intros u q. induction q as [| v q [IH1 IH2]]; cbn.
    - split; [apply list_elem_of_here | reflexivity].
    - destruct (due u <? due v); cbn.
      + split; [apply list_elem_of_here | reflexivity].
      + split; [now apply list_elem_of_further | now rewrite IH2]. }
  destruct (turnOnFor_effect w r this milliseconds Hr Hp) as (_ & Ht & _).
  fold w' t in Ht. rewrite Ht.
  split; [apply Henq |]. split; [apply Henq |]. split; [| subst t; cbn; lia].
  intros Hc. subst w'. unfold turnOnFor. rewrite Hr.
  destruct (Z.eqb_spec (_power this) 0) as [? | _]; [contradiction |].
  unfold send. rewrite Hc. cbn [negb snd].
  unfold coastAfter. rewrite Hr.
  destruct (Z.eqb_spec (_power this) 0) as [? | _]; [contradiction |]. reflexivity.
Qed.

End MotorsAtWork.

Lemma zero_power_no_op_witness :
  turnOnFor 0 1000 powerless = powerless.
Proof.
  destruct (zero_power_no_op powerless 0
              (set_power 0 (new_EV3Motor 0 (Some "largeMotor"%string))) 1000) as [H _];
    [reflexivity | reflexivity | exact H].
Defined.

Lemma send_outcome_witness :
  sent_log (send [Some 7] false one_motor).2 = sent_log one_motor ++ [[Some 7]].
Proof.
  destruct (send_outcome [Some 7] false one_motor) as (_ & H & _); [reflexivity | exact H].
Defined.

Lemma stopAll_frames_witness :
  sent_log (stopAll one_motor)
  = sent_log one_motor ++ coast_frames (heap one_motor) (_motors (ev3 one_motor))
    ++ [stopSound_frame].
Proof.
  destruct (stopAll_frames one_motor) as [H _]; [reflexivity | exact H].
Defined.

Lemma coast_callback_disconnected_witness :
  sent_log (coast_callback 0 0 (turnOnFor 0 100 (linked false one_motor)))
  = sent_log (turnOnFor 0 100 (linked false one_motor)).
Proof.
  destruct (coast_callback_disconnected (turnOnFor 0 100 (linked false one_motor)) 0
              (with_commandID (Some 0%nat) (new_EV3Motor 0 (Some "largeMotor"%string))) 0)
    as (_ & H & _); [reflexivity | reflexivity | reflexivity | exact H].
Defined.

Lemma turnOnFor_supersedes_witness :
  let w1 := turnOnFor 0 100 one_motor in
  coast_callback 0 0 (turnOnFor 0 50 w1) = turnOnFor 0 50 w1.
Proof.
  destruct (turnOnFor_supersedes (turnOnFor 0 100 one_motor) 0
              (with_commandID (Some 0%nat) (new_EV3Motor 0 (Some "largeMotor"%string))) 50
              {| due := 1100; t_motor := 0; t_commandId := 0 |}) as [H _].
  - reflexivity.
  - discriminate.
  - vm_compute. apply list_elem_of_here.
  - reflexivity.
  - vm_compute. lia.
  - exact H.
Defined.

Lemma turnOnFor_arms_coast_witness :
  length (timers (turnOnFor 0 (-2000) one_motor)) = 1%nat.
Proof.
  destruct (turnOnFor_arms_coast one_motor 0 (new_EV3Motor 0 (Some "largeMotor"%string))
              (-2000)) as (_ & H & _); [reflexivity | discriminate | exact H].
Defined.

(** ** Poll ticks *)

Section PollTicks.
Context {L : Type} `{!RateLimiter L}.
Implicit Types (w : Runtime L) (e : EV3 L).

Lemma poll_request_device_list e :
  Z.rem (_pollingCounter e) 20 = 0 ->
  poll_request e = (device_list_cmds, 33, with_updateDevices true e).
Proof.
  intros Hc. unfold poll_request. rewrite Hc. reflexivity.
Qed.

Lemma poll_request_values e :
  Z.rem (_pollingCounter e) 20 ≠ 0 ->
  poll_request e
  = (flat_map (sensor_group (_sensorPorts e)) (queried_ports (_sensorPorts e))
     ++ flat_map motor_group (seq 0 4), 32, e).
Proof.
  intros Hc. unfold poll_request, queried_ports.
  destruct (Z.eqb_spec (Z.rem (_pollingCounter e) 20) 0) as [? | _]; [contradiction |].
  unfold poll_sensor_step. cbn [seq foldl List.filter].
  generalize (bool_decide (JS.get (_sensorPorts e) 0 ≠ Some "none"%string)),
             (bool_decide (JS.get (_sensorPorts e) 1 ≠ Some "none"%string)),
             (bool_decide (JS.get (_sensorPorts e) 2 ≠ Some "none"%string)),
             (bool_decide (JS.get (_sensorPorts e) 3 ≠ Some "none"%string)).
  intros b0 b1 b2 b3.
  destruct b0, b1, b2, b3; cbn [flat_map]; unfold sensor_group;
    generalize (JS.get (_sensorPorts e) 0 ≫= (Ev3Mode !!.)),
               (JS.get (_sensorPorts e) 1 ≫= (Ev3Mode !!.)),
               (JS.get (_sensorPorts e) 2 ≫= (Ev3Mode !!.)),
               (JS.get (_sensorPorts e) 3 ≫= (Ev3Mode !!.));
    intros c0 c1 c2 c3; vm_compute; reflexivity.
Qed.

Lemma poll_request_length e : (length (poll_request e).1.1 <= 48)%nat.
Proof.
  destruct (Z.eq_dec (Z.rem (_pollingCounter e) 20) 0) as [Hc | Hc].
  - rewrite poll_request_device_list by assumption. cbn. lia.
  - rewrite poll_request_values by assumption. cbn [fst snd].
    rewrite length_app. unfold queried_ports. cbn [seq List.filter].
    repeat match goal with |- context [if ?b then _ else _] => destruct b end;
      cbn; lia.
Qed.

(** X16: on a value poll the compound command is one read request per
    sensor port that is not ['none'], in port order, followed by the four
    position requests. The reading of sensor port [i] is asked into the
    global variable at index [4 i] and the position of motor port [i] into
    the one at [16 + 4 i], whichever ports are asked; a port without an
    entry in the mode table (a gyro, or a port not yet discovered) is asked
    with an undefined mode. The peripheral is not changed. *)
Theorem poll_request_value_groups e :
  Z.rem (_pollingCounter e) 20 ≠ 0 ->
  (poll_request e).1.1
  = flat_map (sensor_group (_sensorPorts e)) (queried_ports (_sensorPorts e))
    ++ flat_map motor_group (seq 0 4)
  /\ (poll_request e).2 = e
  /\ (forall i, JS.get (_sensorPorts e) i = None \/ JS.get (_sensorPorts e) i = Some "gyro"%string ->
        JS.get (sensor_group (_sensorPorts e) i) 4 = None).
Proof.
  intros Hc. rewrite poll_request_values by assumption. split; [reflexivity |].
  split; [reflexivity |]. intros i [Hi | Hi]; unfold sensor_group; cbn; now rewrite Hi.
Qed.

(** X17: every frame that a poll tick builds is well formed: at most 55
    bytes, with its length in the length field, the type
    [DIRECT_COMMAND_REPLY] and its allocation in the allocation field,
    which is 33 for the device list (asked when the counter is a multiple
    of 20) and 32 for a value poll. *)
Theorem poll_frame_well_formed e :
  length_field_ok (poll_frame e)
  /\ (length (poll_frame e) <= 55)%nat
  /\ JS.get (poll_frame e) 4 = Some Ev3Command.DIRECT_COMMAND_REPLY
  /\ allocField (poll_frame e) = Some (if Z.rem (_pollingCounter e) 20 =? 0 then 33 else 32)
  /\ (Z.rem (_pollingCounter e) 20 = 0 ->
      poll_frame e
      = [ Some 11; Some 0; Some 0; Some 0; Some 0; Some 33; Some 0;
          Some 0x98; Some 0x81; Some 32; Some 0x60; Some 0xE1; Some 0x20 ]).
Proof.
  unfold poll_frame. pose proof (poll_request_length e) as Hlen.
  split; [unfold length_field_ok; apply generateCommand_lenField_short; lia |].
  split; [rewrite generateCommand_length; lia |].
  rewrite generateCommand_cells. cbv zeta. split; [reflexivity |]. split.
  - destruct (Z.eqb_spec (Z.rem (_pollingCounter e) 20) 0) as [Hc | Hc].
    + rewrite poll_request_device_list by assumption. reflexivity.
    + rewrite poll_request_values by assumption. reflexivity.
  - intros Hc. rewrite poll_request_device_list by assumption. reflexivity.
Qed.

Lemma send_ev3_kept message (useLimiter : bool) w :
  let e' := ev3 (send message useLimiter w).2 in
  _sensorPorts e' = _sensorPorts (ev3 w) /\ _motorPorts e' = _motorPorts (ev3 w)
  /\ _sensors e' = _sensors (ev3 w) /\ _motors e' = _motors (ev3 w)
  /\ _pollingCounter e' = _pollingCounter (ev3 w)
  /\ _updateDevices e' = _updateDevices (ev3 w)
  /\ _pollingIntervalID e' = _pollingIntervalID (ev3 w).
Proof.
  unfold send, sendMessage. destruct (negb (isConnected w)); [cbn; tauto |].
  destruct useLimiter.
  - destruct (okayToSend _ _) as [[|] l]; cbn; destruct (_bt (ev3 w)); cbn; tauto.
  - destruct (_bt (ev3 w)); cbn; tauto.
Qed.

(** X18: a poll tick on a connected transport counts one cycle, whether or
    not the frame went out, and changes no port, reading or motor
    reference; when the counter was a multiple of 20 it raises
    [_updateDevices], also when the rate limiter dropped the device-list
    request, so that the next success reply is read as a device list. The
    frame is sent unless the limiter refuses. A tick on a transport that is
    not connected only clears the poll interval: no frame, no count. *)
Theorem pollValues_tick w :
  (isConnected w = true ->
   let e' := ev3 (_pollValues w) in
   _pollingCounter e' = _pollingCounter (ev3 w) + 1
   /\ _updateDevices e'
      = (_updateDevices (ev3 w) || (Z.rem (_pollingCounter (ev3 w)) 20 =? 0))
   /\ sent_log (_pollValues w)
      = (if (okayToSend (clock w) (_rateLimiter (ev3 w))).1
         then sent_log w ++ [poll_frame (ev3 w)] else sent_log w)
   /\ _sensorPorts e' = _sensorPorts (ev3 w) /\ _motorPorts e' = _motorPorts (ev3 w)
   /\ _sensors e' = _sensors (ev3 w) /\ _motors e' = _motors (ev3 w)
   /\ heap (_pollValues w) = heap w /\ timers (_pollValues w) = timers w)
  /\ (isConnected w = false ->
      _pollValues w = clearInterval (_pollingIntervalID (ev3 w)) w
      /\ ev3 (_pollValues w) = ev3 w
      /\ forall i, _pollingIntervalID (ev3 w) = Some i -> i ∉ intervals (_pollValues w)).
Proof.
  split; intros Hc.
  - unfold _pollValues, poll_frame. rewrite Hc. cbn [negb].
    assert (He : (poll_request (ev3 w)).2
                 = if Z.rem (_pollingCounter (ev3 w)) 20 =? 0
                   then with_updateDevices true (ev3 w) else ev3 w).
    { destruct (Z.eqb_spec (Z.rem (_pollingCounter (ev3 w)) 20) 0) as [H0 | H0].
      - now rewrite poll_request_device_list.
      - now rewrite poll_request_values. }
    destruct (poll_request (ev3 w)) as [[cmds allocation] e]. cbn [fst snd] in *.
    set (frame := generateCommand _ cmds allocation).
    assert (Hw0 : _sensorPorts e = _sensorPorts (ev3 w) /\ _motorPorts e = _motorPorts (ev3 w)
                  /\ _sensors e = _sensors (ev3 w) /\ _motors e = _motors (ev3 w)
                  /\ _pollingCounter e = _pollingCounter (ev3 w)
                  /\ _updateDevices e
                     = (_updateDevices (ev3 w) || (Z.rem (_pollingCounter (ev3 w)) 20 =? 0))
                  /\ _bt e = _bt (ev3 w) /\ _rateLimiter e = _rateLimiter (ev3 w)).
    { subst e. destruct (_ =? _); cbn; rewrite ?orb_true_r, ?orb_false_r; tauto. }
    clear He. destruct Hw0 as (H1 & H2 & H3 & H4 & H5 & H6 & H7 & H8).
    assert (Hc' : isConnected (with_ev3 e w) = true)
      by (unfold isConnected in *; cbn; now rewrite H7).
    pose proof (send_connected frame true (with_ev3 e w) Hc') as Hs.
    destruct (send_frame frame true (with_ev3 e w)) as (Hh & Ht & _).
    pose proof (send_ev3_kept frame true (with_ev3 e w)) as Hk.
    cbn [clock ev3 with_ev3 heap timers] in Hs, Hh, Ht, Hk. rewrite H8 in Hs.
    assert (Hl0 : sent_log (with_ev3 e w) = sent_log w)
      by (unfold sent_log; cbn; now rewrite H7).
    rewrite Hl0 in Hs. clear Hl0.
    revert Hs Hh Ht Hk. cbv zeta. generalize (send frame true (with_ev3 e w)).
    intros [p w1] Hs Hh Ht Hk. cbn [fst snd] in *.
    destruct (okayToSend (clock w) (_rateLimiter (ev3 w))) as [okay l].
    destruct Hs as (_ & Hlog & _).
    destruct Hk as (K1 & K2 & K3 & K4 & K5 & K6 & _).
    cbn [ev3 with_ev3 _pollingCounter _updateDevices _sensorPorts _motorPorts _sensors
         _motors with_pollingCounter heap timers fst].
    repeat split; try congruence.
    unfold sent_log in *. cbn. exact Hlog.
  - unfold _pollValues. rewrite Hc. cbn [negb]. split; [reflexivity |].
    unfold clearInterval. destruct (_pollingIntervalID (ev3 w)) as [i |].
    + split; [reflexivity |]. intros j Hj. injection Hj as <-. cbn.
      intros Hin. apply elem_of_difference in Hin as [_ Hn]. apply Hn.
      now apply elem_of_singleton.
    + split; [reflexivity |]. discriminate.
Qed.

End PollTicks.

Lemma poll_request_value_groups_witness :
  (poll_request touch_only).1.1
  = flat_map (sensor_group (_sensorPorts touch_only)) [0%nat]
    ++ flat_map motor_group (seq 0 4).
Proof.
  destruct (poll_request_value_groups touch_only) as [H _]; [vm_compute; discriminate |].
  exact H.
Defined.

Lemma pollValues_tick_witness :
  _updateDevices (ev3 (_pollValues (linked true (initial limiter40)))) = true.
Proof.
  destruct (pollValues_tick (linked true (initial limiter40))) as [H _].
  destruct H as (_ & H & _); [reflexivity | exact H].
Defined.

(** ** Value replies *)

Section ValueReplies.
Context {L : Type}.
Implicit Types (w : Runtime L) (e : EV3 L) (bytes : list Z) (data : JS.array Z).

Lemma onMessage_read_as_values w bytes :
  read_as_values w bytes -> _onMessage bytes w = parse_values (JS.of_bytes bytes) w.
Proof.
  intros (Htag & Hu & Hs & Hm). rewrite onMessage_value by assumption.
  now rewrite Hs, Hm.
Qed.

(** One turn of the sensor loop. *)
Lemma sensor_value_step_effect data e (offset i : nat) :
  let v := reading_at data offset in
  let e' := (sensor_value_step data (e, offset) i).1 in
  (sensor_value_step data (e, offset) i).2 = (offset + 4)%nat
  /\ s_buttons (_sensors e')
     = (if bool_decide (port_label e i = Some "button"%string)
        then JS.set i (Some v) (s_buttons (_sensors e)) else s_buttons (_sensors e))
  /\ (forall label, label = "distance"%string \/ label = "brightness"%string ->
        stored_reading label (_sensors e')
        = if bool_decide (port_label e i = Some label) then v
          else stored_reading label (_sensors e)).
Proof.
  unfold sensor_value_step, port_label, reading_at. cbv zeta.
  set (v := if JS.truthy _ then _ else _).
  destruct (JS.get (_sensorPorts e) i ≫= (Ev3Label !!.)) as [l |]; cbn [fst snd].
  2: { rewrite !bool_decide_eq_false_2 by discriminate. split; [reflexivity |].
       split; [reflexivity |]. intros label _.
       now rewrite bool_decide_eq_false_2 by discriminate. }
  destruct (decide (l = "button"%string)) as [-> | Hb].
  - rewrite !bool_decide_eq_true_2 by reflexivity. split; [reflexivity |].
    split; [reflexivity |].
    intros label [-> | ->]; now rewrite bool_decide_eq_false_2 by discriminate.
  - rewrite !(bool_decide_eq_false_2 (Some l = Some "button"%string)) by congruence.
    split; [reflexivity |]. split.
    + destruct (String.eqb l ""); [reflexivity |]. unfold set_reading.
      destruct (String.eqb l "distance"); [reflexivity |].
      destruct (String.eqb l "brightness"); reflexivity.
    + intros label Hlabel. unfold set_reading.
      destruct (String.eqb_spec l "") as [-> | _].
      { destruct Hlabel as [-> | ->]; now rewrite bool_decide_eq_false_2 by discriminate. }
      destruct (String.eqb_spec l "distance") as [-> | Hd].
      { destruct Hlabel as [-> | ->]; [now rewrite bool_decide_eq_true_2 |].
        now rewrite bool_decide_eq_false_2 by discriminate. }
      destruct (String.eqb_spec l "brightness") as [-> | Hbr].
      { destruct Hlabel as [-> | ->]; [| now rewrite bool_decide_eq_true_2].
        now rewrite bool_decide_eq_false_2 by discriminate. }
      destruct Hlabel as [-> | ->]; now rewrite bool_decide_eq_false_2 by congruence.
Qed.

Lemma sensor_value_step_label data e (offset i j : nat) :
  port_label (sensor_value_step data (e, offset) i).1 j = port_label e j.
Proof.
  unfold port_label.
  now destruct (sensor_value_step_tables data e offset i) as (-> & _).
Qed.

(** The sensor loop over the ports [ports], seen from one port. *)
Lemma sensor_value_fold_effect data (ports : list nat) e (offset : nat) :
  let st := foldl (sensor_value_step data) (e, offset) ports in
  st.2 = (offset + 4 * length ports)%nat
  /\ (forall j, port_label st.1 j = port_label e j)
  /\ (forall i, i ∉ ports ->
        JS.get (s_buttons (_sensors st.1)) i = JS.get (s_buttons (_sensors e)) i)
  /\ (forall label, label = "distance"%string \/ label = "brightness"%string ->
        (forall j, j ∈ ports -> port_label e j ≠ Some label) ->
        stored_reading label (_sensors st.1) = stored_reading label (_sensors e)).
Proof.
  revert e offset. induction ports as [| p ports IH]; intros e offset; cbn [foldl].
  - cbn. repeat split; auto; lia.
  - destruct (sensor_value_step_effect data e offset p) as (Ho & Hb & Hr).
    pose proof (sensor_value_step_label data e offset p) as Hl.
    revert Ho Hb Hr Hl. cbv zeta.
    generalize (sensor_value_step data (e, offset) p). intros [e1 o1]. cbn [fst snd].
    intros -> Hb Hr Hl.
    destruct (IH e1 (offset + 4)%nat) as (Io & Il & Ib & Ir). cbv zeta in *.
    split; [rewrite Io; cbn [length]; lia |].
    split; [intros j; now rewrite Il, Hl |]. split.
    + intros i Hi. apply not_elem_of_cons in Hi as [Hip Hi].
      rewrite Ib, Hb by assumption.
      destruct (bool_decide _); [now apply js_get_set_ne | reflexivity].
    + intros label Hlabel Hnone. rewrite Ir; auto.
      * rewrite Hr by assumption.
        rewrite bool_decide_eq_false_2; [reflexivity |].
        apply Hnone. apply list_elem_of_here.
      * intros j Hj. rewrite Hl. apply Hnone. now apply list_elem_of_further.
Qed.

(** The sensor loop of a value reply, seen from port [i]. *)
Lemma sensor_value_fold_at data e (i : nat) :
  (i < 4)%nat ->
  let st := foldl (sensor_value_step data) (e, 5%nat) (seq 0 4) in
  st.2 = 21%nat
  /\ JS.get (s_buttons (_sensors st.1)) i
     = (if bool_decide (port_label e i = Some "button"%string)
        then Some (reading_at data (5 + 4 * i)) else JS.get (s_buttons (_sensors e)) i)
  /\ (forall label, label = "distance"%string \/ label = "brightness"%string ->
        port_label e i = Some label ->
        (forall j, (i < j < 4)%nat -> port_label e j ≠ Some label) ->
        stored_reading label (_sensors st.1) = reading_at data (5 + 4 * i)).
Proof.
  intros Hi.
  destruct (sensor_value_fold_effect data (seq 0 4) e 5) as (Ho & _).
  split; [exact Ho |]. clear Ho.
  replace (seq 0 4) with (seq 0 i ++ i :: seq (S i) (3 - i))
    by (destruct i as [| [| [| [| i]]]]; [reflexivity .. | lia]).
  rewrite foldl_app. cbn [foldl].
  destruct (sensor_value_fold_effect data (seq 0 i) e 5) as (Ho & Hl & Ib0 & _).
  specialize (Ib0 i). rewrite elem_of_seq in Ib0. specialize (Ib0 ltac:(lia)).
  revert Ho Hl Ib0. cbv zeta. rewrite length_seq.
  generalize (foldl (sensor_value_step data) (e, 5%nat) (seq 0 i)).
  intros [e1 o1]. cbn [fst snd]. intros -> Hl Ib0.
  destruct (sensor_value_step_effect data e1 (5 + 4 * i) i) as (_ & Hb & Hr).
  pose proof (sensor_value_step_label data e1 (5 + 4 * i) i) as Hl1.
  revert Hb Hr Hl1. cbv zeta.
  generalize (sensor_value_step data (e1, (5 + 4 * i)%nat) i). intros [e2 o2].
  cbn [fst snd]. intros Hb Hr Hl1.
  destruct (sensor_value_fold_effect data (seq (S i) (3 - i)) e2 o2) as (_ & _ & Ib & Ir).
  revert Ib Ir. cbv zeta.
  generalize (foldl (sensor_value_step data) (e2, o2) (seq (S i) (3 - i))).
  intros [e3 o3]. cbn [fst snd]. intros Ib Ir.
  split.
  - rewrite Ib by (rewrite elem_of_seq; lia). rewrite Hb, Hl.
    destruct (bool_decide (port_label e i = Some "button"%string));
      [apply js_get_set_eq | exact Ib0].
  - intros label Hlabel Hat Hlater. rewrite Ir; auto.
    + rewrite Hr, Hl, Hat by assumption. now rewrite bool_decide_eq_true_2.
    + intros j Hj. apply elem_of_seq in Hj. rewrite Hl1, Hl. apply Hlater. lia.
Qed.

(** One turn of the motor loop. *)
Lemma motor_position_step_effect data w (offset i : nat) :
  let w' := (motor_position_step data (w, offset) i).1 in
  (motor_position_step data (w, offset) i).2 = (offset + 4)%nat
  /\ ev3 w' = ev3 w /\ timers w' = timers w
  /\ heap w' = match JS.get (_motors (ev3 w)) i with
               | Some r => alter (set_position (cells_at data offset)) r (heap w)
               | None => heap w
               end.
Proof.
  unfold motor_position_step, cells_at. cbn [fst snd].
  destruct (JS.get (_motors (ev3 w)) i); cbn; auto.
Qed.

(** The motor loop over the ports [ports]: only positions change, and only
    of the motor objects that a port of [ports] refers to. *)
Lemma motor_position_fold_effect data (ports : list nat) w (offset : nat) :
  let st := foldl (motor_position_step data) (w, offset) ports in
  st.2 = (offset + 4 * length ports)%nat
  /\ ev3 st.1 = ev3 w /\ timers st.1 = timers w
  /\ with_position None <$> heap st.1 = with_position None <$> heap w
  /\ (forall r, (forall j, j ∈ ports -> JS.get (_motors (ev3 w)) j ≠ Some r) ->
        heap st.1 !! r = heap w !! r).
Proof.
  revert w offset. induction ports as [| p ports IH]; intros w offset; cbn [foldl].
  - cbn. repeat split; auto; lia.
  - destruct (motor_position_step_effect data w offset p) as (Ho & He & Ht & Hh).
    revert Ho He Ht Hh. cbv zeta.
    generalize (motor_position_step data (w, offset) p). intros [w1 o1]. cbn [fst snd].
    intros -> He Ht Hh.
    destruct (IH w1 (offset + 4)%nat) as (Io & Ie & It & Ip & Ir). cbv zeta in *.
    split; [rewrite Io; cbn [length]; lia |].
    split; [congruence |]. split; [congruence |]. split.
    + rewrite Ip, Hh. destruct (JS.get (_motors (ev3 w)) p) as [r |]; [| reflexivity].
      apply list_eq. intros k. rewrite !list_lookup_fmap, list_lookup_alter.
      destruct (decide (r = k)) as [-> |]; [| reflexivity].
      now destruct (heap w !! k) as [[] |].
    + intros r Hr. rewrite Ir.
      * rewrite Hh. destruct (JS.get (_motors (ev3 w)) p) as [r' |] eqn:Hp; [| reflexivity].
        rewrite list_lookup_alter_ne; [reflexivity |].
        intros ->. apply (Hr p); [apply list_elem_of_here | exact Hp].
      * intros j Hj. rewrite He. apply Hr. now apply list_elem_of_further.
Qed.

Lemma parse_values_folds data w :
  parse_values data w
  = (foldl (motor_position_step data)
       (with_ev3 (foldl (sensor_value_step data) (ev3 w, 5%nat) (seq 0 4)).1 w, 21%nat)
       (seq 0 4)).1.
Proof.
  unfold parse_values.
  destruct (sensor_value_fold_effect data (seq 0 4) (ev3 w) 5) as (Ho & _).
  revert Ho. cbv zeta.
  generalize (foldl (sensor_value_step data) (ev3 w, 5%nat) (seq 0 4)).
  intros [e1 o1]. cbn [fst snd length seq]. intros ->.
  change (5 + 4 * 4)%nat with 21%nat.
  generalize (foldl (motor_position_step data) (with_ev3 e1 w, 21%nat) (seq 0 4)).
  now intros [w2 o2].
Qed.

(** The motor loop of a value reply, seen from port [i]. *)
Lemma motor_position_fold_at data w (i r : nat) :
  (i < 4)%nat ->
  JS.get (_motors (ev3 w)) i = Some r ->
  (forall j, (j < 4)%nat -> j ≠ i -> JS.get (_motors (ev3 w)) j ≠ Some r) ->
  heap (foldl (motor_position_step data) (w, 21%nat) (seq 0 4)).1 !! r
  = set_position (cells_at data (21 + 4 * i)) <$> heap w !! r.
Proof.
  intros Hi Hr Hdistinct.
  replace (seq 0 4) with (seq 0 i ++ i :: seq (S i) (3 - i))
    by (destruct i as [| [| [| [| i]]]]; [reflexivity .. | lia]).
  rewrite foldl_app. cbn [foldl].
  destruct (motor_position_fold_effect data (seq 0 i) w 21) as (Ho & He & _ & _ & Hk).
  specialize (Hk r). revert Ho He Hk. cbv zeta. rewrite length_seq.
  generalize (foldl (motor_position_step data) (w, 21%nat) (seq 0 i)).
  intros [w1 o1]. cbn [fst snd]. intros -> He Hk.
  rewrite <- Hk by (intros j Hj; apply elem_of_seq in Hj; apply Hdistinct; lia).
  destruct (motor_position_step_effect data w1 (21 + 4 * i) i) as (_ & He2 & _ & Hh).
  revert He2 Hh. cbv zeta. rewrite He, Hr.
  generalize (motor_position_step data (w1, (21 + 4 * i)%nat) i).
  intros [w2 o2]. cbn [fst snd]. intros He2 Hh.
  destruct (motor_position_fold_effect data (seq (S i) (3 - i)) w2 o2) as (_ & _ & _ & _ & Hk2).
  specialize (Hk2 r). revert Hk2. cbv zeta.
  generalize (foldl (motor_position_step data) (w2, o2) (seq (S i) (3 - i))).
  intros [w3 o3]. cbn [fst snd]. intros Hk2.
  rewrite Hk2.
  - rewrite Hh, list_lookup_alter. now rewrite decide_True.
  - intros j Hj. apply elem_of_seq in Hj. rewrite He2. apply Hdistinct; lia.
Qed.

Lemma parse_values_ev3 data w :
  ev3 (parse_values data w)
  = (foldl (sensor_value_step data) (ev3 w, 5%nat) (seq 0 4)).1.
Proof.
  rewrite parse_values_folds.
  exact (motor_position_fold_ev3 data _ 21 (seq 0 4)).
Qed.

(** X19: in a value reply that is read, the slot of each sensor port that
    holds a touch sensor decides [isButtonPressed] for that port: the
    button counts as pressed exactly when the 32-bit float of the slot is
    1. The button flag of every other port is left as it was. *)
Theorem value_reply_buttons w bytes (i : nat) :
  read_as_values w bytes -> (i < 4)%nat ->
  let e' := ev3 (_onMessage bytes w) in
  (port_label (ev3 w) i = Some "button"%string ->
     isButtonPressed e' i = (reply_reading bytes i =? 1)%float)
  /\ (port_label (ev3 w) i ≠ Some "button"%string ->
     isButtonPressed e' i = isButtonPressed (ev3 w) i).
Proof.
  intros Hv Hi. cbv zeta.
  rewrite (onMessage_read_as_values _ _ Hv), parse_values_ev3.
  destruct (sensor_value_fold_at (JS.of_bytes bytes) (ev3 w) i Hi) as (_ & Hb & _).
  revert Hb. cbv zeta.
  generalize (foldl (sensor_value_step (JS.of_bytes bytes)) (ev3 w, 5%nat) (seq 0 4)).
  intros [e1 o1]. cbn [fst]. intros Hb. unfold isButtonPressed. rewrite Hb.
  split; intros Hl.
  - now rewrite bool_decide_eq_true_2 by assumption.
  - now rewrite bool_decide_eq_false_2 by assumption.
Qed.

(** X20: the distance and the brightness are single readings shared by
    the four sensor ports. In a value reply that is read, the last port
    (highest index) that holds a sensor with the label supplies the
    reading; when no port holds one, the reading stays as it was. *)
Theorem value_reply_last_port_wins w bytes (label : string) :
  read_as_values w bytes ->
  label = "distance"%string \/ label = "brightness"%string ->
  let s' := _sensors (ev3 (_onMessage bytes w)) in
  (forall i, (i < 4)%nat -> port_label (ev3 w) i = Some label ->
     (forall j, (i < j < 4)%nat -> port_label (ev3 w) j ≠ Some label) ->
     stored_reading label s' = reply_reading bytes i)
  /\ ((forall j, (j < 4)%nat -> port_label (ev3 w) j ≠ Some label) ->
     stored_reading label s' = stored_reading label (_sensors (ev3 w))).
Proof.
  intros Hv Hlabel. cbv zeta.
  rewrite (onMessage_read_as_values _ _ Hv), parse_values_ev3.
  split.
  - intros i Hi Hat Hlater.
    destruct (sensor_value_fold_at (JS.of_bytes bytes) (ev3 w) i Hi) as (_ & _ & Hr).
    revert Hr. cbv zeta.
    generalize (foldl (sensor_value_step (JS.of_bytes bytes)) (ev3 w, 5%nat) (seq 0 4)).
    intros [e1 o1]. cbn [fst]. intros Hr. now apply Hr.
  - intros Hnone.
    destruct (sensor_value_fold_effect (JS.of_bytes bytes) (seq 0 4) (ev3 w) 5)
      as (_ & _ & _ & Hr).
    revert Hr. cbv zeta.
    generalize (foldl (sensor_value_step (JS.of_bytes bytes)) (ev3 w, 5%nat) (seq 0 4)).
    intros [e1 o1]. cbn [fst]. intros Hr. apply Hr; [assumption |].
    intros j Hj. apply elem_of_seq in Hj. apply Hnone. lia.
Qed.

(** The slot of motor port [i] in a value reply that is read, when the
    motor object of the port is not the one of another port. *)
Lemma onMessage_position_at w bytes (i r : nat) this :
  read_as_values w bytes -> (i < 4)%nat ->
  motor (ev3 w) i = Some r ->
  (forall j, (j < 4)%nat -> j ≠ i -> motor (ev3 w) j ≠ Some r) ->
  heap w !! r = Some this ->
  heap (_onMessage bytes w) !! r = Some (with_position (reply_position bytes i) this).
Proof.
  unfold motor. intros Hv Hi Hr Hdistinct Hthis.
  rewrite (onMessage_read_as_values _ _ Hv), parse_values_folds.
  destruct (sensor_value_fold_tables (JS.of_bytes bytes) (ev3 w) 5 (seq 0 4))
    as (_ & _ & Hmo).
  revert Hmo. cbv zeta.
  generalize (foldl (sensor_value_step (JS.of_bytes bytes)) (ev3 w, 5%nat) (seq 0 4)).
  intros [e1 o1]. cbn [fst]. intros Hmo.
  pose proof (motor_position_fold_at (JS.of_bytes bytes) (with_ev3 e1 w) i r Hi) as H.
  change (ev3 (with_ev3 e1 w)) with e1 in H.
  change (heap (with_ev3 e1 w)) with (heap w) in H.
  rewrite Hmo in H. rewrite (H Hr Hdistinct), Hthis. reflexivity.
Qed.

(** The motor loop changes the heap of motor objects and nothing else. *)
Lemma motor_position_fold_frame data (ports : list nat) w (offset : nat) :
  let w' := (foldl (motor_position_step data) (w, offset) ports).1 in
  w' = with_heap (heap w') w.
Proof.
  revert w offset. induction ports as [| p ports IH]; intros w offset; cbn [foldl].
  - now destruct w.
  - assert (Hs : exists h, motor_position_step data (w, offset) p
                          = (with_heap h w, (offset + 4)%nat)).
    { unfold motor_position_step. destruct w as [e h ? ? ? ? ?]. cbn.
      destruct (JS.get (_motors e) p); eexists; reflexivity. }
    destruct Hs as [h ->]. cbv zeta in *.
    etransitivity; [apply IH | reflexivity].
Qed.

(** The sensor loop changes the readings and nothing else. *)
Lemma sensor_value_fold_frame data (ports : list nat) e (offset : nat) :
  let e' := (foldl (sensor_value_step data) (e, offset) ports).1 in
  e' = with_sensors (_sensors e') e.
Proof.
  revert e offset. induction ports as [| p ports IH]; intros e offset; cbn [foldl].
  - now destruct e.
  - assert (Hs : exists s, sensor_value_step data (e, offset) p
                          = (with_sensors s e, (offset + 4)%nat)).
    { unfold sensor_value_step. destruct e. cbn.
      case_bool_decide; [eexists; reflexivity |].
      destruct (_ ≫= _) as [l |]; [| eexists; reflexivity].
      destruct (String.eqb l ""); eexists; reflexivity. }
    destruct Hs as [s ->]. cbv zeta in *.
    etransitivity; [apply IH | reflexivity].
Qed.

(** X22: while no device list is awaited, a reply changes nothing of the
    peripheral but the sensor readings, and nothing of the motor objects
    but their positions: the port tables, the motor references, the
    link, the polling state, the timers and the motors' power, direction
    and pending command are as before. *)
Theorem reply_changes_only_readings w bytes :
  _updateDevices (ev3 w) = false ->
  let w' := _onMessage bytes w in
  w' = with_heap (heap w') (with_ev3 (with_sensors (_sensors (ev3 w')) (ev3 w)) w)
  /\ with_position None <$> heap w' = with_position None <$> heap w.
Proof.
  intros Hu. cbv zeta. unfold _onMessage. rewrite Hu.
  case_bool_decide; [split; [now destruct w as [[] ? ? ? ? ? ?] | reflexivity] |].
  destruct (_ && _); [| split; [now destruct w as [[] ? ? ? ? ? ?] | reflexivity]].
  rewrite parse_values_folds.
  pose proof (sensor_value_fold_frame (JS.of_bytes bytes) (seq 0 4) (ev3 w) 5) as He.
  revert He. cbv zeta.
  generalize (foldl (sensor_value_step (JS.of_bytes bytes)) (ev3 w, 5%nat) (seq 0 4)).
  intros [e1 o1]. cbn [fst]. intros He.
  pose proof (motor_position_fold_frame (JS.of_bytes bytes) (seq 0 4) (with_ev3 e1 w) 21) as Hw.
  destruct (motor_position_fold_effect (JS.of_bytes bytes) (seq 0 4) (with_ev3 e1 w) 21)
    as (_ & Hev & _ & Hp & _).
  revert Hw Hev Hp. cbv zeta.
  generalize (foldl (motor_position_step (JS.of_bytes bytes)) (with_ev3 e1 w, 21%nat) (seq 0 4)).
  intros [w2 o2]. cbn [fst]. intros Hw Hev Hp.
  split; [| exact Hp].
  rewrite Hev. change (ev3 (with_ev3 e1 w)) with e1. rewrite <- He.
  rewrite Hw at 1. reflexivity.
Qed.

End ValueReplies.

Lemma value_reply_buttons_witness :
  isButtonPressed (ev3 (_onMessage value_reply discovered)) 0 = true.
Proof.
  destruct (value_reply_buttons discovered value_reply 0) as [H _];
    [repeat split; vm_compute; reflexivity | lia |].
  etransitivity; [apply H; vm_compute; reflexivity | vm_compute; reflexivity].
Defined.

Lemma value_reply_last_port_wins_witness :
  stored_reading "distance" (_sensors (ev3 (_onMessage value_reply discovered)))
  = reply_reading value_reply 3.
Proof.
  destruct (value_reply_last_port_wins discovered value_reply "distance")
    as [H _]; [repeat split; vm_compute; reflexivity | left; reflexivity |].
  apply (H 3%nat); [lia | vm_compute; reflexivity | intros j Hj; lia].
Defined.

Lemma reply_changes_only_readings_witness :
  with_position None <$> heap (_onMessage value_reply discovered)
  = with_position None <$> heap discovered.
Proof.
  destruct (reply_changes_only_readings discovered value_reply) as [_ H];
    [vm_compute; reflexivity | exact H].
Defined.

(** ** Motor references *)

Section MotorReferences.
Context {L : Type} `{!RateLimiter L}.
Implicit Types (w : Runtime L) (e : EV3 L) (bytes : list Z) (data : JS.array Z).

Lemma devices_kept_refl w : devices_kept w w.
Proof. now repeat split. Qed.

Lemma devices_kept_trans w1 w2 w3 :
  devices_kept w1 w2 -> devices_kept w2 w3 -> devices_kept w1 w3.
Proof. intros (? & ? & ? & ?) (? & ? & ? & ?). repeat split; congruence. Qed.

Lemma devices_kept_inv w w' :
  devices_kept w w' -> motors_on_their_ports w -> motors_on_their_ports w'.
Proof.
  intros (Hs & Hp & Hm & Hi) (A & B & C & D). unfold motors_on_their_ports, motor in *.
  rewrite Hs, Hp, Hm. repeat split; auto.
  intros i r Hr. rewrite <- list_lookup_fmap, Hi, list_lookup_fmap. now apply D.
Qed.

Lemma index_alter (f : EV3Motor -> EV3Motor) (r : nat) (h : list EV3Motor) :
  (forall this, _index (f this) = _index this) ->
  _index <$> alter f r h = _index <$> h.
Proof.
  intros Hf. apply list_eq. intros k. rewrite !list_lookup_fmap, list_lookup_alter.
  destruct (decide (r = k)) as [-> |]; [| reflexivity].
  destruct (h !! k); cbn; [f_equal; apply Hf | reflexivity].
Qed.

Lemma index_insert (r : nat) (this this' : EV3Motor) (h : list EV3Motor) :
  h !! r = Some this -> _index this' = _index this ->
  _index <$> <[r := this']> h = _index <$> h.
Proof.
  intros Hr Hi. rewrite list_fmap_insert, Hi. apply list_insert_id.
  now rewrite list_lookup_fmap, Hr.
Qed.

Lemma send_kept message useLimiter w : devices_kept w (send message useLimiter w).2.
Proof.
  unfold send, sendMessage. destruct (negb (isConnected w)); [apply devices_kept_refl |].
  destruct useLimiter.
  - destruct (okayToSend _ _) as [[|] l]; cbn;
      destruct (_bt (ev3 w)); repeat split; reflexivity.
  - destruct (_bt (ev3 w)); repeat split; reflexivity.
Qed.

Lemma coast_kept r w : devices_kept w (coast r w).
Proof.
  unfold coast. destruct (heap w !! r) as [this |]; [| apply devices_kept_refl].
  destruct (_power this =? 0); [apply devices_kept_refl | apply send_kept].
Qed.

Lemma coastAfter_kept r time w : devices_kept w (coastAfter r time w).
Proof.
  unfold coastAfter. destruct (heap w !! r) as [this |] eqn:Hr; [| apply devices_kept_refl].
  destruct (_power this =? 0); [apply devices_kept_refl |].
  repeat split; try reflexivity. cbn. now apply (index_insert r this).
Qed.

Lemma turnOnFor_kept r ms w : devices_kept w (turnOnFor r ms w).
Proof.
  unfold turnOnFor. destruct (heap w !! r) as [this |]; [| apply devices_kept_refl].
  destruct (_power this =? 0); [apply devices_kept_refl |].
  eapply devices_kept_trans; [apply send_kept | apply coastAfter_kept].
Qed.

Lemma coast_callback_kept r commandId w : devices_kept w (coast_callback r commandId w).
Proof.
  unfold coast_callback. destruct (heap w !! r) as [this |]; [| apply devices_kept_refl].
  case_bool_decide; [| apply devices_kept_refl].
  eapply devices_kept_trans; [apply coast_kept |].
  repeat split; try reflexivity. cbn. now apply index_alter.
Qed.

Lemma fire_next_kept w : devices_kept w (fire_next w).
Proof.
  unfold fire_next. destruct (timers w) as [| t q]; [apply devices_kept_refl |].
  eapply devices_kept_trans; [| apply coast_callback_kept]. now repeat split.
Qed.

Lemma stopAllMotors_kept w : devices_kept w (stopAllMotors w).
Proof.
  unfold stopAllMotors. generalize (_motors (ev3 w)) as refs. intros refs. revert w.
  induction refs as [| [r |] refs IH]; intros w; cbn [foldl].
  - apply devices_kept_refl.
  - eapply devices_kept_trans; [apply coast_kept | apply IH].
  - apply IH.
Qed.

Lemma pollValues_kept w : devices_kept w (_pollValues w).
Proof.
  unfold _pollValues. destruct (negb (isConnected w)).
  - destruct (_pollingIntervalID (ev3 w)); now repeat split.
  - destruct (poll_request (ev3 w)) as [[cmds allocation] e] eqn:Hreq.
    assert (He : devices_kept w (with_ev3 e w)).
    { unfold poll_request in Hreq.
      destruct (Z.rem (_pollingCounter (ev3 w)) 20 =? 0).
      - injection Hreq as _ _ <-. now repeat split.
      - destruct (foldl (poll_sensor_step _) _ _) as [[c1 i1] n1].
        destruct (foldl poll_motor_step _ _) as [[c2 i2] n2].
        injection Hreq as _ _ <-. now repeat split. }
    eapply devices_kept_trans; [| now repeat split].
    eapply devices_kept_trans; [exact He | apply send_kept].
Qed.

Lemma parse_values_kept data w : devices_kept w (parse_values data w).
Proof.
  destruct (parse_values_tables data w) as [Hp Hm].
  rewrite parse_values_folds in *.
  pose proof (sensor_value_fold_frame data (seq 0 4) (ev3 w) 5) as He.
  revert He Hp Hm. cbv zeta.
  generalize (foldl (sensor_value_step data) (ev3 w, 5%nat) (seq 0 4)).
  intros [e1 o1]. cbn [fst]. intros He.
  destruct (motor_position_fold_effect data (seq 0 4) (with_ev3 e1 w) 21)
    as (_ & Hev & _ & Hpos & _).
  revert Hev Hpos. cbv zeta.
  generalize (foldl (motor_position_step data) (with_ev3 e1 w, 21%nat) (seq 0 4)).
  intros [w2 o2]. cbn [fst]. intros Hev Hpos Hp Hm.
  split; [| split; [exact Hp | split; [exact Hm |]]].
  - rewrite Hev. change (ev3 (with_ev3 e1 w)) with e1. now rewrite He.
  - change (heap (with_ev3 e1 w)) with (heap w) in Hpos.
    apply (f_equal (fmap _index)) in Hpos.
    now rewrite <- !list_fmap_compose in Hpos.
Qed.

Lemma motor_object_step_inv w (m : nat) :
  (m < 4)%nat -> motors_on_their_ports w -> motors_on_their_ports (motor_object_step w m).
Proof.
  intros Hm (A & B & C & D). unfold motor in D.
  assert (Hold : forall i r x, JS.get (_motors (ev3 w)) i = Some r ->
            _index <$> (heap w ++ [x]) !! r = Some i).
  { intros i r x Hr. specialize (D i r Hr).
    destruct (heap w !! r) as [this |] eqn:Hh; [| discriminate D].
    now rewrite (lookup_app_l_Some _ _ _ _ Hh). }
  unfold motor_object_step, motors_on_their_ports, motor.
  repeat match goal with |- context [if ?b then _ else _] => destruct b end;
    cbn; rewrite ?js_set_length; (split; [exact A | split; [exact B | split; [lia |]]]);
    intros i r; (destruct (decide (i = m)) as [-> | Hne];
      [rewrite ?js_get_set_eq | rewrite ?js_get_set_ne by congruence]);
    try discriminate; auto.
  intros [= <-]. now rewrite lookup_app_r, Nat.sub_diag by lia.
Qed.

Lemma motor_object_fold_inv w (ks : list nat) :
  Forall (fun k => k < 4)%nat ks ->
  motors_on_their_ports w -> motors_on_their_ports (foldl motor_object_step w ks).
Proof.
  intros Hks. revert w. induction Hks as [| k ks Hk _ IH]; intros w Hw; cbn [foldl].
  - exact Hw.
  - apply IH. now apply motor_object_step_inv.
Qed.

Lemma parse_device_list_inv data w :
  motors_on_their_ports w -> motors_on_their_ports (parse_device_list data w).
Proof.
  intros (A & B & C & D). unfold parse_device_list.
  set (e := foldl (motor_port_step data) _ _).
  assert (He : motors_on_their_ports (with_ev3 e w)).
  { subst e. unfold motors_on_their_ports, motor. cbn [seq foldl].
    unfold motor_port_step, sensor_port_step.
    cbn [ev3 with_ev3 heap _sensorPorts with_sensorPorts _motorPorts with_motorPorts
         _motors].
    rewrite !js_set_length. repeat split; [lia | lia | exact C | exact D]. }
  clearbody e.
  assert (Hks : Forall (fun k => k < 4)%nat (seq 0 4)) by (repeat constructor; lia).
  pose proof (motor_object_fold_inv (with_ev3 e w) (seq 0 4) Hks He) as Hw.
  revert Hw. generalize (foldl motor_object_step (with_ev3 e w) (seq 0 4)).
  intros w1 (A1 & B1 & C1 & D1). repeat split; assumption.
Qed.

Lemma reset_inv w : motors_on_their_ports (reset w).
Proof.
  unfold motors_on_their_ports, motor.
  split; [| split; [| split]]; [| | | intros i r; now rewrite reset_no_motor];
    unfold reset; cbn [_pollingIntervalID with_motors with_sensors
                       with_motorPorts with_sensorPorts];
    destruct (_pollingIntervalID (ev3 w)) as [[| n] |]; cbn;
    first [apply Nat.le_0_l | reflexivity].
Qed.

Lemma onMessage_inv bytes w :
  motors_on_their_ports w -> motors_on_their_ports (_onMessage bytes w).
Proof.
  intros Hw.
  destruct (decide (bytes !! 4%nat = Some Ev3Command.DIRECT_REPLY)) as [Htag | Htag].
  2: { now rewrite onMessage_other_tag by assumption. }
  destruct (_updateDevices (ev3 w)) eqn:Hu.
  - rewrite onMessage_device_list by assumption. now apply parse_device_list_inv.
  - rewrite onMessage_value by assumption.
    destruct (negb _ && negb _); [| exact Hw].
    eapply devices_kept_inv; [apply parse_values_kept | exact Hw].
Qed.

Lemma step_motors_on_their_ports w w' :
  step w w' -> motors_on_their_ports w -> motors_on_their_ports w'.
Proof.
  intros Hstep. destruct Hstep;
    try (apply devices_kept_inv;
         first [ apply turnOnFor_kept | apply coast_kept | apply fire_next_kept
               | apply pollValues_kept | apply send_kept
               | now repeat split ]).
  - (* _onMessage *) apply onMessage_inv.
  - (* reset *) intros _. apply reset_inv.
  - (* disconnect *) intros _. unfold disconnect. apply reset_inv.
  - (* stopAll *)
    apply devices_kept_inv. unfold stopAll, stopSound.
    eapply devices_kept_trans; [apply stopAllMotors_kept | apply send_kept].
  - (* direction *)
    apply devices_kept_inv. repeat split; try reflexivity. cbn.
    apply index_alter. intros this. unfold set_direction. now destruct (v <? 0).
  - (* power *)
    apply devices_kept_inv. repeat split; try reflexivity. cbn. now apply index_alter.
Qed.

Lemma reachable_motors_on_their_ports w : reachable w -> motors_on_their_ports w.
Proof.
  intros [l Hr]. revert w Hr. apply rtc_ind_r.
  - unfold motors_on_their_ports, motor. cbn. repeat split; try lia.
    intros i r. now destruct i as [| [| [| [| [| i]]]]].
  - intros w1 w2 _ Hstep IH. eapply step_motors_on_their_ports; eassumption.
Qed.

(** X23: in every state that a session can reach, the motor reference
    of a port is to a motor object that was created for that port, and
    only the four ports 0 to 3 have one. So no two ports share a motor
    object, and a motor's commands carry the bit of the port it is
    referenced from. *)
Theorem reachable_motor_ports w (i r : nat) :
  reachable w -> motor (ev3 w) i = Some r ->
  (exists this, heap w !! r = Some this /\ _index this = i)
  /\ (forall j, motor (ev3 w) j = Some r -> j = i)
  /\ (i < 4)%nat.
Proof.
  intros Hreach Hr.
  destruct (reachable_motors_on_their_ports w Hreach) as (_ & _ & Hlen & Hw).
  split; [| split].
  - specialize (Hw i r Hr). destruct (heap w !! r) as [this |]; [| discriminate Hw].
    exists this. injection Hw as Hw. now rewrite Hw.
  - intros j Hj. pose proof (Hw i r Hr) as Hi. pose proof (Hw j r Hj) as Hj'.
    rewrite Hi in Hj'. now injection Hj'.
  - unfold motor, JS.get in Hr. rewrite <- Hlen. apply lookup_lt_is_Some.
    destruct (_motors (ev3 w) !! i); [eauto | discriminate Hr].
Qed.

(** X21: in a session, a value reply that is read gives the motor of
    port [i] the position that the position setter computes from the
    slot of the port (bytes [21 + 4 i] to [24 + 4 i]); nothing else of
    the motor object changes. *)
Theorem value_reply_position w bytes (i r : nat) :
  reachable w -> read_as_values w bytes ->
  motor (ev3 w) i = Some r ->
  exists this,
    heap w !! r = Some this
    /\ heap (_onMessage bytes w) !! r
       = Some (with_position (reply_position bytes i) this).
Proof.
  intros Hreach Hv Hr.
  destruct (reachable_motors_on_their_ports w Hreach) as (_ & _ & Hlen & Hw).
  pose proof (Hw i r Hr) as Hi.
  destruct (heap w !! r) as [this |] eqn:Hthis; [| discriminate Hi].
  exists this. split; [reflexivity |].
  apply onMessage_position_at; try assumption.
  - unfold motor, JS.get in Hr. rewrite <- Hlen. apply lookup_lt_is_Some.
    destruct (_motors (ev3 w) !! i); [eauto | discriminate Hr].
  - intros j _ Hne Hj. specialize (Hw j r Hj). rewrite Hthis in Hw.
    cbn in Hw, Hi. congruence.
Qed.

End MotorReferences.

(** ** Discovery *)

Section DeviceLists.
Context {L : Type} `{!RateLimiter L}.
Implicit Types (w : Runtime L) (e : EV3 L) (bytes : list Z) (data : JS.array Z).

Lemma sensor_port_fold data e (i : nat) :
  (i < 4)%nat ->
  JS.get (_sensorPorts (foldl (sensor_port_step data) e (seq 0 4))) i
  = Some (device_or_none (JS.get data (i + 5))).
Proof.
  intros Hi. cbn [seq foldl]. unfold sensor_port_step. cbn [_sensorPorts with_sensorPorts].
  destruct i as [| [| [| [| i]]]]; [| | | | lia];
    rewrite ?js_get_set_ne by lia; now rewrite js_get_set_eq.
Qed.

Lemma four_sets_no_holes {A} (a : JS.array A) (x0 x1 x2 x3 : A) :
  (length a <= 4)%nat ->
  JS.includes_undefined
    (JS.set 3 (Some x3) (JS.set 2 (Some x2) (JS.set 1 (Some x1) (JS.set 0 (Some x0) a))))
  = false.
Proof.
  intros Hlen.
  destruct a as [| a0 [| a1 [| a2 [| a3 [| a4 a]]]]]; cbn in Hlen; try lia; reflexivity.
Qed.

Lemma motor_object_step_others w (k : nat) :
  _sensorPorts (ev3 (motor_object_step w k)) = _sensorPorts (ev3 w)
  /\ _updateDevices (ev3 (motor_object_step w k)) = _updateDevices (ev3 w).
Proof.
  unfold motor_object_step.
  repeat match goal with |- context [if ?b then _ else _] => destruct b end;
    split; reflexivity.
Qed.

Lemma motor_object_fold_others w (ks : list nat) :
  _sensorPorts (ev3 (foldl motor_object_step w ks)) = _sensorPorts (ev3 w).
Proof.
  revert w. induction ks as [| k ks IH]; intros w; cbn [foldl]; [reflexivity |].
  rewrite IH. apply motor_object_step_others.
Qed.

(** The port tables after the device-list branch. *)
Lemma parse_device_list_tables data w :
  let w' := parse_device_list data w in
  _sensorPorts (ev3 w') = _sensorPorts (foldl (sensor_port_step data) (ev3 w) (seq 0 4))
  /\ _motorPorts (ev3 w') = _motorPorts (foldl (motor_port_step data) (ev3 w) (seq 0 4))
  /\ _updateDevices (ev3 w') = false.
Proof.
  unfold parse_device_list.
  set (e := foldl (motor_port_step data) _ _).
  assert (Hs : _sensorPorts e = _sensorPorts (foldl (sensor_port_step data) (ev3 w) (seq 0 4)))
    by reflexivity.
  assert (Hm : _motorPorts e = _motorPorts (foldl (motor_port_step data) (ev3 w) (seq 0 4)))
    by reflexivity.
  clearbody e.
  pose proof (motor_object_fold_others (with_ev3 e w) (seq 0 4)) as Ho.
  pose proof (kept_motorPorts _ _ (motor_object_fold_kept (with_ev3 e w) (seq 0 4))) as Hp.
  revert Ho Hp. generalize (foldl motor_object_step (with_ev3 e w) (seq 0 4)).
  intros w1 Ho Hp. cbn [ev3 with_ev3] in Ho, Hp. cbn.
  rewrite Ho, Hp. auto.
Qed.

(** X24: a device-list reply settles both port tables: each of the four
    sensor ports and of the four motor ports gets the device name of the
    type byte reported for it (['none'] for a code that names no device),
    and the request is marked as answered. In a session, every
    success-tagged reply that follows is then read as a value reply. *)
Theorem device_list_settles_ports w bytes :
  reachable w ->
  _updateDevices (ev3 w) = true ->
  bytes !! 4%nat = Some Ev3Command.DIRECT_REPLY ->
  let w' := _onMessage bytes w in
  (forall i, (i < 4)%nat ->
     JS.get (_sensorPorts (ev3 w')) i
     = Some (device_or_none (JS.get (JS.of_bytes bytes) (i + 5)))
     /\ JS.get (_motorPorts (ev3 w')) i
        = Some (device_or_none (JS.get (JS.of_bytes bytes) (i + 21))))
  /\ _updateDevices (ev3 w') = false
  /\ (forall bytes', bytes' !! 4%nat = Some Ev3Command.DIRECT_REPLY ->
        read_as_values w' bytes').
Proof.
  intros Hreach Hu Htag. cbv zeta. rewrite onMessage_device_list by assumption.
  destruct (reachable_motors_on_their_ports w Hreach) as (Hls & Hlm & _).
  destruct (parse_device_list_tables (JS.of_bytes bytes) w) as (Hs & Hm & Hd).
  revert Hs Hm Hd. cbv zeta. generalize (parse_device_list (JS.of_bytes bytes) w).
  intros w1 Hs Hm Hd. unfold read_as_values. rewrite Hs, Hm, Hd.
  split; [| split; [reflexivity |]].
  - intros i Hi. split; [now apply sensor_port_fold | now apply motor_port_fold].
  - intros bytes' Htag'. split; [exact Htag' |]. split; [reflexivity |].
    cbn [seq foldl]. unfold sensor_port_step, motor_port_step.
    cbn [_sensorPorts with_sensorPorts _motorPorts with_motorPorts].
    split; now apply four_sets_no_holes.
Qed.

(** X25: a device-list reply changes no sensor reading and no motor
    object that exists: a motor that stays on its port keeps its power,
    direction, position and pending command, and also the type it was
    created with, whatever type the reply reports for the port. *)
Theorem device_list_keeps_objects w bytes (r : nat) this :
  _updateDevices (ev3 w) = true ->
  bytes !! 4%nat = Some Ev3Command.DIRECT_REPLY ->
  heap w !! r = Some this ->
  let w' := _onMessage bytes w in
  heap w' !! r = Some this /\ _sensors (ev3 w') = _sensors (ev3 w).
Proof.
  intros Hu Htag Hr. cbv zeta. rewrite onMessage_device_list by assumption.
  destruct (parse_device_list_kept (JS.of_bytes bytes) w) as (Hse & Hh & _).
  split; [| exact Hse]. eapply prefix_lookup_Some; eassumption.
Qed.

End DeviceLists.

Lemma first_discovery_reachable : reachable first_discovery.
Proof.
  exists limiter40. unfold first_discovery.
  eapply rtc_r; [| apply step_message].
  eapply rtc_r; [| apply step_poll].
  eapply rtc_r; [apply rtc_once, step_scan |].
  apply (step_link _ {| bt_connected := false; bt_sent := [] |} true). reflexivity.
Qed.

Lemma reachable_motor_ports_witness :
  exists this, heap first_discovery !! 0%nat = Some this /\ _index this = 0%nat.
Proof.
  destruct (reachable_motor_ports first_discovery 0 0) as (H & _);
    [apply first_discovery_reachable | vm_compute; reflexivity | exact H].
Defined.

Lemma value_reply_position_witness :
  exists this,
    heap first_discovery !! 0%nat = Some this
    /\ heap (_onMessage value_reply first_discovery) !! 0%nat
       = Some (with_position (reply_position value_reply 0) this).
Proof.
  apply (value_reply_position first_discovery value_reply 0 0).
  - apply first_discovery_reachable.
  - repeat split; vm_compute; reflexivity.
  - vm_compute. reflexivity.
Defined.

(** The slot [fe ff ff ff] of port A reads as the position -2. *)
Example value_reply_position_minus_2 :
  _position <$> heap (_onMessage value_reply first_discovery) !! 0%nat = Some (Some (-2)).
Proof. vm_compute. reflexivity. Qed.

Lemma device_list_settles_ports_witness :
  _updateDevices (ev3 first_discovery) = false
  /\ read_as_values first_discovery value_reply.
Proof.
  destruct (device_list_settles_ports
              (_pollValues (linked true (scan (initial limiter40))))
              (device_list_reply [16; 30; 29; 30] [7; 126; 126; 126]))
    as (_ & Hu & Hv).
  - exists limiter40.
    eapply rtc_r; [| apply step_poll].
    eapply rtc_r; [apply rtc_once, step_scan |].
    apply (step_link _ {| bt_connected := false; bt_sent := [] |} true). reflexivity.
  - vm_compute. reflexivity.
  - reflexivity.
  - split; [exact Hu | apply Hv; reflexivity].
Defined.

Lemma device_list_keeps_objects_witness :
  heap (_onMessage (device_list_reply [126; 126; 126; 126] [8; 126; 126; 126])
          (with_ev3 (with_updateDevices true (ev3 discovered)) discovered)) !! 0%nat
  = Some (new_EV3Motor 0 (Some "largeMotor"%string)).
Proof.
  destruct (device_list_keeps_objects
              (with_ev3 (with_updateDevices true (ev3 discovered)) discovered)
              (device_list_reply [126; 126; 126; 126] [8; 126; 126; 126])
              0 (new_EV3Motor 0 (Some "largeMotor"%string))) as [H _];
    [reflexivity | reflexivity | vm_compute; reflexivity | exact H].
Defined.

(** ** Reset *)

Section Resets.
Context {L : Type} `{!RateLimiter L}.
Implicit Types (w : Runtime L) (e : EV3 L) (bytes : list Z).

(** With no device known and no device list awaited, no reply changes
    anything. *)
Lemma onMessage_unset w bytes :
  _sensorPorts (ev3 w) = [] -> _motorPorts (ev3 w) = [] ->
  (forall i, JS.get (_motors (ev3 w)) i = None) ->
  _updateDevices (ev3 w) = false ->
  _onMessage bytes w = w.
Proof.
  intros Hs Hm Hmo Hu.
  destruct (decide (bytes !! 4%nat = Some Ev3Command.DIRECT_REPLY)) as [Htag | Htag].
  - rewrite onMessage_value by assumption. rewrite Hs, Hm.
    cbn [JS.includes_undefined existsb negb andb]. now apply parse_values_unset.
  - now apply onMessage_other_tag.
Qed.

Lemma reset_fields w :
  let w' := reset w in
  _sensorPorts (ev3 w') = [] /\ _motorPorts (ev3 w') = []
  /\ _sensors (ev3 w') = initial_sensors
  /\ heap w' = heap w /\ timers w' = timers w
  /\ _pollingCounter (ev3 w') = _pollingCounter (ev3 w)
  /\ _updateDevices (ev3 w') = _updateDevices (ev3 w)
  /\ _bt (ev3 w') = _bt (ev3 w).
Proof.
  unfold reset. cbn [_pollingIntervalID with_motors with_sensors
                     with_motorPorts with_sensorPorts].
  destruct (_pollingIntervalID (ev3 w)) as [[| n] |]; cbn; repeat split; reflexivity.
Qed.

Lemma reset_idempotent w : reset (reset w) = reset w.
Proof.
  unfold reset. cbn [_pollingIntervalID with_motors with_sensors
                     with_motorPorts with_sensorPorts].
  destruct (_pollingIntervalID (ev3 w)) as [[| n] |] eqn:Hid; cbn; rewrite ?Hid; reflexivity.
Qed.

(** X26: [reset] forgets the devices and stops the polling, and nothing
    more. Afterwards no motor is referenced, no button counts as pressed,
    distance and brightness read 0, and the poll interval, if one was
    running, is cleared. The motor objects, the pending coast timers, the
    poll counter and a pending device-list request are left as they are.
    A second [reset] changes nothing, and unless a device list is still
    awaited no reply changes anything until the next discovery. *)
Theorem reset_forgets_devices w :
  let w' := reset w in
  (forall i, motor (ev3 w') i = None /\ isButtonPressed (ev3 w') i = false)
  /\ distance (ev3 w') = 0%float /\ brightness (ev3 w') = 0%float
  /\ heap w' = heap w /\ timers w' = timers w
  /\ _pollingCounter (ev3 w') = _pollingCounter (ev3 w)
  /\ _updateDevices (ev3 w') = _updateDevices (ev3 w)
  /\ (forall i, _pollingIntervalID (ev3 w) = Some (S i) ->
        _pollingIntervalID (ev3 w') = None /\ S i ∉ intervals w')
  /\ reset w' = w'
  /\ (_updateDevices (ev3 w) = false -> forall bytes, _onMessage bytes w' = w').
Proof.
  cbv zeta.
  destruct (reset_fields w) as (Hs & Hm & Hse & Hh & Ht & Hc & Hu & _).
  pose proof (reset_no_motor w) as Hmo.
  pose proof (reset_idempotent w) as Hidem.
  assert (Hid : forall i, _pollingIntervalID (ev3 w) = Some (S i) ->
                  _pollingIntervalID (ev3 (reset w)) = None /\ S i ∉ intervals (reset w)).
  { intros i Hi. unfold reset. cbn [_pollingIntervalID with_motors with_sensors
                                    with_motorPorts with_sensorPorts].
    rewrite Hi. cbn. split; [reflexivity |].
    intros Hin. apply elem_of_difference in Hin as [_ Hin].
    apply Hin. now apply elem_of_singleton. }
  revert Hs Hm Hse Hh Ht Hc Hu Hmo Hidem Hid. cbv zeta. generalize (reset w).
  intros w' Hs Hm Hse Hh Ht Hc Hu Hmo Hidem Hid.
  split.
  { intros i. split; [apply Hmo |]. unfold isButtonPressed. rewrite Hse.
    destruct i as [| [| [| [| [| i]]]]]; reflexivity. }
  split; [unfold distance; rewrite Hse; vm_compute; reflexivity |].
  split; [unfold brightness; now rewrite Hse |].
  repeat (split; [assumption |]).
  intros Hfalse bytes. apply onMessage_unset; try assumption. congruence.
Qed.

End Resets.

(** After a session with a discovered motor, [reset] drops the reference
    of port A and keeps the motor object. *)
Example reset_after_discovery :
  motor (ev3 first_discovery) 0 = Some 0%nat
  /\ motor (ev3 (reset first_discovery)) 0 = None
  /\ heap (reset first_discovery) !! 0%nat = Some (new_EV3Motor 0 (Some "largeMotor"%string)).
Proof. vm_compute. auto. Qed.

Lemma reset_forgets_devices_witness :
  _onMessage value_reply (reset first_discovery) = reset first_discovery.
Proof.
  destruct (reset_forgets_devices first_discovery) as (_ & _ & _ & _ & _ & _ & _ & _ & _ & H).
  apply (H ltac:(vm_compute; reflexivity) value_reply).
Defined.

Lemma portMask_bit_witness : Z.land (_portMask 0) (_portMask 3) = 0 /\ 1 <= _portMask 3 <= 8.
Proof.
  destruct (portMask_bit 0 3) as (_ & H & _).
  destruct (portMask_bit 3 3) as (_ & _ & H' & _).
  split; [apply H; lia | apply H'; lia].
Defined.

Lemma poll_frame_well_formed_witness :
  poll_frame (new_EV3 limiter40)
  = [ Some 11; Some 0; Some 0; Some 0; Some 0; Some 33; Some 0;
      Some 0x98; Some 0x81; Some 32; Some 0x60; Some 0xE1; Some 0x20 ].
Proof.
  destruct (poll_frame_well_formed (new_EV3 limiter40)) as (_ & _ & _ & _ & H).
  apply H. reflexivity.
Defined.

(** ** The tone *)

Section Tone.
Context {L : Type} `{!RateLimiter L}.
Implicit Types (w : Runtime L).

(** X27: [beep] asks the rate limiter and, on a connected transport,
    sends one frame of 17 cells: the tone command at volume 2 with the
    frequency and the duration as two-byte operands. For values below
    2^16 the high cell of each operand is the value shifted right by 8,
    but the low cell is the whole value, not its low byte: every cell of
    the frame is a byte exactly when frequency and duration are both
    below 256. *)
Theorem beep_frame_cells w (freq time : Z) :
  0 <= freq < 2 ^ 16 -> 0 <= time < 2 ^ 16 ->
  beep_frame freq time
  = [ Some 15; Some 0; Some 0; Some 0; Some Ev3Command.DIRECT_COMMAND_NO_REPLY;
      Some 0; Some 0;
      Some Ev3Opcode.OPSOUND; Some Ev3Opcode.OPSOUND_CMD_TONE;
      Some Ev3Encoding.ONE_BYTE; Some 2;
      Some Ev3Encoding.TWO_BYTES; Some freq; Some (freq / 2 ^ 8);
      Some Ev3Encoding.TWO_BYTES; Some time; Some (time / 2 ^ 8) ]
  /\ length_field_ok (beep_frame freq time)
  /\ forallb is_byte_cell (beep_frame freq time) = (freq <? 256) && (time <? 256)
  /\ (isConnected w = true ->
      sent_log (beep freq time w)
      = if (okayToSend (clock w) (_rateLimiter (ev3 w))).1
        then sent_log w ++ [beep_frame freq time] else sent_log w).
Proof.
  intros Hf Ht.
  assert (Hframe : beep_frame freq time
    = [ Some 15; Some 0; Some 0; Some 0; Some Ev3Command.DIRECT_COMMAND_NO_REPLY;
        Some 0; Some 0;
        Some Ev3Opcode.OPSOUND; Some Ev3Opcode.OPSOUND_CMD_TONE;
        Some Ev3Encoding.ONE_BYTE; Some 2;
        Some Ev3Encoding.TWO_BYTES; Some freq; Some (freq / 2 ^ 8);
        Some Ev3Encoding.TWO_BYTES; Some time; Some (time / 2 ^ 8) ]).
  { unfold beep_frame. rewrite generateCommand_cells. cbv zeta.
    rewrite !shr_div, !to_int32_small by lia. reflexivity. }
  split; [exact Hframe |]. split; [| split].
  - unfold length_field_ok, beep_frame. apply generateCommand_lenField_short. simpl. lia.
  - rewrite Hframe. cbn [forallb is_byte_cell].
    assert (Hhf : 0 <= freq / 2 ^ 8 < 256)
      by (split; [apply Z.div_pos | apply Z.div_lt_upper_bound]; lia).
    assert (Hht : 0 <= time / 2 ^ 8 < 256)
      by (split; [apply Z.div_pos | apply Z.div_lt_upper_bound]; lia).
    clear Hframe. revert Hhf Hht.
    generalize (freq / 2 ^ 8) as hf. generalize (time / 2 ^ 8) as ht.
    intros ht hf Hhf Hht.
    replace (0 <=? freq) with true by (symmetry; apply Z.leb_le; lia).
    replace (0 <=? time) with true by (symmetry; apply Z.leb_le; lia).
    replace (0 <=? hf) with true by (symmetry; apply Z.leb_le; lia).
    replace (0 <=? ht) with true by (symmetry; apply Z.leb_le; lia).
    replace (hf <? 256) with true by (symmetry; apply Z.ltb_lt; lia).
    replace (ht <? 256) with true by (symmetry; apply Z.ltb_lt; lia).
    cbn. now rewrite !andb_true_r.
  - intros Hc. unfold beep. fold (beep_frame freq time).
    pose proof (send_connected (beep_frame freq time) true w Hc) as H.
    destruct (okayToSend _ _) as [okay l]. cbn [fst]. now destruct H as (_ & H & _).
Qed.

End Tone.

Lemma beep_frame_cells_witness :
  forallb is_byte_cell (beep_frame 440 100) = false
  /\ sent_log (beep 440 100 (linked true (initial limiter40))) = [beep_frame 440 100].
Proof.
  destruct (beep_frame_cells (linked true (initial limiter40)) 440 100)
    as (_ & _ & Hb & Hs); [lia | lia |].
  split; [exact Hb | apply Hs; reflexivity].
Defined.

(** ** Connection life cycle *)

Section LifeCycle.
Context {L : Type} `{!RateLimiter L}.
Implicit Types (w : Runtime L).

Lemma disconnect_not_connected w : isConnected (disconnect w) = false.
Proof.
  unfold disconnect.
  set (w1 := match _bt (ev3 w) with Some _ => _ | None => w end).
  assert (Hc : isConnected w1 = false).
  { subst w1. unfold isConnected. now destruct (_bt (ev3 w)) eqn:Hbt; cbn; rewrite ?Hbt. }
  clearbody w1. unfold isConnected in *.
  destruct (reset_fields w1) as (_ & _ & _ & _ & _ & _ & _ & Hbt).
  revert Hbt. cbv zeta. generalize (reset w1). intros w2 Hbt. now rewrite Hbt.
Qed.

(** X28: [disconnect] ends the polling that [_onConnect] started.
    [_onConnect] registers a live interval under a non-zero id. After
    [disconnect] the transport is not connected and [send] resolves
    without handing anything to the transport; a non-zero interval id is
    cleared and forgotten, and a poll tick that still arrives changes
    nothing. *)
Theorem disconnect_stops_polling w :
  let w1 := disconnect w in
  isConnected w1 = false
  /\ (forall message useLimiter, send message useLimiter w1 = (Resolved, w1))
  /\ (forall i, _pollingIntervalID (ev3 w) = Some (S i) ->
        (S i ∉ intervals w1) /\ _pollingIntervalID (ev3 w1) = None
        /\ _pollValues w1 = w1)
  /\ (exists i, _pollingIntervalID (ev3 (_onConnect w)) = Some (S i)
                /\ S i ∈ intervals (_onConnect w)).
Proof.
  cbv zeta.
  pose proof (disconnect_not_connected w) as Hc.
  assert (Hid : forall i, _pollingIntervalID (ev3 w) = Some (S i) ->
                  (S i ∉ intervals (disconnect w))
                  /\ _pollingIntervalID (ev3 (disconnect w)) = None).
  { intros i Hi. unfold disconnect, reset.
    destruct (_bt (ev3 w)); cbn; rewrite Hi; cbn; (split; [| reflexivity]);
      intros Hin; apply elem_of_difference in Hin as [_ Hin];
      apply Hin; now apply elem_of_singleton. }
  revert Hc Hid. generalize (disconnect w). intros w1 Hc Hid.
  split; [exact Hc |]. split; [| split].
  - intros message useLimiter. unfold send. now rewrite Hc.
  - intros i Hi. pose proof (Hid i Hi) as [Hout Hnone].
    split; [exact Hout |]. split; [exact Hnone |].
    unfold _pollValues. now rewrite Hc, Hnone.
  - exists (interval_next w). unfold _onConnect, setInterval. cbn.
    split; [reflexivity |]. apply elem_of_union_l. now apply elem_of_singleton.
Qed.

End LifeCycle.

(** A session that connects and disconnects again: the frames that were
    sent stay in the transport's log and no later tick adds one. *)
Example connect_then_disconnect :
  let w := _pollValues (_onConnect (linked true (scan (initial limiter40)))) in
  length (sent_log w) = 1%nat
  /\ sent_log (_pollValues (disconnect w)) = sent_log w.
Proof. vm_compute. auto. Qed.

Lemma disconnect_stops_polling_witness :
  _pollValues (disconnect (_onConnect (linked true (scan (initial limiter40)))))
  = disconnect (_onConnect (linked true (scan (initial limiter40)))).
Proof.
  destruct (disconnect_stops_polling (_onConnect (linked true (scan (initial limiter40)))))
    as (_ & _ & H & _).
  apply (H 0%nat). reflexivity.
Defined.

Lemma generateCommand_layout_witness :
  JS.defined (JS.get (generateCommand Ev3Command.DIRECT_COMMAND_NO_REPLY [Some 1] 0) 6) = true.
Proof.
  destruct (generateCommand_layout Ev3Command.DIRECT_COMMAND_NO_REPLY [Some 1] 0)
    as (_ & _ & _ & _ & _ & _ & H & _).
  apply H. lia.
Defined.
